(** * RJ Auto Metadata: the batch-processing engine

    A shallow embedding of [src/processing/batch_processing.py]:
    the retry policy, the per-file processor ([process_vector_file],
    [process_image], [process_single_file]) and the sliding-window
    coordinator with its retry rounds ([batch_process_files]); and of
    the modules it calls: the EXIF writer ([src/metadata/exif_writer.py]),
    the SVG converter
    ([src/processing/vector_processing/format_svg_processing.py]) and the
    image compressor with its temporary folders
    ([src/utils/compression.py]).

    Conventions.
    - Python [str] is modelled by [string]; [lower] and [strip] act on the
      ASCII range only.
    - Paths follow [posixpath].
    - Everything the coordinator cannot decide by itself (the cancellation
      signal, the file system as seen by [os.path.exists], what a future
      yields) is read from an environment indexed by a logical clock.
    - An exception is an explicit [Raise] result.
    - What a library or a child process does (exiftool, svglib, Pillow) is
      read from a record of functions given to the model of the caller.
    - A Python [float] is a binary64 number of the kernel. *)

From Stdlib Require Import ZArith Ascii String DecimalString.
From Stdlib Require Floats Uint63.
From stdpp Require Import gmap strings list fin_maps.

Local Open Scope string_scope.

(** ** Python string and path primitives *)

Definition chars (s : string) : list ascii := list_ascii_of_string s.
Definition str (l : list ascii) : string := string_of_list_ascii l.

Definition ascii_lower (c : ascii) : ascii :=
  let n := nat_of_ascii c in
  if (65 <=? n)%nat && (n <=? 90)%nat then ascii_of_nat (n + 32) else c.

(** [s.lower()] *)
Definition lower (s : string) : string := str (map ascii_lower (chars s)).

(** [c.isspace()] on the ASCII range *)
Definition ascii_isspace (c : ascii) : bool :=
  let n := nat_of_ascii c in
  ((9 <=? n)%nat && (n <=? 13)%nat) || ((28 <=? n)%nat && (n <=? 32)%nat).

Fixpoint lstrip_chars (l : list ascii) : list ascii :=
  match l with
  | c :: l' => if ascii_isspace c then lstrip_chars l' else l
  | [] => []
  end.

(** [s.strip()] *)
Definition strip (s : string) : string :=
  str (rev (lstrip_chars (rev (lstrip_chars (chars s))))).

Fixpoint starts_with (p l : list ascii) : bool :=
  match p, l with
  | [], _ => true
  | a :: p', b :: l' => Ascii.eqb a b && starts_with p' l'
  | _ :: _, [] => false
  end.

(** [s.startswith(p)] *)
Definition startswith (s p : string) : bool := starts_with (chars p) (chars s).

(** [s.endswith(p)] *)
Definition endswith (s p : string) : bool :=
  starts_with (rev (chars p)) (rev (chars s)).

(** [s.endswith(tuple)] *)
Definition endswith_any (s : string) (ps : list string) : bool :=
  existsb (endswith s) ps.

(** [l.rfind(c)]: the index of the last occurrence, [-1] when absent. *)
Fixpoint rfind_from (c : ascii) (l : list ascii) (i : Z) (found : Z) : Z :=
  match l with
  | [] => found
  | a :: l' => rfind_from c l' (i + 1) (if Ascii.eqb a c then i else found)
  end.

Definition rfind (c : ascii) (l : list ascii) : Z := rfind_from c l 0 (-1).

Definition slice_from (i : Z) (l : list ascii) : list ascii := drop (Z.to_nat i) l.
Definition slice_to (i : Z) (l : list ascii) : list ascii := take (Z.to_nat i) l.

(** [os.path.splitext(p)], after [genericpath._splitext]: the extension
    starts at the last dot of the last component, unless that component
    consists of leading dots only up to there. *)
Definition splitext (p : string) : string * string :=
  let l := chars p in
  let sepIndex := rfind "/"%char l in
  let dotIndex := rfind "."%char l in
  if (sepIndex <? dotIndex)%Z then
    if existsb (fun c => negb (Ascii.eqb c "."%char))
         (slice_from (sepIndex + 1) (slice_to dotIndex l))
    then (str (slice_to dotIndex l), str (slice_from dotIndex l))
    else (p, "")
  else (p, "").

(** [os.path.basename(p)] *)
Definition basename (p : string) : string :=
  let l := chars p in str (slice_from (rfind "/"%char l + 1) l).

(** [os.path.join(a, b)] *)
Definition path_join (a b : string) : string :=
  if startswith b "/" then b
  else if String.eqb a "" || endswith a "/" then a +:+ b
  else a +:+ "/" +:+ b.

(** [str(n)] for a non-negative integer *)
Definition str_of_nat (n : nat) : string := NilZero.string_of_uint (Nat.to_uint n).

(** [x in (a, b, ...)] on strings *)
Definition str_in (x : string) (l : list string) : bool := existsb (String.eqb x) l.

(** [int(s)] restricted to an optionally signed run of decimal digits
    surrounded by white space; anything else raises [ValueError]. *)
Definition digit_val (c : ascii) : option Z :=
  let n := nat_of_ascii c in
  if (48 <=? n)%nat && (n <=? 57)%nat then Some (Z.of_nat (n - 48)) else None.

Fixpoint digits_val (l : list ascii) (acc : Z) : option Z :=
  match l with
  | [] => Some acc
  | c :: l' =>
      match digit_val c with
      | Some d => digits_val l' (10 * acc + d)
      | None => None
      end
  end.

Definition int_of_str (s : string) : option Z :=
  match chars (strip s) with
  | [] => None
  | c :: l =>
      if Ascii.eqb c "-"%char then
        match l with [] => None | _ => Z.opp <$> digits_val l 0 end
      else if Ascii.eqb c "+"%char then
        match l with [] => None | _ => digits_val l 0 end
      else digits_val (c :: l) 0
  end.

(** ** The retry policy table *)

Record RetryPolicy := { priority : string; max_attempts : nat }.

Definition RETRYABLE_STATUSES : gmap string RetryPolicy :=
  list_to_map [
    ("failed_api", {| priority := "HIGH"; max_attempts := 5 |});
    ("failed_copy", {| priority := "MEDIUM"; max_attempts := 3 |});
    ("failed_conversion", {| priority := "MEDIUM"; max_attempts := 3 |});
    ("failed_frames", {| priority := "MEDIUM"; max_attempts := 3 |});
    ("failed_worker", {| priority := "MEDIUM"; max_attempts := 2 |});
    ("failed_timeout", {| priority := "MEDIUM"; max_attempts := 2 |});
    ("failed_exception", {| priority := "LOW"; max_attempts := 2 |});
    ("debug_artificial_failure", {| priority := "HIGH"; max_attempts := 3 |})
  ].

Definition NON_RETRYABLE_STATUSES : gset string :=
  {[ "failed_format"; "failed_empty"; "failed_input_missing" ]}.

Definition is_retryable (status : string) (attempt : nat) : bool :=
  if decide (status ∈ NON_RETRYABLE_STATUSES) then false
  else
    match RETRYABLE_STATUSES !! status with
    | Some pol => (attempt <? max_attempts pol)%nat
    | None => false
    end.

(** ** The world of one job *)

Inductive Res (A : Type) : Type :=
  | Ok (a : A)
  | Raise.
Arguments Ok {A} a.
Arguments Raise {A}.

(** A statement that may leave the enclosing function early. *)
Inductive Flow (R A : Type) : Type :=
  | Return (r : R)
  | Continue (a : A).
Arguments Return {R A} r.
Arguments Continue {R A} a.

Inductive Node :=
  | FileNode (content : string)
  | DirNode.

Abbreviation FS := (gmap string Node).

Record Metadata := {
  title : string;
  description : string;
  tags : list string;
  keyword_count_of : option string
}.

(** What [provider_manager.get_metadata] hands back. *)
Inductive MetadataResult :=
  | MetaStopped
  | MetaError (msg : string)
  | MetaDict (m : Metadata)
  | MetaInvalid.

Record CsvRow := {
  csv_dir : string;
  csv_filename : string;
  csv_title : string;
  csv_description : string;
  csv_tags : list string;
  csv_auto_kategori : bool;
  csv_is_vector : bool;
  csv_max_keywords : Z;
  csv_is_video : bool
}.

(** The file system together with a journal of the calls made to the AI
    provider and of the rows handed to the CSV exporter. *)
Record World := {
  fs : FS;
  ai_calls : list string;
  csv_rows : list CsvRow
}.

Definition with_fs (w : World) (f : FS) : World :=
  {| fs := f; ai_calls := ai_calls w; csv_rows := csv_rows w |}.

Definition log_ai_call (w : World) (p : string) : World :=
  {| fs := fs w; ai_calls := ai_calls w ++ [p]; csv_rows := csv_rows w |}.

Definition log_csv_row (w : World) (r : CsvRow) : World :=
  {| fs := fs w; ai_calls := ai_calls w; csv_rows := csv_rows w ++ [r] |}.

(** [os] and [shutil] on the modelled file system. [None] is a raised
    [OSError]. *)
Definition os_path_exists (f : FS) (p : string) : bool := bool_decide (is_Some (f !! p)).

Definition os_path_getsize (f : FS) (p : string) : option nat :=
  match f !! p with
  | Some (FileNode c) => Some (String.length c)
  | Some DirNode => Some 4096%nat
  | None => None
  end.

Definition os_makedirs (f : FS) (p : string) : option FS :=
  match f !! p with
  | Some (FileNode _) => None
  | Some DirNode => Some f
  | None => Some (<[p := DirNode]> f)
  end.

Definition os_remove (f : FS) (p : string) : option FS :=
  match f !! p with
  | Some (FileNode _) => Some (delete p f)
  | _ => None
  end.

Definition shutil_copy2 (f : FS) (src dst : string) : option FS :=
  match f !! src with
  | Some (FileNode c) => Some (<[dst := FileNode c]> f)
  | _ => None
  end.

Definition shutil_move (f : FS) (src dst : string) : option FS :=
  match f !! src with
  | Some n => Some (<[dst := n]> (delete src f))
  | None => None
  end.

(** [try: os.remove(p) except Exception: pass] *)
Definition try_remove (f : FS) (p : string) : FS :=
  match os_remove f p with Some f' => f' | None => f end.

(** The places where the cancellation signal is consulted. *)
Inductive CheckPoint :=
  | CP_entry            (* process_single_file, before the try *)
  | CP_try              (* process_single_file, first statement of the try *)
  | CP_before_dispatch  (* process_single_file, before the format branch *)
  | CP_vector_entry     (* process_vector_file, first check *)
  | CP_vector_convert   (* process_vector_file, before the conversion *)
  | CP_vector_after_api (* process_vector_file, after the metadata call *)
  | CP_after_dispatch   (* process_single_file, after the format branch *)
  | CP_final.           (* process_single_file, before the final return *)

Record Signals := {
  check_stop_event : CheckPoint -> bool;
  is_stop_requested : CheckPoint -> bool
}.

(** [_check_stop] of [process_vector_file] *)
Definition _check_stop (sg : Signals) (cp : CheckPoint) : bool := check_stop_event sg cp.

(** [_should_stop] of [process_single_file] *)
Definition _should_stop (sg : Signals) (cp : CheckPoint) : bool :=
  check_stop_event sg cp || is_stop_requested sg cp.

Record Settings := {
  ghostscript_path : string;
  rename_enabled : bool;
  auto_kategori_enabled : bool;
  auto_foldering_enabled : bool;
  provider_name : string;
  selected_model : option string;
  embedding_enabled : bool;
  keyword_count : string;
  priority_setting : string
}.

(** The triple [(status, metadata, output_path)] of a format processor. *)
Abbreviation Triple := (string * option Metadata * option string)%type.

(** The collaborators of the engine: constants and functions of modules
    that are imported by [batch_processing.py] ([src.utils.file_utils],
    [src.api.provider_manager], the format processors, the converters,
    the EXIF writer, the CSV exporter). They are parameters of the model. *)
Record Collab := {
  SUPPORTED_VIDEO_EXTENSIONS : list string;
  sanitize_filename : string -> string;
  select_api_key : string -> list string -> option string;
  get_metadata : string -> string -> string -> FS -> Res MetadataResult;
  convert_eps_to_jpg : string -> string -> string -> FS -> Res (bool * string) * FS;
  convert_svg_to_jpg : string -> string -> FS -> Res (bool * string) * FS;
  compress_image : string -> string -> FS -> Res (option string * bool) * FS;
  write_exif_with_exiftool : string -> string -> Metadata -> FS -> Res (bool * string) * FS;
  write_to_platform_csvs : CsvRow -> FS -> Res unit * FS;
  process_video : string -> string -> string -> Settings -> World -> Res Triple * World;
  process_jpg_jpeg : string -> string -> string -> Settings -> World -> Res Triple * World;
  process_png : string -> string -> string -> Settings -> World -> Res Triple * World
}.

(** Python truthiness of an optional string *)
Definition truthy (o : option string) : bool :=
  match o with
  | Some x => negb (String.eqb x "")
  | None => false
  end.

(** ** [process_vector_file] *)

(** [metadata['keyword_count'] = keyword_count] *)
Definition set_keyword_count (m : Metadata) (k : string) : Metadata :=
  {| title := title m; description := description m; tags := tags m;
     keyword_count_of := Some k |}.

(** The [if conversion_needed:] block. It leaves the function early or
    continues with the value of [temp_raster_path]. *)
Definition vector_convert (C : Collab) (sg : Signals) (st : Settings)
    (input_path filename ext_lower chosen_temp_folder : string) (w : World)
  : Flow (Res Triple) (option string) * World :=
  let is_eps_original := String.eqb ext_lower ".eps" in
  let is_ai_original := String.eqb ext_lower ".ai" in
  let is_svg_original := String.eqb ext_lower ".svg" in
  let conversion_needed := is_eps_original || is_ai_original || is_svg_original in
  if negb conversion_needed then (Continue None, w)
  else
    let base := fst (splitext filename) in
    let temp_raster_path := path_join chosen_temp_folder (base +:+ "_converted.jpg") in
    if negb (is_eps_original || is_ai_original || is_svg_original)
    then (Return (Ok ("failed_unknown", None, None)), w)
    else if _check_stop sg CP_vector_convert
    then (Return (Ok ("stopped", None, None)), w)
    else
      let '(r, f1) :=
        if is_eps_original || is_ai_original
        then convert_eps_to_jpg C input_path temp_raster_path (ghostscript_path st) (fs w)
        else convert_svg_to_jpg C input_path temp_raster_path (fs w) in
      match r with
      | Raise => (Return Raise, with_fs w f1)
      | Ok (conversion_success, error_msg) =>
          if negb conversion_success then
            let f2 := if os_path_exists f1 temp_raster_path
                      then try_remove f1 temp_raster_path else f1 in
            (Return (Ok ("failed_conversion", None, None)), with_fs w f2)
          else if os_path_exists f1 temp_raster_path then
            let '(rc, f2) := compress_image C temp_raster_path chosen_temp_folder f1 in
            match rc with
            | Ok (compressed_raster_path, is_compressed) =>
                match compressed_raster_path with
                | Some cp =>
                    if is_compressed && truthy compressed_raster_path && os_path_exists f2 cp
                    then match os_remove f2 temp_raster_path with
                         | Some f3 => (Continue (Some cp), with_fs w f3)
                         | None => (Continue (Some temp_raster_path), with_fs w f2)
                         end
                    else (Continue (Some temp_raster_path), with_fs w f2)
                | None => (Continue (Some temp_raster_path), with_fs w f2)
                end
            | Raise => (Continue (Some temp_raster_path), with_fs w f2)
            end
          else (Continue (Some temp_raster_path), with_fs w f1)
      end.

(** The final [try:] block: copy to the output, then embed. *)
Definition vector_output (C : Collab) (st : Settings)
    (input_path initial_output_path : string) (metadata : Metadata) (w : World)
  : Res Triple * World :=
  match shutil_copy2 (fs w) input_path initial_output_path with
  | None => (Ok ("failed_copy", Some metadata, None), w)
  | Some f1 =>
      let w1 := with_fs w f1 in
      let metadata := set_keyword_count metadata (keyword_count st) in
      if negb (embedding_enabled st)
      then (Ok ("processed_no_exif", Some metadata, Some initial_output_path), w1)
      else
        let '(r, f2) := write_exif_with_exiftool C input_path initial_output_path metadata f1 in
        let w2 := with_fs w f2 in
        match r with
        | Raise => (Ok ("failed_copy", Some metadata, None), w2)
        | Ok (proceed, exif_status) =>
            if negb proceed
            then (Ok ("failed_" +:+ exif_status, Some metadata, Some initial_output_path), w2)
            else if String.eqb exif_status "exif_ok"
            then (Ok ("processed_exif", Some metadata, Some initial_output_path), w2)
            else if String.eqb exif_status "exif_failed"
            then (Ok ("processed_exif_failed", Some metadata, Some initial_output_path), w2)
            else if String.eqb exif_status "no_metadata"
            then (Ok ("processed_no_exif", Some metadata, Some initial_output_path), w2)
            else if String.eqb exif_status "exiftool_not_found"
            then (Ok ("processed_exif_failed", Some metadata, Some initial_output_path), w2)
            else (Ok ("processed_unknown_exif_status", Some metadata, Some initial_output_path), w2)
        end
  end.

Definition process_vector_file (C : Collab) (sg : Signals) (st : Settings)
    (input_path output_dir selected_api_key : string) (w : World)
  : Res Triple * World :=
  let filename := basename input_path in
  let ext_lower := lower (snd (splitext filename)) in
  let initial_output_path := path_join output_dir filename in
  if _check_stop sg CP_vector_entry then (Ok ("stopped", None, None), w)
  else if os_path_exists (fs w) initial_output_path
  then (Ok ("skipped_exists", None, Some initial_output_path), w)
  else
    let chosen_temp_folder := path_join output_dir "temp_compressed" in
    match os_makedirs (fs w) chosen_temp_folder with
    | None => (Raise, w)
    | Some f0 =>
        match vector_convert C sg st input_path filename ext_lower chosen_temp_folder
                (with_fs w f0) with
        | (Return r, w1) => (r, w1)
        | (Continue temp_raster_path, w1) =>
            let api_path := if truthy temp_raster_path
                            then default input_path temp_raster_path else input_path in
            let w2 := log_ai_call w1 api_path in
            match get_metadata C (provider_name st) api_path selected_api_key (fs w2) with
            | Raise => (Raise, w2)
            | Ok metadata_result =>
                let w3 :=
                  match temp_raster_path with
                  | Some t =>
                      if truthy temp_raster_path && os_path_exists (fs w2) t
                      then with_fs w2 (try_remove (fs w2) t) else w2
                  | None => w2
                  end in
                match metadata_result with
                | MetaStopped => (Ok ("stopped", None, None), w3)
                | MetaError _ => (Ok ("failed_api", None, None), w3)
                | MetaInvalid => (Ok ("failed_api", None, None), w3)
                | MetaDict metadata =>
                    if _check_stop sg CP_vector_after_api
                    then (Ok ("stopped", Some metadata, None), w3)
                    else vector_output C st input_path initial_output_path metadata w3
                end
            end
        end
    end.

(** ** [process_image] *)

Definition process_image (C : Collab) (sg : Signals) (st : Settings)
    (input_path output_dir selected_api_key : string) (w : World)
  : Res Triple * World :=
  let filename := basename input_path in
  let ext_lower := lower (snd (splitext filename)) in
  match os_path_getsize (fs w) input_path with
  | None => (Ok ("failed_unknown", None, None), w)
  | Some file_size =>
      if (file_size <? 100)%nat then (Ok ("failed_empty", None, None), w)
      else if String.eqb ext_lower ".png"
      then process_png C input_path output_dir selected_api_key st w
      else if str_in ext_lower [".eps"; ".ai"; ".svg"]
      then process_vector_file C sg st input_path output_dir selected_api_key w
      else if str_in ext_lower [".jpg"; ".jpeg"]
      then process_jpg_jpeg C input_path output_dir selected_api_key st w
      else (Ok ("failed_format", None, None), w)
  end.

(** ** [process_single_file] *)

(** The record a job returns: the two-key dictionary of the early returns,
    or the six-key dictionary of the final return. *)
Inductive JobRecord :=
  | Short (status input : string)
  | Full (status input : string) (output : option string)
      (metadata : option Metadata) (original_filename : string)
      (new_filename : option string).

Definition job_status (r : JobRecord) : string :=
  match r with
  | Short s _ => s
  | Full s _ _ _ _ _ => s
  end.

Definition job_input (r : JobRecord) : string :=
  match r with
  | Short _ i => i
  | Full _ i _ _ _ _ => i
  end.

Definition processed_statuses : list string :=
  ["processed_exif"; "processed_no_exif";
   "processed_exif_failed"; "processed_unknown_exif_status"].

Definition max_rename_attempts : nat := 50.

(** [while os.path.exists(new_path) and counter < max_rename_attempts] *)
Fixpoint rename_loop (fuel : nat) (f : FS)
    (sanitized_title file_ext target_output_dir : string)
    (counter : nat) (new_base_filename new_path : string)
  : nat * string * string :=
  match fuel with
  | O => (counter, new_base_filename, new_path)
  | S fuel' =>
      if os_path_exists f new_path && (counter <? max_rename_attempts)%nat then
        let counter := (counter + 1)%nat in
        let new_base_filename :=
          sanitized_title +:+ " (" +:+ str_of_nat counter +:+ ")" +:+ file_ext in
        let new_path := path_join target_output_dir new_base_filename in
        rename_loop fuel' f sanitized_title file_ext target_output_dir
          counter new_base_filename new_path
      else (counter, new_base_filename, new_path)
  end.

(** The [if rename_enabled and ...] block. The result is the pair
    [(final_output_path, new_filename)]; [Raise] is the [AttributeError]
    of [initial_output_path.lower()] on [None]. *)
Definition rename_stage (C : Collab) (st : Settings)
    (processed_metadata : option Metadata)
    (original_filename target_output_dir : string)
    (initial_output_path : option string) (f : FS)
  : Res (option string * option string) * FS :=
  let final_output_path := initial_output_path in
  match processed_metadata with
  | Some m =>
      if rename_enabled st && negb (String.eqb (title m) "") then
        let file_ext := snd (splitext original_filename) in
        let title_for_rename := strip (title m) in
        if negb (String.eqb title_for_rename "") then
          let sanitized_title := sanitize_filename C title_for_rename in
          let sanitized_title :=
            if String.eqb sanitized_title ""
            then "untitled_" +:+ fst (splitext original_filename)
            else sanitized_title in
          let new_base_filename := sanitized_title +:+ file_ext in
          let new_path := path_join target_output_dir new_base_filename in
          match initial_output_path with
          | None => (Raise, f)
          | Some iop =>
              if negb (String.eqb (lower new_path) (lower iop)) then
                let '(counter, new_base_filename, new_path) :=
                  rename_loop max_rename_attempts f sanitized_title file_ext
                    target_output_dir 0 new_base_filename new_path in
                if (max_rename_attempts <=? counter)%nat
                then (Ok (final_output_path, None), f)
                else match shutil_move f iop new_path with
                     | Some f' => (Ok (Some new_path, Some new_base_filename), f')
                     | None => (Ok (final_output_path, None), f)
                     end
              else (Ok (final_output_path, None), f)
          end
        else (Ok (final_output_path, None), f)
      else (Ok (final_output_path, None), f)
  | None => (Ok (final_output_path, None), f)
  end.

(** The CSV block. [Raise] is the [NameError] of the handler, which names
    [final_filename_for_csv] before it is bound when [os.makedirs] fails. *)
Definition csv_stage (C : Collab) (st : Settings) (is_video : bool)
    (processed_metadata : option Metadata)
    (original_filename target_output_dir : string)
    (final_output_path new_filename : option string) (w : World)
  : Res unit * World :=
  match processed_metadata with
  | Some m =>
      if truthy final_output_path then
        let csv_subfolder := path_join target_output_dir "metadata_csv" in
        let made :=
          if negb (os_path_exists (fs w) csv_subfolder)
          then os_makedirs (fs w) csv_subfolder else Some (fs w) in
        match made with
        | None => (Raise, w)
        | Some f1 =>
            let final_filename_for_csv := basename (default "" final_output_path) in
            let title_for_csv :=
              if rename_enabled st && truthy new_filename
              then fst (splitext (default "" new_filename)) else title m in
            let is_vector_file :=
              endswith_any (lower original_filename) [".eps"; ".ai"; ".svg"] in
            let max_keywords :=
              match int_of_str (keyword_count st) with
              | Some k => if (k <? 1)%Z then 49%Z else k
              | None => 49%Z
              end in
            let row :=
              {| csv_dir := csv_subfolder; csv_filename := final_filename_for_csv;
                 csv_title := title_for_csv; csv_description := description m;
                 csv_tags := tags m; csv_auto_kategori := auto_kategori_enabled st;
                 csv_is_vector := is_vector_file; csv_max_keywords := max_keywords;
                 csv_is_video := is_video |} in
            match write_to_platform_csvs C row f1 with
            | (Ok _, f2) => (Ok tt, log_csv_row (with_fs w f2) row)
            | (Raise, f2) => (Ok tt, with_fs w f2)
            end
        end
      else (Ok tt, w)
  | None => (Ok tt, w)
  end.

(** The values of [status], [final_output_path], [processed_metadata] and
    [new_filename] when the [try] statement is left. *)
Record Locals := {
  l_status : string;
  l_final_output_path : option string;
  l_processed_metadata : option Metadata;
  l_new_filename : option string
}.

(** The [if status in processed_statuses:] block. *)
Definition finish_processed (C : Collab) (st : Settings) (is_video : bool)
    (input_path original_filename target_output_dir status : string)
    (processed_metadata : option Metadata) (initial_output_path : option string)
    (w : World) : Locals * World :=
  match rename_stage C st processed_metadata original_filename target_output_dir
          initial_output_path (fs w) with
  | (Raise, f1) =>
      ({| l_status := "failed_worker"; l_final_output_path := initial_output_path;
          l_processed_metadata := processed_metadata; l_new_filename := None |},
       with_fs w f1)
  | (Ok (final_output_path, new_filename), f1) =>
      let f2 :=
        if negb (String.eqb status "failed_copy")
           && negb (String.eqb status "skipped_exists")
           && os_path_exists f1 input_path
        then try_remove f1 input_path else f1 in
      match csv_stage C st is_video processed_metadata original_filename
              target_output_dir final_output_path new_filename (with_fs w f2) with
      | (Ok _, w3) =>
          ({| l_status := status; l_final_output_path := final_output_path;
              l_processed_metadata := processed_metadata;
              l_new_filename := new_filename |}, w3)
      | (Raise, w3) =>
          ({| l_status := "failed_worker"; l_final_output_path := final_output_path;
              l_processed_metadata := processed_metadata;
              l_new_filename := new_filename |}, w3)
      end
  end.

(** The body of [process_single_file] up to its last statement: an early
    [return], or the locals with which the final [return] is reached. *)
Definition process_single_file_body (C : Collab) (sg : Signals) (st : Settings)
    (input_path output_dir : string) (api_keys_list : list string) (w : World)
  : Flow JobRecord Locals * World :=
  let original_filename := basename input_path in
  if _should_stop sg CP_entry then (Return (Short "stopped" input_path), w)
  else if _should_stop sg CP_try then (Return (Short "stopped" input_path), w)
  else
    let ext_lower := lower (snd (splitext input_path)) in
    let is_video := str_in ext_lower (SUPPORTED_VIDEO_EXTENSIONS C) in
    let is_vector := str_in ext_lower [".eps"; ".ai"; ".svg"] in
    let '(target_output_dir, f1) :=
      if auto_foldering_enabled st then
        let t := if is_video then path_join output_dir "Videos"
                 else if is_vector then path_join output_dir "Vectors"
                 else path_join output_dir "Images" in
        if negb (os_path_exists (fs w) t) then
          match os_makedirs (fs w) t with
          | Some f' => (t, f')
          | None => (output_dir, fs w)
          end
        else (t, fs w)
      else (output_dir, fs w) in
    let w1 := with_fs w f1 in
    if negb (os_path_exists f1 input_path)
    then (Return (Short "failed_input_missing" input_path), w1)
    else
      match api_keys_list with
      | [] => (Return (Short "failed_api_list_empty" input_path), w1)
      | _ :: _ =>
          let selected := select_api_key C (provider_name st) api_keys_list in
          if negb (truthy selected)
          then (Return (Short "failed_api_selection" input_path), w1)
          else
            let selected_api_key := default "" selected in
            if _should_stop sg CP_before_dispatch
            then (Return (Short "stopped" input_path), w1)
            else
              let '(r, w2) :=
                if is_video
                then process_video C input_path target_output_dir selected_api_key st w1
                else if str_in ext_lower [".eps"; ".ai"; ".svg"]
                then process_vector_file C sg st input_path target_output_dir
                       selected_api_key w1
                else if str_in ext_lower [".jpg"; ".jpeg"]
                then process_jpg_jpeg C input_path target_output_dir selected_api_key st w1
                else if String.eqb ext_lower ".png"
                then process_png C input_path target_output_dir selected_api_key st w1
                else (Ok ("failed_format", None, None), w1) in
              match r with
              | Raise =>
                  (Continue {| l_status := "failed_worker"; l_final_output_path := None;
                               l_processed_metadata := None; l_new_filename := None |},
                   w2)
              | Ok (status, processed_metadata, initial_output_path) =>
                  if _should_stop sg CP_after_dispatch
                  then (Return (Short "stopped" input_path), w2)
                  else if str_in status processed_statuses then
                    let '(loc, w3) :=
                      finish_processed C st is_video input_path original_filename
                        target_output_dir status processed_metadata
                        initial_output_path w2 in
                    (Continue loc, w3)
                  else
                    (Continue {| l_status := status; l_final_output_path := None;
                                 l_processed_metadata := processed_metadata;
                                 l_new_filename := None |}, w2)
              end
      end.

Definition process_single_file (C : Collab) (sg : Signals) (st : Settings)
    (input_path output_dir : string) (api_keys_list : list string) (w : World)
  : JobRecord * World :=
  match process_single_file_body C sg st input_path output_dir api_keys_list w with
  | (Return r, w') => (r, w')
  | (Continue loc, w') =>
      if _should_stop sg CP_final then (Short "stopped" input_path, w')
      else (Full (l_status loc) input_path (l_final_output_path loc)
              (l_processed_metadata loc) (basename input_path) (l_new_filename loc), w')
  end.

(** ** The coordinator: environment and state *)

(** What [future.result(timeout=120)] does for a finished job. The record
    returned by [process_single_file] always carries the submitted path
    under ["input"], so only its status and new file name are kept. *)
Inductive Outcome :=
  | Returned (status : string) (new_filename : option string)
  | ReturnedNothing
  | TimedOut
  | Cancelled
  | Failed.

(** The surroundings of the coordinating thread, read at a logical clock
    that advances with every query. Futures are numbered in the order of
    their creation. *)
Record Env := {
  stop_signal : nat -> bool;
  path_exists : nat -> string -> bool;
  path_isfile : nat -> string -> bool;
  listdir : option (list string);
  cooldown_polls : nat -> nat;
  finished : nat -> nat -> bool;
  outcome : nat -> Outcome
}.

Record Config := {
  input_dir : string;
  output_dir_of : string;
  api_keys : list string;
  delay_seconds : Z;
  num_workers : nat;
  auto_retry_enabled : bool;
  ALL_SUPPORTED_EXTENSIONS : list string
}.

(** What the coordinator does to its executor and queue, newest first. *)
Inductive Event :=
  | EvSkip (p : string)
  | EvAbandon (p : string)
  | EvSubmit (future : nat) (p : string) (key_index : nat) (api_keys_list : list string)
  | EvSubmitError (p : string)
  | EvCollect (future : nat) (p : string) (o : Outcome)
  | EvCancel (future : nat)
  | EvShutdown.

Record Tally := {
  processed_count : Z;
  failed_count : Z;
  skipped_count : Z;
  stopped_count : Z;
  completed_count : Z
}.

(** The variables of one pass over a queue: [file_queue] from
    [file_queue_index] on, [processed_files], [future_to_path],
    [pending_futures] and whether [last_submit_time > 0]; in a retry round
    their [retry_] namesakes. *)
Record Pass := {
  queue : list string;
  submitted : gset string;
  future_to_path : gmap nat string;
  pending : list nat;
  last_submit_set : bool
}.

Record RetryTally := {
  retry_processed : Z;
  retry_failed : Z;
  retry_stopped : Z;
  current_retry_failed_files : list string
}.

Record State := {
  clock : nat;
  force_stop : bool;
  next_future : nat;
  current_api_key_index : nat;
  tally : Tally;
  failed_files : list (string * string * nat);
  pass : Pass;
  rtally : RetryTally;
  journal : list Event
}.

Definition set_clock (s : State) (x : nat) : State :=
  {| clock := x; force_stop := force_stop s; next_future := next_future s;
     current_api_key_index := current_api_key_index s; tally := tally s;
     failed_files := failed_files s; pass := pass s; rtally := rtally s;
     journal := journal s |}.

Definition set_force_stop (s : State) (x : bool) : State :=
  {| clock := clock s; force_stop := x; next_future := next_future s;
     current_api_key_index := current_api_key_index s; tally := tally s;
     failed_files := failed_files s; pass := pass s; rtally := rtally s;
     journal := journal s |}.

Definition set_tally (s : State) (x : Tally) : State :=
  {| clock := clock s; force_stop := force_stop s; next_future := next_future s;
     current_api_key_index := current_api_key_index s; tally := x;
     failed_files := failed_files s; pass := pass s; rtally := rtally s;
     journal := journal s |}.

Definition set_failed_files (s : State) (x : list (string * string * nat)) : State :=
  {| clock := clock s; force_stop := force_stop s; next_future := next_future s;
     current_api_key_index := current_api_key_index s; tally := tally s;
     failed_files := x; pass := pass s; rtally := rtally s;
     journal := journal s |}.

Definition set_pass (s : State) (x : Pass) : State :=
  {| clock := clock s; force_stop := force_stop s; next_future := next_future s;
     current_api_key_index := current_api_key_index s; tally := tally s;
     failed_files := failed_files s; pass := x; rtally := rtally s;
     journal := journal s |}.

Definition set_rtally (s : State) (x : RetryTally) : State :=
  {| clock := clock s; force_stop := force_stop s; next_future := next_future s;
     current_api_key_index := current_api_key_index s; tally := tally s;
     failed_files := failed_files s; pass := pass s; rtally := x;
     journal := journal s |}.

Definition record_event (s : State) (e : Event) : State :=
  {| clock := clock s; force_stop := force_stop s; next_future := next_future s;
     current_api_key_index := current_api_key_index s; tally := tally s;
     failed_files := failed_files s; pass := pass s; rtally := rtally s;
     journal := e :: journal s |}.

Definition set_queue (s : State) (q : list string) : State :=
  set_pass s {| queue := q; submitted := submitted (pass s);
                future_to_path := future_to_path (pass s);
                pending := pending (pass s);
                last_submit_set := last_submit_set (pass s) |}.

Definition set_pending (s : State) (l : list nat) : State :=
  set_pass s {| queue := queue (pass s); submitted := submitted (pass s);
                future_to_path := future_to_path (pass s);
                pending := l;
                last_submit_set := last_submit_set (pass s) |}.

(** [executor.submit(...)] and the four statements that follow it. *)
Definition register_future (s : State) (input_path : string) (key_index : nat)
    (keys : list string) (next_index : nat) : State :=
  let future := next_future s in
  {| clock := clock s; force_stop := force_stop s; next_future := S future;
     current_api_key_index := next_index; tally := tally s;
     failed_files := failed_files s;
     pass := {| queue := queue (pass s);
                submitted := {[input_path]} ∪ submitted (pass s);
                future_to_path := <[future := input_path]> (future_to_path (pass s));
                pending := future :: pending (pass s);
                last_submit_set := true |};
     rtally := rtally s;
     journal := EvSubmit future input_path key_index keys :: journal s |}.

Definition add_processed (t : Tally) (d : Z) : Tally :=
  {| processed_count := processed_count t + d; failed_count := failed_count t;
     skipped_count := skipped_count t; stopped_count := stopped_count t;
     completed_count := completed_count t |}.

Definition add_failed (t : Tally) (d : Z) : Tally :=
  {| processed_count := processed_count t; failed_count := failed_count t + d;
     skipped_count := skipped_count t; stopped_count := stopped_count t;
     completed_count := completed_count t |}.

Definition add_skipped (t : Tally) (d : Z) : Tally :=
  {| processed_count := processed_count t; failed_count := failed_count t;
     skipped_count := skipped_count t + d; stopped_count := stopped_count t;
     completed_count := completed_count t |}.

Definition add_stopped (t : Tally) (d : Z) : Tally :=
  {| processed_count := processed_count t; failed_count := failed_count t;
     skipped_count := skipped_count t; stopped_count := stopped_count t + d;
     completed_count := completed_count t |}.

Definition add_completed (t : Tally) (d : Z) : Tally :=
  {| processed_count := processed_count t; failed_count := failed_count t;
     skipped_count := skipped_count t; stopped_count := stopped_count t;
     completed_count := completed_count t + d |}.

Definition add_retry_processed (t : RetryTally) (d : Z) : RetryTally :=
  {| retry_processed := retry_processed t + d; retry_failed := retry_failed t;
     retry_stopped := retry_stopped t;
     current_retry_failed_files := current_retry_failed_files t |}.

Definition add_retry_failed (t : RetryTally) (d : Z) : RetryTally :=
  {| retry_processed := retry_processed t; retry_failed := retry_failed t + d;
     retry_stopped := retry_stopped t;
     current_retry_failed_files := current_retry_failed_files t |}.

Definition add_retry_stopped (t : RetryTally) (d : Z) : RetryTally :=
  {| retry_processed := retry_processed t; retry_failed := retry_failed t;
     retry_stopped := retry_stopped t + d;
     current_retry_failed_files := current_retry_failed_files t |}.

Definition append_retry_failed_file (t : RetryTally) (p : string) : RetryTally :=
  {| retry_processed := retry_processed t; retry_failed := retry_failed t;
     retry_stopped := retry_stopped t;
     current_retry_failed_files := current_retry_failed_files t ++ [p] |}.

(** [should_stop()]: the event or the provider's stop request, which this
    run raises itself with [set_force_stop]. *)
Definition should_stop (E : Env) (s : State) : bool * State :=
  (stop_signal E (clock s) || force_stop s, set_clock s (S (clock s))).

(** [os.path.exists(p)] as the coordinator sees it *)
Definition exists_now (E : Env) (s : State) (p : string) : bool * State :=
  (path_exists E (clock s) p, set_clock s (S (clock s))).

(** The cool-down of the inter-submission delay: [n] polls of 50 ms, left
    with [true] as soon as a stop is seen. *)
Fixpoint cooldown (E : Env) (n : nat) (s : State) : bool * State :=
  match n with
  | O => (false, s)
  | S n' =>
      let '(b, s1) := should_stop E s in
      if b then (true, s1) else cooldown E n' s1
  end.

(** ** Submitting and collecting *)

(** The [except] clause of [_submit_next_file]. *)
Definition first_pass_error (p : string) (s : State) : State :=
  record_event (set_tally s (add_completed (add_failed (tally s) 1) 1)) (EvSubmitError p).

(** The [except] clause of [_submit_retry_file]. *)
Definition retry_error (p : string) (s : State) : State :=
  record_event
    (set_rtally s (append_retry_failed_file (add_retry_failed (rtally s) 1) p))
    (EvSubmitError p).

(** The loop shared by [_submit_next_file] and [_submit_retry_file], which
    differ in the variables they name and in their [except] clause
    [on_error]. [q] is the queue from the current index on. The only
    exception modelled in the [try] is the [ZeroDivisionError] of
    [current_api_key_index % len(api_keys)]. *)
Fixpoint submit_loop (E : Env) (cfg : Config) (on_error : string -> State -> State)
    (q : list string) (s : State) : bool * State :=
  match q with
  | [] => (false, set_queue s [])
  | input_path :: rest =>
      let s := set_queue s rest in
      let '(ex, s) := exists_now E s input_path in
      if negb ex || bool_decide (input_path ∈ submitted (pass s))
      then submit_loop E cfg on_error rest (record_event s (EvSkip input_path))
      else
        let '(interrupted, s) :=
          if (0 <? delay_seconds cfg)%Z && last_submit_set (pass s)
          then cooldown E (cooldown_polls E (clock s)) s
          else (false, s) in
        if interrupted then (false, record_event s (EvAbandon input_path))
        else
          let '(b, s) := should_stop E s in
          if b then (false, record_event s (EvAbandon input_path))
          else
            match length (api_keys cfg) with
            | O => submit_loop E cfg on_error rest (on_error input_path s)
            | S _ =>
                let n := length (api_keys cfg) in
                let key_index := (current_api_key_index s mod n)%nat in
                let assigned_api_key := default "" (api_keys cfg !! key_index) in
                (true,
                 register_future s input_path key_index [assigned_api_key]
                   ((current_api_key_index s + 1) mod n)%nat)
            end
  end.

Definition _submit_next_file (E : Env) (cfg : Config) (s : State) : bool * State :=
  submit_loop E cfg first_pass_error (queue (pass s)) s.

Definition _submit_retry_file (E : Env) (cfg : Config) (s : State) : bool * State :=
  submit_loop E cfg retry_error (queue (pass s)) s.

Definition append_failed (s : State) (e : string * string * nat) : State :=
  set_failed_files s (failed_files s ++ [e]).

(** [_handle_result(future)] *)
Definition _handle_result (E : Env) (future : nat) (s : State) : State :=
  let input_path_result := default "" (future_to_path (pass s) !! future) in
  match outcome E future with
  | Returned status new_filename =>
      let s := set_tally s (add_completed (tally s) 1) in
      let input_path_r := input_path_result in
      if str_in status ["processed_exif"; "processed_no_exif"]
      then set_tally s (add_processed (tally s) 1)
      else if str_in status ["processed_exif_failed"; "processed_unknown_exif_status"]
      then set_tally s (add_processed (tally s) 1)
      else if String.eqb status "skipped_exists"
      then set_tally s (add_skipped (tally s) 1)
      else if String.eqb status "stopped"
      then set_tally s (add_stopped (tally s) 1)
      else append_failed (set_tally s (add_failed (tally s) 1)) (input_path_r, status, 1%nat)
  | ReturnedNothing =>
      set_tally s (add_failed (add_completed (tally s) 1) 1)
  | TimedOut =>
      append_failed (set_tally s (add_failed (add_completed (tally s) 1) 1))
        (input_path_result, "failed_timeout", 1%nat)
  | Cancelled =>
      set_tally s (add_stopped (tally s) 1)
  | Failed =>
      append_failed (set_tally s (add_failed (tally s) 1))
        (input_path_result, "failed_exception", 1%nat)
  end.

(** The registry update of a repeated failure: every entry of the path
    takes the new status and its own attempt plus one; [new_attempt] is
    the value left by the last such entry. *)
Fixpoint update_failed (input_path status : string)
    (l : list (string * string * nat)) (new_attempt : nat)
  : list (string * string * nat) * nat :=
  match l with
  | [] => ([], new_attempt)
  | (fp, st, att) :: l' =>
      if String.eqb fp input_path then
        let new_attempt := (att + 1)%nat in
        let '(u, n) := update_failed input_path status l' new_attempt in
        ((fp, status, new_attempt) :: u, n)
      else
        let '(u, n) := update_failed input_path status l' new_attempt in
        ((fp, st, att) :: u, n)
  end.

(** The body of the retry round's [for done_future in done_set], from the
    [try] to the last [except]. *)
Definition retry_handle (E : Env) (future : nat) (s : State) : State :=
  let input_path := default "" (future_to_path (pass s) !! future) in
  match outcome E future with
  | ReturnedNothing =>
      set_rtally s (append_retry_failed_file (add_retry_failed (rtally s) 1) input_path)
  | Returned status new_filename =>
      if str_in status processed_statuses then
        let s := set_rtally s (add_retry_processed (rtally s) 1) in
        let s := set_tally s (add_failed (add_processed (tally s) 1) (-1)) in
        set_failed_files s
          (filter (fun e => e.1.1 ≠ input_path) (failed_files s))
      else if String.eqb status "stopped" then
        set_rtally s (add_retry_stopped (rtally s) 1)
      else
        let s := set_rtally s (add_retry_failed (rtally s) 1) in
        let '(updated_failed_files, new_attempt) :=
          update_failed input_path status (failed_files s) 1 in
        let s := set_failed_files s updated_failed_files in
        if is_retryable status new_attempt
        then set_rtally s (append_retry_failed_file (rtally s) input_path)
        else s
  | TimedOut =>
      set_rtally s (append_retry_failed_file (add_retry_failed (rtally s) 1) input_path)
  | Cancelled =>
      set_rtally s (add_retry_stopped (rtally s) 1)
  | Failed =>
      set_rtally s (append_retry_failed_file (add_retry_failed (rtally s) 1) input_path)
  end.

(** ** The sliding window *)

(** [pending.discard(f)] *)
Definition discard (f : nat) (l : list nat) : list nat := filter (fun g => g ≠ f) l.

(** The pre-fill loop:
    [while len(pending) < effective_num_workers and not should_stop()]. *)
Fixpoint prefill (E : Env) (cfg : Config) (on_error : string -> State -> State)
    (fuel : nat) (s : State) : option State :=
  match fuel with
  | O => None
  | S fuel' =>
      if (length (pending (pass s)) <? num_workers cfg)%nat then
        let '(b, s1) := should_stop E s in
        if b then Some s1
        else
          let '(ok, s2) := submit_loop E cfg on_error (queue (pass s1)) s1 in
          if ok then prefill E cfg on_error fuel' s2 else Some s2
      else Some s
  end.

(** [for done_future in done_set]: collect, handle, submit the next. *)
Fixpoint drain (E : Env) (cfg : Config) (handle : nat -> State -> State)
    (on_error : string -> State -> State) (done_set : list nat) (s : State) : State :=
  match done_set with
  | [] => s
  | done_future :: rest =>
      let p := default "" (future_to_path (pass s) !! done_future) in
      let s := set_pending s (discard done_future (pending (pass s))) in
      let s := record_event s (EvCollect done_future p (outcome E done_future)) in
      let s := handle done_future s in
      let '(b, s) := should_stop E s in
      let s := if b then s else (submit_loop E cfg on_error (queue (pass s)) s).2 in
      drain E cfg handle on_error rest s
  end.

(** [concurrent.futures.wait(pending, timeout=0.5, FIRST_COMPLETED)]: the
    pending futures that are done, possibly none. *)
Definition wait_done (E : Env) (s : State) : list nat * State :=
  (filter (fun f => finished E (clock s) f = true) (pending (pass s)),
   set_clock s (S (clock s))).

(** [while pending and not should_stop()] *)
Fixpoint sliding_window (E : Env) (cfg : Config) (handle : nat -> State -> State)
    (on_error : string -> State -> State) (fuel : nat) (s : State) : option State :=
  match fuel with
  | O => None
  | S fuel' =>
      match pending (pass s) with
      | [] => Some s
      | _ :: _ =>
          let '(b, s1) := should_stop E s in
          if b then Some s1
          else
            let '(done_set, s2) := wait_done E s1 in
            let '(b2, s3) := should_stop E s2 in
            if b2 then Some s3
            else sliding_window E cfg handle on_error fuel'
                   (drain E cfg handle on_error done_set s3)
      end
  end.

(** [for f in list(pending): if not f.done(): f.cancel()] *)
Definition cancel_remaining (E : Env) (s : State) : list nat * State :=
  let not_done := filter (fun f => finished E (clock s) f = false) (pending (pass s)) in
  let s := set_clock s (S (clock s)) in
  (not_done, foldl (fun s f => record_event s (EvCancel f)) s not_done).

(** [if should_stop(): ...] at the end of the first [with] block: the
    pending futures that are not done are cancelled and counted as
    stopped. *)
Definition cancel_stage (E : Env) (s : State) : State :=
  let '(b, s3) := should_stop E s in
  if b then
    let s := set_force_stop s3 true in
    let '(cancelled, s) := cancel_remaining E s in
    let remaining_submitted := Z.of_nat (length cancelled) in
    if (0 <? remaining_submitted)%Z
    then set_tally s (add_completed (add_stopped (tally s) remaining_submitted)
                        remaining_submitted)
    else s
  else s3.

(** The first [with ThreadPoolExecutor(...)] block. *)
Definition first_pass (E : Env) (cfg : Config) (fuel : nat) (s : State) : option State :=
  s1 ← prefill E cfg first_pass_error (S (num_workers cfg)) s;
  s2 ← sliding_window E cfg (_handle_result E) first_pass_error fuel s1;
  Some (record_event (cancel_stage E s2) EvShutdown).

(** ** The retry coordinator *)

(** The partition of the failed registry before the first round. *)
Fixpoint retryable_failed (E : Env) (l : list (string * string * nat)) (s : State)
  : list (string * string * nat) * State :=
  match l with
  | [] => ([], s)
  | (file_path, status, attempt) :: l' =>
      if String.eqb file_path "" then retryable_failed E l' s
      else
        let '(ex, s1) := exists_now E s file_path in
        if ex && is_retryable status attempt then
          let '(r, s2) := retryable_failed E l' s1 in
          ((file_path, status, attempt) :: r, s2)
        else retryable_failed E l' s1
  end.

(** The inner search of the candidate computation: the status and attempt
    of the first registry entry of [file_path]. *)
Fixpoint find_failed (file_path : string) (l : list (string * string * nat))
  : string * nat :=
  match l with
  | [] => ("failed_unknown", 1%nat)
  | (fp, st, att) :: l' =>
      if String.eqb fp file_path then (st, att) else find_failed file_path l'
  end.

(** The candidates of the next round, computed when a round ends. *)
Fixpoint next_retry_files (E : Env) (registry : list (string * string * nat))
    (current : list string) (s : State) : list string * State :=
  match current with
  | [] => ([], s)
  | file_path :: rest =>
      if String.eqb file_path "" then next_retry_files E registry rest s
      else
        let '(ex, s1) := exists_now E s file_path in
        if ex then
          let '(current_status, current_attempt) := find_failed file_path registry in
          if is_retryable current_status current_attempt then
            let '(r, s2) := next_retry_files E registry rest s1 in
            (file_path :: r, s2)
          else next_retry_files E registry rest s1
        else next_retry_files E registry rest s1
  end.

Definition fresh_pass (q : list string) : Pass :=
  {| queue := q; submitted := ∅; future_to_path := ∅; pending := [];
     last_submit_set := false |}.

Definition fresh_rtally : RetryTally :=
  {| retry_processed := 0; retry_failed := 0; retry_stopped := 0;
     current_retry_failed_files := [] |}.

(** One iteration of [while retry_files and not should_stop()], from the
    reset of the round's variables to the new [retry_files]. *)
Definition retry_round (E : Env) (cfg : Config) (fuel : nat)
    (retry_files : list string) (s : State) : option (list string * State) :=
  let s0 := set_rtally (set_pass s (fresh_pass retry_files)) fresh_rtally in
  s1 ← prefill E cfg retry_error (S (num_workers cfg)) s0;
  s2 ← sliding_window E cfg (retry_handle E) retry_error fuel s1;
  let '(b, s3) := should_stop E s2 in
  let s4 := if b then (cancel_remaining E s3).2 else s3 in
  let s5 := record_event s4 EvShutdown in
  Some (next_retry_files E (failed_files s5)
          (current_retry_failed_files (rtally s5)) s5).

Fixpoint retry_loop (E : Env) (cfg : Config) (fuel : nat)
    (retry_files : list string) (retry_attempt : nat) (s : State)
  : option (list string * nat * State) :=
  match fuel with
  | O => None
  | S fuel' =>
      match retry_files with
      | [] => Some (retry_files, retry_attempt, s)
      | _ :: _ =>
          let '(b, s1) := should_stop E s in
          if b then Some (retry_files, retry_attempt, s1)
          else
            '(retry_files', s2) ← retry_round E cfg fuel' retry_files s1;
            let retry_attempt := S retry_attempt in
            if (retry_processed (rtally s2) =? 0)%Z && (length retry_files' =? 0)%nat
            then Some (retry_files', retry_attempt, s2)
            else retry_loop E cfg fuel' retry_files' retry_attempt s2
      end
  end.

(** The [if auto_retry_enabled and failed_count > 0 and not should_stop()]
    statement. *)
Definition auto_retry (E : Env) (cfg : Config) (fuel : nat) (s : State) : option State :=
  if auto_retry_enabled cfg && (0 <? failed_count (tally s))%Z then
    let '(b, s1) := should_stop E s in
    if b then Some s1
    else
      let '(retryable_failed_files, s2) := retryable_failed E (failed_files s1) s1 in
      let retry_files := map (fun e => e.1.1) retryable_failed_files in
      '(retry_files', _, s3) ← retry_loop E cfg fuel retry_files 1 s2;
      match retry_files' with
      | [] => Some s3
      | _ :: _ => Some (should_stop E s3).2
      end
  else Some s.

(** ** [batch_process_files] *)

(** The dictionary the engine returns. *)
Record Summary := {
  r_status : option string;
  r_processed_count : Z;
  r_failed_count : Z;
  r_skipped_count : Z;
  r_stopped_count : Z;
  r_total_files : option Z;
  r_error : bool
}.

Definition zero_summary (st : option string) (total : option Z) : Summary :=
  {| r_status := st; r_processed_count := 0; r_failed_count := 0;
     r_skipped_count := 0; r_stopped_count := 0; r_total_files := total;
     r_error := false |}.

Definition isfile_now (E : Env) (s : State) (p : string) : bool * State :=
  (path_isfile E (clock s) p, set_clock s (S (clock s))).

(** [for filename in dir_list]; [None] when a stop is seen. *)
Fixpoint enumerate (E : Env) (cfg : Config) (dir_list : list string)
    (files_to_process : list string) (s : State) : option (list string) * State :=
  match dir_list with
  | [] => (Some files_to_process, s)
  | filename :: rest =>
      let '(b, s1) := should_stop E s in
      if b then (None, s1)
      else if endswith_any (lower filename) (ALL_SUPPORTED_EXTENSIONS cfg)
              && negb (startswith filename ".") then
        let full_path := path_join (input_dir cfg) filename in
        let '(isf, s2) := isfile_now E s1 full_path in
        if isf then enumerate E cfg rest (files_to_process ++ [full_path]) s2
        else enumerate E cfg rest files_to_process s2
      else enumerate E cfg rest files_to_process s1
  end.

(** [[f for f in files_to_process if os.path.exists(f)]] *)
Fixpoint keep_existing (E : Env) (l : list string) (s : State) : list string * State :=
  match l with
  | [] => ([], s)
  | f :: l' =>
      let '(ex, s1) := exists_now E s f in
      let '(r, s2) := keep_existing E l' s1 in
      (if ex then f :: r else r, s2)
  end.

Definition initial_state : State :=
  {| clock := 0; force_stop := false; next_future := 0; current_api_key_index := 0;
     tally := {| processed_count := 0; failed_count := 0; skipped_count := 0;
                 stopped_count := 0; completed_count := 0 |};
     failed_files := []; pass := fresh_pass []; rtally := fresh_rtally;
     journal := [] |}.

(** The run from the moment the files are known: the first pass, the retry
    rounds and the summary. A worker count of zero is the [ValueError] of
    [ThreadPoolExecutor], caught by the outermost handler. *)
Definition run_files (E : Env) (cfg : Config) (fuel : nat)
    (files_to_process : list string) (s : State) : option (Summary * State) :=
  let total_files := Z.of_nat (length files_to_process) in
  let s := set_pass s (fresh_pass files_to_process) in
  match num_workers cfg with
  | O =>
      Some ({| r_status := None; r_processed_count := 0; r_failed_count := 0;
               r_skipped_count := 0; r_stopped_count := 0; r_total_files := None;
               r_error := true |}, s)
  | S _ =>
      s1 ← first_pass E cfg fuel s;
      s2 ← auto_retry E cfg fuel s1;
      Some ({| r_status := None;
               r_processed_count := processed_count (tally s2);
               r_failed_count := failed_count (tally s2);
               r_skipped_count := skipped_count (tally s2);
               r_stopped_count := stopped_count (tally s2);
               r_total_files := Some total_files;
               r_error := false |}, s2)
  end.

Definition batch_process_files (E : Env) (cfg : Config) (fuel : nat)
  : option (Summary * State) :=
  let s := initial_state in
  let '(b, s) := should_stop E s in
  if b then Some (zero_summary None (Some 0%Z), s)
  else
    match listdir E with
    | None => Some (zero_summary None None, s)
    | Some dir_list =>
        match enumerate E cfg dir_list [] s with
        | (None, s) => Some (zero_summary None (Some 0%Z), s)
        | (Some files_to_process, s) =>
            let '(files_to_process, s) := keep_existing E files_to_process s in
            let total_files := Z.of_nat (length files_to_process) in
            if (total_files =? 0)%Z
            then Some (zero_summary (Some "no_files") (Some 0%Z), s)
            else
              let '(b, s) := should_stop E s in
              if b then
                Some ({| r_status := None; r_processed_count := 0; r_failed_count := 0;
                         r_skipped_count := 0; r_stopped_count := total_files;
                         r_total_files := None; r_error := false |}, s)
              else run_files E cfg fuel files_to_process s
        end
    end.

(** ** Reading the journal *)

(** The futures submitted and not yet collected after the events [h]
    (newest first); leaving the [with] block waits for every job. *)
Fixpoint in_flight (h : list Event) : list nat :=
  match h with
  | [] => []
  | EvSubmit f _ _ _ :: h' => f :: in_flight h'
  | EvCollect f _ _ :: h' => discard f (in_flight h')
  | EvShutdown :: h' => []
  | _ :: h' => in_flight h'
  end.

(** The submissions in the order they were made: credential index and the
    [api_keys_list] argument of the job. *)
Fixpoint submissions (h : list Event) : list (nat * list string) :=
  match h with
  | [] => []
  | EvSubmit _ _ k keys :: h' => submissions h' ++ [(k, keys)]
  | _ :: h' => submissions h'
  end.

(** The enumerated paths that were dequeued and passed over. *)
Fixpoint skipped_at_submission (h : list Event) : nat :=
  match h with
  | [] => O
  | EvSkip _ :: h' => S (skipped_at_submission h')
  | _ :: h' => skipped_at_submission h'
  end.

(** ** Vocabulary of the statements *)

(** The signal is not set at any check of the job. *)
Definition quiet (sg : Signals) : Prop := forall cp, _should_stop sg cp = false.

(** The test [ext_lower in ('.eps', '.ai', '.svg')] of [process_single_file]. *)
Definition is_vector_path (p : string) : bool :=
  str_in (lower (snd (splitext p))) [".eps"; ".ai"; ".svg"].

(** The base name the rename loop tries after [k] increments. *)
Definition rename_candidate (sanitized_title file_ext : string) (k : nat) : string :=
  match k with
  | O => sanitized_title +:+ file_ext
  | S _ => sanitized_title +:+ " (" +:+ str_of_nat k +:+ ")" +:+ file_ext
  end.

(** ** A concrete set of collaborators, for the examples *)

Definition demo_meta : Metadata :=
  {| title := " Sunset "; description := "D"; tags := ["a"; "b"];
     keyword_count_of := None |}.

Definition demo_collab : Collab := {|
  SUPPORTED_VIDEO_EXTENSIONS := [".mp4"; ".mkv"];
  sanitize_filename := fun t => t;
  select_api_key := fun _ keys => head keys;
  get_metadata := fun _ _ _ _ => Ok (MetaDict demo_meta);
  convert_eps_to_jpg := fun _ out _ f => (Ok (true, ""), <[out := FileNode "raster"]> f);
  convert_svg_to_jpg := fun _ out f => (Ok (true, ""), <[out := FileNode "raster"]> f);
  compress_image := fun p _ f => (Ok (Some p, false), f);
  write_exif_with_exiftool := fun _ _ _ f => (Ok (true, "exif_ok"), f);
  write_to_platform_csvs := fun _ f => (Ok tt, f);
  process_video := fun _ _ _ _ w => (Ok ("failed_frames", None, None), w);
  process_jpg_jpeg := fun _ _ _ _ w => (Ok ("failed_api", None, None), w);
  process_png := fun _ _ _ _ w => (Ok ("failed_api", None, None), w)
|}.

Definition never_stopped : Signals :=
  {| check_stop_event := fun _ => false; is_stop_requested := fun _ => false |}.

Definition always_stopped : Signals :=
  {| check_stop_event := fun _ => true; is_stop_requested := fun _ => false |}.

Definition stopped_at_final : Signals :=
  {| check_stop_event := fun cp => match cp with CP_final => true | _ => false end;
     is_stop_requested := fun _ => false |}.

Definition demo_settings : Settings :=
  {| ghostscript_path := "gs"; rename_enabled := true; auto_kategori_enabled := true;
     auto_foldering_enabled := false; provider_name := "gemini";
     selected_model := None; embedding_enabled := true; keyword_count := "49";
     priority_setting := "Details" |}.

(** A six-byte vector file, an output directory that already holds
    [Sunset.svg]. *)
Definition demo_world : World :=
  {| fs := list_to_map [("in/tiny.svg", FileNode "<svg/>"); ("out", DirNode);
                        ("out/Sunset.svg", FileNode "old")];
     ai_calls := []; csv_rows := [] |}.

(** The same input with its output already in place. *)
Definition done_world : World :=
  {| fs := list_to_map [("in/tiny.svg", FileNode "<svg/>"); ("out", DirNode);
                        ("out/tiny.svg", FileNode "earlier run")];
     ai_calls := []; csv_rows := [] |}.

(** The locals and the world with which the body of the example job ends:
    the file was converted, described, copied, renamed, removed from the
    input directory and exported. *)
Definition demo_final_locals : Locals :=
  {| l_status := "processed_exif";
     l_final_output_path := Some "out/Sunset (1).svg";
     l_processed_metadata :=
       Some {| title := " Sunset "; description := "D"; tags := ["a"; "b"];
               keyword_count_of := Some "49" |};
     l_new_filename := Some "Sunset (1).svg" |}.

Definition demo_final_world : World :=
  (process_single_file_body demo_collab stopped_at_final demo_settings
     "in/tiny.svg" "out" ["k0"] demo_world).2.


Definition crowded_world : World :=
  {| fs := list_to_map
             (("out", DirNode) :: ("out/IMG_1.jpg", FileNode "new photo")
              :: map (fun k => (path_join "out" (rename_candidate "Sunset" ".jpg" k),
                                FileNode "old photo")) (seq 0 50));
     ai_calls := []; csv_rows := [] |}.

(** ** Invariants of the coordinator *)

(** The pending set holds distinct futures made by this run, each with its
    path on file, and never more than [W] of them. *)
Definition PendInv (W : nat) (s : State) : Prop :=
  NoDup (pending (pass s)) /\
  (forall f, f ∈ pending (pass s) -> (f < next_future s)%nat) /\
  (forall f, f ∈ pending (pass s) -> is_Some (future_to_path (pass s) !! f)) /\
  (length (pending (pass s)) <= W)%nat.

(** After every event so far, at most [W] jobs were in flight. *)
Definition Bounded (W : nat) (h : list Event) : Prop :=
  forall h', h' `suffix_of` h -> (length (in_flight h') <= W)%nat.

(** The journal agrees with the pending set. *)
Definition FlightInv (W : nat) (s : State) : Prop :=
  in_flight (journal s) = pending (pass s) /\ Bounded W (journal s).

(** The credential rotation: the [k]-th submission carries credential
    [k mod n], and the index points at the next one. *)
Definition KeyInv (keys : list string) (s : State) : Prop :=
  let n := length keys in
  (forall k ki ks, submissions (journal s) !! k = Some (ki, ks) ->
     ki = (k mod n)%nat /\ exists key, keys !! ki = Some key /\ ks = [key]) /\
  ((0 < n)%nat ->
   current_api_key_index s = (length (submissions (journal s)) mod n)%nat).

(** The sum of the four counters of the summary. *)
Definition counted (t : Tally) : Z :=
  processed_count t + failed_count t + skipped_count t + stopped_count t.


(** Closure of a state property under the steps of one pass over a queue
    with result handler [handle] and submission-error handler [on_error]. *)
Record Closed (E : Env) (cfg : Config) (handle : nat -> State -> State)
    (on_error : string -> State -> State) (P : State -> Prop) : Prop := {
  cl_clock : forall s c, P s -> P (set_clock s c);
  cl_skip : forall s p rest t,
    P s -> queue (pass s) = p :: rest ->
    path_exists E t p = false \/ p ∈ submitted (pass s) ->
    P (record_event (set_queue s rest) (EvSkip p));
  cl_abandon : forall s p rest t,
    P s -> queue (pass s) = p :: rest ->
    stop_signal E t || force_stop s = true ->
    P (record_event (set_queue s rest) (EvAbandon p));
  cl_error : forall s p rest,
    P s -> queue (pass s) = p :: rest -> api_keys cfg = [] ->
    P (on_error p (set_queue s rest));
  cl_submit : forall s p rest,
    P s -> PendInv (num_workers cfg) s -> queue (pass s) = p :: rest ->
    p ∉ submitted (pass s) ->
    (length (pending (pass s)) < num_workers cfg)%nat ->
    api_keys cfg <> [] ->
    let n := length (api_keys cfg) in
    let key_index := (current_api_key_index s mod n)%nat in
    P (register_future (set_queue s rest) p key_index
         [default "" (api_keys cfg !! key_index)]
         ((current_api_key_index s + 1) mod n)%nat);
  cl_exhaust : forall s, P s -> queue (pass s) = [] -> P (set_queue s []);
  cl_collect : forall s f,
    P s -> PendInv (num_workers cfg) s -> f ∈ pending (pass s) ->
    P (handle f
         (record_event (set_pending s (discard f (pending (pass s))))
            (EvCollect f (default "" (future_to_path (pass s) !! f)) (outcome E f))))
}.

(** What the generic lemmas ask of a result handler and of a
    submission-error handler: they leave the pass, the executor and the
    rotation alone, and the error handler journals its event. *)
Definition Frame (handle : nat -> State -> State)
    (on_error : string -> State -> State) : Prop :=
  (forall f s, pass (handle f s) = pass s /\ next_future (handle f s) = next_future s /\
               journal (handle f s) = journal s /\
               current_api_key_index (handle f s) = current_api_key_index s /\
               force_stop (handle f s) = force_stop s) /\
  (forall p s, pass (on_error p s) = pass s /\ next_future (on_error p s) = next_future s /\
               journal (on_error p s) = EvSubmitError p :: journal s /\
               current_api_key_index (on_error p s) = current_api_key_index s /\
               force_stop (on_error p s) = force_stop s).

(** Between two passes no job is in flight. *)
Definition IdleInv (W : nat) (keys : list string) (s : State) : Prop :=
  Bounded W (journal s) /\ KeyInv keys s /\ in_flight (journal s) = [].

(** Within a pass. *)
Definition BusyInv (W : nat) (keys : list string) (s : State) : Prop :=
  FlightInv W s /\ KeyInv keys s.

(** ** Vocabulary of the accounting statements *)

(** The cancellation signal is never seen set. *)
Definition never_cancelled (E : Env) : Prop := forall t, stop_signal E t = false.

Fixpoint has_shutdown (h : list Event) : bool :=
  match h with
  | [] => false
  | EvShutdown :: _ => true
  | _ :: h' => has_shutdown h'
  end.

(** The events of the first pass: those older than the oldest
    [EvShutdown] of the journal (all of them while the pass is running). *)
Fixpoint first_pass_part (h : list Event) : list Event :=
  match h with
  | [] => []
  | e :: h' =>
      if has_shutdown h' then first_pass_part h'
      else match e with
           | EvShutdown => h'
           | _ => e :: h'
           end
  end.

(** The enumerated paths that the first pass dequeued and passed over
    because they were no longer on disk. *)
Definition passed_over_in_first_pass (h : list Event) : nat :=
  skipped_at_submission (first_pass_part h).


(** What the retry rounds keep of the accounting. *)
Definition SumInv (c : Z) (k : nat) (s : State) : Prop :=
  counted (tally s) = c /\ has_shutdown (journal s) = true /\
  passed_over_in_first_pass (journal s) = k.

(** A queue that is not empty keeps a job in flight. *)
Definition Saturated (s : State) : Prop :=
  queue (pass s) = [] \/ pending (pass s) <> [].

(** ** Concrete runs, for the examples *)

(** A directory of three supported files; the signal is set from clock
    [K] on; [gone t p] tells that [p] has left the disk at clock [t]. *)
Definition demo_env (K : nat) (gone : nat -> string -> bool)
    (oc : nat -> Outcome) (fin : nat -> nat -> bool) : Env :=
  {| stop_signal := fun t => (K <=? t)%nat;
     path_exists := fun t p => negb (gone t p);
     path_isfile := fun _ _ => true;
     listdir := Some ["a.jpg"; "b.jpg"; "c.png"; "notes.txt"; ".hidden.jpg"];
     cooldown_polls := fun _ => 0%nat;
     finished := fin;
     outcome := oc |}.

Definition demo_outcome (f : nat) : Outcome :=
  match f with
  | 0 => Returned "processed_exif" None
  | 1 => Returned "failed_api" None
  | 2 => Returned "skipped_exists" None
  | 3 => TimedOut
  | _ => Returned "failed_api" None
  end.

Definition demo_config (W : nat) (retry : bool) : Config :=
  {| input_dir := "in"; output_dir_of := "out"; api_keys := ["k0"; "k1"];
     delay_seconds := 0; num_workers := W; auto_retry_enabled := retry;
     ALL_SUPPORTED_EXTENSIONS :=
       [".jpg"; ".jpeg"; ".png"; ".eps"; ".ai"; ".svg"; ".mp4"] |}.

Definition nothing_gone (t : nat) (p : string) : bool := false.
Definition all_finished (t f : nat) : bool := true.
Definition none_finished (t f : nat) : bool := false.

(** The summary and the final state of a run that ended. *)
Definition summary_of (r : option (Summary * State)) : Summary :=
  match r with
  | Some (sm, _) => sm
  | None => zero_summary None None
  end.

Definition state_of (r : option (Summary * State)) : State :=
  match r with
  | Some (_, s) => s
  | None => initial_state
  end.

(** An undisturbed run with two workers and retries. *)
Definition calm_env : Env := demo_env 1000 nothing_gone demo_outcome all_finished.
Definition calm_run : option (Summary * State) :=
  batch_process_files calm_env (demo_config 2 true) 20.

(** The same directory, never cancelled. *)
Definition quiet_env (gone : nat -> string -> bool)
    (oc : nat -> Outcome) (fin : nat -> nat -> bool) : Env :=
  {| stop_signal := fun _ => false;
     path_exists := fun t p => negb (gone t p);
     path_isfile := fun _ _ => true;
     listdir := Some ["a.jpg"; "b.jpg"; "c.png"; "notes.txt"; ".hidden.jpg"];
     cooldown_polls := fun _ => 0%nat;
     finished := fin;
     outcome := oc |}.



(** The signal is set while the pool is being filled: one job is in
    flight, two paths are still queued. *)
Definition cancelled_run : option (Summary * State) :=
  batch_process_files (demo_env 16 nothing_gone demo_outcome none_finished)
    (demo_config 2 false) 20.

(** The signal is set one query earlier, and one query before that. *)
Definition cancelled_at_prefill : option (Summary * State) :=
  batch_process_files (demo_env 13 nothing_gone demo_outcome none_finished)
    (demo_config 2 false) 20.

Definition cancelled_before_start : option (Summary * State) :=
  batch_process_files (demo_env 12 nothing_gone demo_outcome none_finished)
    (demo_config 2 false) 20.

(** The first pass ends undisturbed; the signal is set while the retry of
    [in/b.jpg] is in flight. *)
Definition retry_cancelled_run : option (Summary * State) :=
  batch_process_files
    (demo_env 37 nothing_gone demo_outcome (fun _ f => (f <? 3)%nat))
    (demo_config 2 true) 20.

(** What a retry round may do to the counters of the summary: nothing to
    [stopped_count] and [skipped_count], and only moves between
    [failed_count] and [processed_count]. *)
Definition RetryFrame (a b c : Z) (s : State) : Prop :=
  stopped_count (tally s) = a /\ skipped_count (tally s) = b /\
  (processed_count (tally s) + failed_count (tally s) = c)%Z.


(** A retry whose job never finishes, cancelled while it is in flight; the
    state a first pass over the three files leaves behind; and a state
    with three pending futures of which two are not done. *)
Definition stalled_retry_env : Env :=
  demo_env 24 nothing_gone demo_outcome (fun _ f => (f <? 3)%nat).

Definition after_first_pass : State :=
  default initial_state
    (first_pass (demo_env 100 nothing_gone demo_outcome (fun _ f => (f <? 3)%nat))
       (demo_config 2 true) 20
       (set_pass initial_state (fresh_pass ["in/a.jpg"; "in/b.jpg"; "in/c.png"]))).

Definition after_cancelled_retry : State :=
  default initial_state
    (auto_retry stalled_retry_env (demo_config 2 true) 20 after_first_pass).

Definition three_in_flight : State :=
  set_pending (set_clock initial_state 50) [5; 4; 1]%nat.

(** Whatever a round records as failed again, or keeps on file for a
    future, is one of its candidates. *)
Definition RoundInv (files : list string) (s : State) : Prop :=
  (forall p, p ∈ current_retry_failed_files (rtally s) -> p ∈ files) /\
  (forall f p, future_to_path (pass s) !! f = Some p -> p ∈ files) /\
  (forall p, p ∈ queue (pass s) -> p ∈ files).


(** ** Concrete retry rounds *)


Definition round_state (r : option (list string * State)) : State :=
  match r with
  | Some (_, s) => s
  | None => initial_state
  end.

(** The retry of [in/b.jpg] is future 3, whose result cannot be
    retrieved in time. *)
Definition timeout_round : option (list string * State) :=
  retry_round (demo_env 1000 nothing_gone demo_outcome all_finished)
    (demo_config 2 true) 20 ["in/b.jpg"] after_first_pass.



(** Every future is done by the time the coordinator waits for it. *)
Definition prompt (E : Env) : Prop := forall t f, finished E t f = true.


(** ** Retries whose result cannot be retrieved *)

(** No result of the pool can be retrieved: [future.result] times out,
    raises, or returns a falsy value. *)
Definition unretrievable (E : Env) : Prop :=
  forall f, outcome E f = TimedOut \/ outcome E f = Failed \/ outcome E f = ReturnedNothing.

(** Within a retry round over a queue that holds [p]: the registry is
    [reg], and [p] is still queued, in flight, or already recorded as
    failed again. *)
Definition StuckInv (p : string) (reg : list (string * string * nat)) (s : State) : Prop :=
  failed_files s = reg /\
  force_stop s = false /\
  (p ∈ submitted (pass s) \/ p ∈ queue (pass s)) /\
  (p ∈ submitted (pass s) ->
   (exists f, f ∈ pending (pass s) /\ future_to_path (pass s) !! f = Some p) \/
   p ∈ current_retry_failed_files (rtally s)).

(** The three files of the directory, every result timing out, no
    cancellation; and the state its first pass leaves behind. *)
Definition lost_env : Env :=
  quiet_env nothing_gone (fun _ => TimedOut) all_finished.

Definition after_lost_pass : State :=
  default initial_state
    (first_pass lost_env (demo_config 2 true) 20
       (set_pass initial_state (fresh_pass ["in/a.jpg"; "in/b.jpg"; "in/c.png"]))).


(** ** Vocabulary of the run-level statements *)

(** Every job is done by clock [D]. *)
Definition done_by (E : Env) (D : nat) : Prop :=
  forall t f, (D <= t)%nat -> finished E t f = true.

(** [future.result] hands back a job record or raises [CancelledError]:
    no time-out, no other exception, no falsy value. *)
Definition results_arrive (E : Env) : Prop :=
  forall f, match outcome E f with
            | Returned _ _ | Cancelled => True
            | _ => False
            end.

(** Within retry round number [k] over [files]: every registry entry of a
    candidate has seen at least [k] attempts, every entry of a path
    recorded as failed again at least [k + 1], and the round handles no
    more jobs than it has candidates. *)
Definition AdvInv (k : nat) (files : list string) (s : State) : Prop :=
  (forall p st att, p ∈ files -> (p, st, att) ∈ failed_files s -> (k <= att)%nat) /\
  (forall p st att, p ∈ current_retry_failed_files (rtally s) ->
     (p, st, att) ∈ failed_files s -> (S k <= att)%nat) /\
  RoundInv files s /\
  (length (current_retry_failed_files (rtally s)) + length (pending (pass s))
   + length (queue (pass s)) <= length files)%nat.

(** Between rounds: the candidates have an entry with attempts left and
    all their entries have seen at least [k] attempts. *)
Definition Cand (k : nat) (files : list string) (reg : list (string * string * nat)) : Prop :=
  forall p, p ∈ files ->
    (exists st att, (p, st, att) ∈ reg /\ (att < 5)%nat) /\
    (forall st att, (p, st, att) ∈ reg -> (k <= att)%nat).

(** The registry of a first pass: every entry is at attempt 1, and there
    are no more entries, jobs in flight and queued paths than files. *)
Definition FirstReg (n : nat) (s : State) : Prop :=
  (forall e, e ∈ failed_files s -> e.2 = 1%nat) /\
  (length (failed_files s) + length (pending (pass s)) + length (queue (pass s)) <= n)%nat.

(** Without credentials no job is ever submitted, so nothing is
    registered for a retry. *)
Definition NoReg (s : State) : Prop :=
  failed_files s = [] /\ pending (pass s) = [].



(** A directory entry the engine accepts: a supported extension, whatever
    its case, and no leading dot. *)
Definition accepted (cfg : Config) (filename : string) : bool :=
  endswith_any (lower filename) (ALL_SUPPORTED_EXTENSIONS cfg)
  && negb (startswith filename ".").

(** Path [p] is still queued or has been handed to the pool, and then the
    journal shows its submission. *)
Definition GetsJob (p : string) (s : State) : Prop :=
  force_stop s = false /\
  (p ∈ submitted (pass s) \/ p ∈ queue (pass s)) /\
  (p ∈ submitted (pass s) -> exists f k ks, EvSubmit f p k ks ∈ journal s).

(** The journal shows a submission of [p]. *)
Definition Submitted (p : string) (s : State) : Prop :=
  exists f k ks, EvSubmit f p k ks ∈ journal s.

(** No result can be retrieved: [future.result] times out or raises. *)
Definition results_lost (E : Env) : Prop :=
  forall f, outcome E f = TimedOut \/ outcome E f = Failed.

(** The first pass over lost results: every registry entry is a time-out
    or an exception at attempt 1, each one counted as failed, and [p] is
    queued, in flight or registered. *)
Definition LostInv (p : string) (s : State) : Prop :=
  force_stop s = false /\
  (forall e, e ∈ failed_files s ->
     (e.1.2 = "failed_timeout" \/ e.1.2 = "failed_exception") /\ e.2 = 1%nat) /\
  (Z.of_nat (length (failed_files s)) <= failed_count (tally s))%Z /\
  (p ∈ submitted (pass s) \/ p ∈ queue (pass s)) /\
  (p ∈ submitted (pass s) ->
   (exists f, f ∈ pending (pass s) /\ future_to_path (pass s) !! f = Some p) \/
   exists st, (p, st, 1%nat) ∈ failed_files s).

(** ** [get_recommended_workers] *)

(** [os.cpu_count()] is [None] or a positive integer, and
    [int(cpu_count * 1.5)] is [3 * cpu_count / 2] rounded down. *)
Definition get_recommended_workers (os_cpu_count : option nat) : nat :=
  let cpu_count :=
    match os_cpu_count with
    | Some (S n) => S n
    | _ => 4%nat
    end in
  let recommended := Nat.min (cpu_count * 3 / 2) 100 in
  Nat.max recommended 4.

(** ** Concrete runs with slow jobs *)

(** Every result is a job record; the jobs are done by clock 30. *)
Definition served_outcome (f : nat) : Outcome :=
  match f with
  | 0 => Returned "processed_exif" None
  | 2 => Returned "skipped_exists" None
  | _ => Returned "failed_api" None
  end.

Definition done_at_30 (t f : nat) : bool := (30 <=? t)%nat.

Definition served_env : Env := quiet_env nothing_gone served_outcome done_at_30.

Definition slow_env : Env := quiet_env nothing_gone demo_outcome done_at_30.

Definition quiet_run : option (Summary * State) :=
  batch_process_files (quiet_env nothing_gone demo_outcome all_finished)
    (demo_config 2 true) 20.


(** ** The EXIF writer ([src/metadata/exif_writer.py]) *)

Module exif_writer.
Local Open Scope list_scope.

(** The places where [stop_event.is_set() or is_stop_requested()] is
    evaluated; [XC_poll i] is the [i]-th turn of the polling loop. *)
Inductive ExifCheck :=
  | XC_entry
  | XC_copied
  | XC_clear
  | XC_cleared
  | XC_write
  | XC_poll (i : nat).

(** What starting the writing process leads to: [poll()] is [None]
    [polls] times and then the process has exited with [returncode];
    [FileNotFoundError]; or any other exception of the [try] block. A
    process that never exits is outside the model. *)
Inductive Spawn :=
  | SpawnOk (polls : nat) (returncode : Z)
  | SpawnNotFound
  | SpawnError.

(** The module global [EXIFTOOL_PATH], the stop signal, and exiftool
    itself: how a command starts and ends, and what it leaves in the file
    it is given. *)
Record ExifTool := {
  EXIFTOOL_PATH : option string;
  exif_stop : ExifCheck -> bool;
  spawn : list string -> Spawn;
  exif_edit : list string -> string -> string
}.

(** The file system and the commands handed to [subprocess]. *)
Record ExifWorld := {
  xfs : FS;
  exif_runs : list (list string)
}.

(** exiftool rewrites the file it is given, and nothing else. *)
Definition exiftool_run (X : ExifTool) (cmd : list string) (target : string)
    (w : ExifWorld) : ExifWorld :=
  {| xfs := match xfs w !! target with
            | Some (FileNode c) => <[target := FileNode (exif_edit X cmd c)]> (xfs w)
            | _ => xfs w
            end;
     exif_runs := exif_runs w ++ [cmd] |}.

(** A command that could not be started. *)
Definition exiftool_attempt (cmd : list string) (w : ExifWorld) : ExifWorld :=
  {| xfs := xfs w; exif_runs := exif_runs w ++ [cmd] |}.

(** [max_kw]: [int(keyword_count)], 49 when it is below 1 or not a number. *)
Definition max_kw_of (metadata : Metadata) : Z :=
  match keyword_count_of metadata with
  | None => 49
  | Some keyword_count =>
      match int_of_str keyword_count with
      | Some max_kw => if (max_kw <? 1)%Z then 49 else max_kw
      | None => 49
      end
  end.

(** [list(dict.fromkeys(l))]: the first occurrence of each element, in
    order. *)
Fixpoint fromkeys (l : list string) : list string :=
  match l with
  | [] => []
  | x :: l' => x :: filter (fun y => y ≠ x) (fromkeys l')
  end.

(** The three statements that compute [cleaned_tags]. *)
Definition cleaned_tags_of (metadata : Metadata) : list string :=
  let cleaned_tags :=
    map strip (filter (fun tag => strip tag ≠ "") (tags metadata)) in
  let cleaned_tags := fromkeys cleaned_tags in
  take (Z.to_nat (max_kw_of metadata)) cleaned_tags.

(** [title[:160].strip()] *)
Definition truncated_title_of (t : string) : string :=
  strip (str (take 160 (chars t))).

Definition clear_command (exiftool_cmd output_path : string) : list string :=
  [exiftool_cmd; "-XMP:Title="; "-XMP:Description="; "-XMP:Subject=";
   "-IPTC:Keywords="; "-overwrite_original"; output_path].

Definition image_command (exiftool_cmd output_path : string) (metadata : Metadata)
    (cleaned_tags : list string) : list string :=
  let command :=
    [exiftool_cmd; "-overwrite_original"; "-charset"; "UTF8"; "-codedcharacterset=utf8"] in
  let command :=
    if negb (String.eqb (title metadata) "") then
      let truncated_title := truncated_title_of (title metadata) in
      command ++ ["-Title=" +:+ truncated_title; "-ObjectName=" +:+ truncated_title]
    else command in
  let command :=
    if negb (String.eqb (description metadata) "") then
      command ++ ["-XPComment=" +:+ description metadata;
                  "-UserComment=" +:+ description metadata;
                  "-ImageDescription=" +:+ description metadata]
    else command in
  let command :=
    match cleaned_tags with
    | [] => command
    | _ :: _ =>
        command ++ ["-Keywords="; "-Subject="]
        ++ concat (map (fun tag => ["-Keywords+=" +:+ tag; "-Subject+=" +:+ tag])
                     cleaned_tags)
    end in
  command ++ [output_path].

Definition video_command (exiftool_cmd output_path : string) (metadata : Metadata)
    (cleaned_tags : list string) : list string :=
  let command :=
    [exiftool_cmd; "-overwrite_original"; "-charset"; "UTF8"; "-codedcharacterset=utf8"] in
  let command :=
    if negb (String.eqb (title metadata) "") then
      let truncated_title := truncated_title_of (title metadata) in
      command ++ ["-Title=" +:+ truncated_title; "-Track1:Title=" +:+ truncated_title;
                  "-Movie:Title=" +:+ truncated_title]
    else command in
  let command :=
    if negb (String.eqb (description metadata) "") then
      command ++ ["-Description=" +:+ description metadata;
                  "-Comment=" +:+ description metadata;
                  "-UserComment=" +:+ description metadata;
                  "-Track1:Comment=" +:+ description metadata;
                  "-Movie:Comment=" +:+ description metadata;
                  "-Caption-Abstract=" +:+ description metadata]
    else command in
  let command :=
    match cleaned_tags with
    | [] => command
    | _ :: _ =>
        command ++ ["-Keywords="; "-Subject="; "-Category="]
        ++ concat (map (fun tag => ["-Keywords+=" +:+ tag; "-Subject+=" +:+ tag;
                                    "-Category+=" +:+ tag])
                     cleaned_tags)
    end in
  command ++ [output_path].

(** [while exiftool_process.poll() is None]: [true] when a stop is seen
    in one of the [polls] turns, counted from [i]. *)
Fixpoint poll_loop (X : ExifTool) (polls i : nat) : bool :=
  match polls with
  | O => false
  | S polls' => if exif_stop X (XC_poll i) then true else poll_loop X polls' (S i)
  end.

(** The last [try] block of both writers, from the stop check on. *)
Definition run_command (X : ExifTool) (command : list string) (output_path : string)
    (w : ExifWorld) : (bool * string) * ExifWorld :=
  if exif_stop X XC_write then ((false, "stopped"), w)
  else
    match spawn X command with
    | SpawnNotFound => ((true, "exiftool_not_found"), exiftool_attempt command w)
    | SpawnError => ((true, "exif_failed"), exiftool_run X command output_path w)
    | SpawnOk polls return_code =>
        let w1 := exiftool_run X command output_path w in
        if poll_loop X polls 0 then ((false, "stopped"), w1)
        else if (return_code =? 0)%Z then ((true, "exif_ok"), w1)
        else ((true, "exif_failed"), w1)
    end.

Definition write_exif_with_exiftool (X : ExifTool) (image_path output_path : string)
    (metadata : Metadata) (w : ExifWorld) : (bool * string) * ExifWorld :=
  let cleaned_tags := cleaned_tags_of metadata in
  if exif_stop X XC_entry then ((false, "stopped"), w)
  else
    let copied :=
      if negb (os_path_exists (xfs w) output_path)
      then shutil_copy2 (xfs w) image_path output_path
      else Some (xfs w) in
    match copied with
    | None => ((false, "copy_failed"), w)
    | Some f1 =>
        let w1 := {| xfs := f1; exif_runs := exif_runs w |} in
        if exif_stop X XC_copied then ((false, "stopped"), w1)
        else if String.eqb (title metadata) "" && String.eqb (description metadata) ""
                && bool_decide (cleaned_tags = [])
        then ((true, "no_metadata"), w1)
        else if negb (truthy (EXIFTOOL_PATH X))
        then ((true, "exiftool_not_found"), w1)
        else
          let exiftool_cmd := default "" (EXIFTOOL_PATH X) in
          if exif_stop X XC_clear then ((false, "stopped"), w1)
          else
            let w2 := exiftool_run X (clear_command exiftool_cmd output_path)
                        output_path w1 in
            if exif_stop X XC_cleared then ((false, "stopped"), w2)
            else
              run_command X (image_command exiftool_cmd output_path metadata cleaned_tags)
                output_path w2
    end.

Definition write_exif_to_video (X : ExifTool) (input_path output_path : string)
    (metadata : Metadata) (w : ExifWorld) : (bool * string) * ExifWorld :=
  let cleaned_tags := cleaned_tags_of metadata in
  if exif_stop X XC_entry then ((false, "stopped"), w)
  else if negb (os_path_exists (xfs w) output_path)
  then ((false, "output_missing"), w)
  else if String.eqb (title metadata) "" && String.eqb (description metadata) ""
          && bool_decide (cleaned_tags = [])
  then ((true, "no_metadata"), w)
  else if negb (truthy (EXIFTOOL_PATH X))
  then ((true, "exiftool_not_found"), w)
  else
    let exiftool_cmd := default "" (EXIFTOOL_PATH X) in
    run_command X (video_command exiftool_cmd output_path metadata cleaned_tags)
      output_path w.

End exif_writer.


(** A machine without exiftool, and a picture with its metadata. *)
Definition no_exiftool : exif_writer.ExifTool :=
  {| exif_writer.EXIFTOOL_PATH := None;
     exif_writer.exif_stop := fun _ => false;
     exif_writer.spawn := fun _ => exif_writer.SpawnNotFound;
     exif_writer.exif_edit := fun _ c => c |}.

Definition sunset_metadata : Metadata :=
  {| title := "Sunset"; description := "A sunset over the sea";
     tags := [" sky "; ""; "sea"; "sky"; "  "; "sun"];
     keyword_count_of := Some "2" |}.

Definition sunset_world : exif_writer.ExifWorld :=
  {| exif_writer.xfs := {[ "in/a.jpg" := FileNode "JPEG" ]};
     exif_writer.exif_runs := [] |}.


(** ** The SVG converter
    ([src/processing/vector_processing/format_svg_processing.py]) *)

Module format_svg_processing.

(** The two calls of [check_stop_event]. *)
Inductive SvgCheck :=
  | SC_entry
  | SC_parsed.

(** An exception of the [try] block: [FileNotFoundError], or any other
    one with the name of its type and its text. *)
Inductive Failure :=
  | NotFound
  | Other (error_type message : string).

(** What [svg2rlg] hands back: a drawing, [None], or an exception. *)
Inductive Parsed :=
  | Drawing (d : string)
  | NoDrawing
  | ParseRaised (e : Failure).

(** What [renderPM.drawToFile] does: it writes the file, or it raises,
    possibly after having left something in the file. *)
Inductive Rendered :=
  | Wrote (content : string)
  | RenderRaised (left_behind : option string) (e : Failure).

(** The stop signal and the two libraries. *)
Record SvgLib := {
  svg_stop : SvgCheck -> bool;
  svg2rlg : string -> FS -> Parsed;
  drawToFile : string -> string -> FS -> Rendered
}.

Definition failure_message (svg_path : string) (e : Failure) : string :=
  match e with
  | NotFound => "File SVG not found: " +:+ svg_path
  | Other error_type message =>
      "Error when converting SVG (" +:+ error_type +:+ "): " +:+ message
  end.

Definition convert_svg_to_jpg (X : SvgLib) (svg_path output_jpg_path : string) (f : FS)
  : (bool * option string) * FS :=
  let filename := basename svg_path in
  if svg_stop X SC_entry
  then ((false, Some ("Conversion cancelled: " +:+ filename)), f)
  else
    match svg2rlg X svg_path f with
    | ParseRaised e => ((false, Some (failure_message svg_path e)), f)
    | NoDrawing => ((false, Some ("Failed to read or parse SVG: " +:+ filename)), f)
    | Drawing drawing =>
        if svg_stop X SC_parsed
        then ((false, Some ("Conversion cancelled after parse: " +:+ filename)), f)
        else
          match drawToFile X drawing output_jpg_path f with
          | RenderRaised left_behind e =>
              ((false, Some (failure_message svg_path e)),
               match left_behind with
               | Some c => <[output_jpg_path := FileNode c]> f
               | None => f
               end)
          | Wrote c =>
              let f1 := <[output_jpg_path := FileNode c]> f in
              if os_path_exists f1 output_jpg_path
                 && match os_path_getsize f1 output_jpg_path with
                    | Some size => (0 <? size)%nat
                    | None => false
                    end
              then ((true, None), f1)
              else ((false,
                     Some ("Failed to render SVG to JPG or output file is empty: "
                           +:+ filename)), f1)
          end
    end.

End format_svg_processing.


(** ** Image compression ([src/utils/compression.py]) *)

(** [os.path.dirname(p)], after [posixpath.dirname]. *)
Fixpoint lstrip_sep (l : list ascii) : list ascii :=
  match l with
  | c :: l' => if Ascii.eqb c "/"%char then lstrip_sep l' else l
  | [] => []
  end.

Definition dirname (p : string) : string :=
  let l := chars p in
  let head := slice_to (rfind "/"%char l + 1) l in
  if negb (bool_decide (head = [])) && negb (forallb (Ascii.eqb "/"%char) head)
  then str (rev (lstrip_sep (rev head)))
  else str head.

Module compression.
Local Open Scope list_scope.

Definition TEMP_COMPRESSION_FOLDER_NAME : string := "temp_compressed".
Definition MAX_IMAGE_SIZE_MB : Z := 3.
Definition COMPRESSION_QUALITY : Z := 75.
Definition MAX_IMAGE_DIMENSION : Z := 1024.
Definition _COMPRESS_CACHE_MAX : nat := 256.

(** *** Python numbers

    A Python [float] is an IEEE 754 binary64 number, the kernel's
    [PrimFloat.float]. Integers that meet floats here (sizes in bytes,
    pixel counts, the limits) are far below [2^53], where the conversion
    is exact. *)

(** [float(z)] *)
Definition float_of_int (z : Z) : PrimFloat.float :=
  if (z <? 0)%Z
  then PrimFloat.opp (PrimFloat.of_uint63 (Uint63.of_Z (- z)))
  else PrimFloat.of_uint63 (Uint63.of_Z z).

(** [int(x)]: truncation towards zero; [None] is the [ValueError] or
    [OverflowError] of a NaN or an infinity. *)
Definition int_of_float (x : PrimFloat.float) : option Z :=
  match FloatOps.Prim2SF x with
  | SpecFloat.S754_zero _ => Some 0%Z
  | SpecFloat.S754_finite s m e =>
      let v := if (0 <=? e)%Z then (Z.pos m * 2 ^ e)%Z else (Z.pos m / 2 ^ (- e))%Z in
      Some (if s then (- v)%Z else v)
  | _ => None
  end.

(** [a / b] on integers; [None] is [ZeroDivisionError]. *)
Definition true_div (a b : Z) : option PrimFloat.float :=
  if (b =? 0)%Z then None
  else Some (PrimFloat.div (float_of_int a) (float_of_int b)).

(** [min(a, b)] *)
Definition float_min (a b : PrimFloat.float) : PrimFloat.float :=
  if PrimFloat.ltb b a then b else a.

(** [os.path.getsize(p) / (1024 * 1024)] *)
Definition size_mb (size : nat) : PrimFloat.float :=
  PrimFloat.div (float_of_int (Z.of_nat size)) (float_of_int (1024 * 1024)).

(** [size_mb > max_size_mb] *)
Definition exceeds (mb : PrimFloat.float) (max_size_mb : Z) : bool :=
  PrimFloat.ltb (float_of_int max_size_mb) mb.

(** [max(10, quality - int(min(file_size_mb, 50) / 10))] *)
Definition adaptive_quality_of (quality : Z) (file_size_mb : PrimFloat.float) : option Z :=
  match int_of_float (PrimFloat.div (float_min file_size_mb (float_of_int 50))
                        (float_of_int 10)) with
  | Some n => Some (Z.max 10 (quality - n))
  | None => None
  end.

(** The size [compress_image] asks [_resize_image_fast] for. [None] is an
    exception: a division by zero or a product that is no number. *)
Definition new_size (max_dimension original_width original_height : Z) : option (Z * Z) :=
  match true_div max_dimension original_width,
        true_div max_dimension original_height with
  | Some a, Some b =>
      let scale_factor := float_min a b in
      match int_of_float (PrimFloat.mul (float_of_int original_width) scale_factor),
            int_of_float (PrimFloat.mul (float_of_int original_height) scale_factor) with
      | Some w, Some h => Some (Z.max 1 w, Z.max 1 h)
      | _, _ => None
      end
  | _, _ => None
  end.

(** *** The imaging library and the stop signal *)

(** What the code reads of an opened [PIL.Image]. *)
Record Img := {
  img_size : Z * Z;
  img_mode : string;
  transparency_in_info : bool;
  pixels : string
}.

(** How an image is made ready for [_save_jpeg_optimized]. *)
Inductive Prep :=
  | AsIs                      (* img *)
  | ConvertRGB                (* img.convert('RGB') *)
  | PasteLast                 (* background.paste(img, mask=img.split()[-1]) *)
  | PasteChannel (i : nat).   (* background.paste(img, mask=img.split()[i]) *)

(** What [img.save] does: it writes the file, or it raises, possibly
    after having left something in the file. *)
Inductive Saved :=
  | Wrote (content : string)
  | SaveRaised (left_behind : option string).

(** The calls of [(stop_event and stop_event.is_set()) or is_stop_requested()]. *)
Inductive CompCheck :=
  | CC_entry
  | CC_folder
  | CC_loaded
  | CC_resized
  | CC_before_png
  | CC_after_png
  | CC_before_jpg
  | CC_after_jpg.

(** Everything [compress_image] asks of its environment. [None] is an
    exception. Time stamps are only compared for equality; they are
    integers here. *)
Record Imaging := {
  comp_stop : CompCheck -> bool;
  getmtime : string -> FS -> option Z;
  Image_open : string -> FS -> option Img;
  _resize_image_fast : Img -> Z -> Z -> option Img;
  prepare : Prep -> Img -> option Img;
  img_save : Img -> string -> Z -> FS -> Saved
}.

(** *** The cache of compressed paths *)

(** A key [(input_path, mtime, file_size_mb)]. The size in megabytes is
    the size in bytes divided by [2^20], which determines the size in
    bytes; the key holds the latter. *)
Abbreviation CacheKey := (string * Z * nat)%type.

(** The module global [_COMPRESS_CACHE] is a [dict], which keeps its keys
    in the order of their first insertion: an association list without
    repeated keys. *)
Record CompressWorld := {
  cfs : FS;
  _COMPRESS_CACHE : list (CacheKey * string)
}.

Definition with_cfs (w : CompressWorld) (f : FS) : CompressWorld :=
  {| cfs := f; _COMPRESS_CACHE := _COMPRESS_CACHE w |}.

(** [d.get(k)] *)
Fixpoint cache_get (k : CacheKey) (d : list (CacheKey * string)) : option string :=
  match d with
  | [] => None
  | (k', v) :: d' => if decide (k = k') then Some v else cache_get k d'
  end.

(** [d[k] = v]: in place when the key is there, at the end otherwise. *)
Fixpoint cache_set (k : CacheKey) (v : string) (d : list (CacheKey * string))
  : list (CacheKey * string) :=
  match d with
  | [] => [(k, v)]
  | (k', v') :: d' => if decide (k = k') then (k, v) :: d' else (k', v') :: cache_set k v d'
  end.

(** The inner function [_cache_and_return]. *)
Definition _cache_and_return (cache_key : option CacheKey) (input_path out_path : string)
    (w : CompressWorld) : (string * bool) * CompressWorld :=
  let w1 :=
    match cache_key with
    | Some k =>
        if bool_decide (out_path ≠ input_path) then
          let d := _COMPRESS_CACHE w in
          let d := if (_COMPRESS_CACHE_MAX <=? length d)%nat then tail d else d in
          {| cfs := cfs w; _COMPRESS_CACHE := cache_set k out_path d |}
        else w
    | None => w
    end in
  ((out_path, bool_decide (out_path ≠ input_path)), w1).

(** *** [compress_image] *)

(** [return input_path, False] *)
Definition uncompressed (input_path : string) (w : CompressWorld)
  : (string * bool) * CompressWorld := ((input_path, false), w).

(** Preparing and saving an image; [false] when an exception was raised. *)
Definition save_image (X : Imaging) (prep : Prep) (img : Img) (path : string)
    (quality : Z) (f : FS) : bool * FS :=
  match prepare X prep img with
  | None => (false, f)
  | Some ready =>
      match img_save X ready path quality f with
      | Wrote c => (true, <[path := FileNode c]> f)
      | SaveRaised (Some c) => (false, <[path := FileNode c]> f)
      | SaveRaised None => (false, f)
      end
  end.

(** The second, stronger compression of a file that is still too large:
    [_save_jpeg_optimized(Image.open(path), path, quality)] inside a [try]
    whose handler only logs. *)
Definition save_again (X : Imaging) (path : string) (quality : Z) (f : FS) : FS :=
  match Image_open X path f with
  | None => f
  | Some img => (save_image X AsIs img path quality f).2
  end.

(** The tail shared by the PNG and the JPEG branch, from [os.path.getsize]
    of the written file on. *)
Definition shrink_and_return (X : Imaging) (cache_key : option CacheKey)
    (input_path out_path : string) (max_size_mb adaptive_quality : Z) (w : CompressWorld)
  : (string * bool) * CompressWorld :=
  match os_path_getsize (cfs w) out_path with
  | None => uncompressed input_path w
  | Some size =>
      let f1 :=
        if exceeds (size_mb size) max_size_mb && (15 <? adaptive_quality)%Z
        then save_again X out_path (Z.max 10 (adaptive_quality - 10)) (cfs w)
        else cfs w in
      _cache_and_return cache_key input_path out_path (with_cfs w f1)
  end.

(** [if os.path.exists(p): os.remove(p)] inside [try ... except: pass] *)
Definition discard (f : FS) (p : string) : FS :=
  if os_path_exists f p then try_remove f p else f.

(** The [if needs_resize:] block; [None] is an exception. *)
Definition resize_stage (X : Imaging) (img : Img) (max_dimension : Z) : option Img :=
  let '(original_width, original_height) := img_size img in
  if (max_dimension <? original_width)%Z || (max_dimension <? original_height)%Z then
    match new_size max_dimension original_width original_height with
    | Some (new_width, new_height) =>
        if negb (new_width =? original_width)%Z || negb (new_height =? original_height)%Z
        then _resize_image_fast X img new_width new_height
        else Some img
    | None => None
    end
  else Some img.

(** The three branches on the extension. *)
Definition png_branch (X : Imaging) (cache_key : option CacheKey)
    (input_path temp_folder base : string) (original_mode : string) (img : Img)
    (max_size_mb adaptive_quality : Z) (w : CompressWorld)
  : (string * bool) * CompressWorld :=
  let jpg_path := path_join temp_folder (base +:+ "_compressed.jpg") in
  if comp_stop X CC_before_png then uncompressed input_path w
  else
    let prep := if str_in original_mode ["RGBA"; "LA"] then PasteLast else ConvertRGB in
    match save_image X prep img jpg_path adaptive_quality (cfs w) with
    | (false, f1) => uncompressed input_path (with_cfs w f1)
    | (true, f1) =>
        if os_path_exists f1 jpg_path then
          if comp_stop X CC_after_png
          then uncompressed input_path (with_cfs w (discard f1 jpg_path))
          else shrink_and_return X cache_key input_path jpg_path max_size_mb
                 adaptive_quality (with_cfs w f1)
        else uncompressed input_path (with_cfs w f1)
    end.

Definition jpg_branch (X : Imaging) (cache_key : option CacheKey)
    (input_path temp_folder base ext : string) (img : Img)
    (max_size_mb adaptive_quality : Z) (w : CompressWorld)
  : (string * bool) * CompressWorld :=
  let compressed_path := path_join temp_folder (base +:+ "_compressed" +:+ ext) in
  if comp_stop X CC_before_jpg then uncompressed input_path w
  else
    match save_image X AsIs img compressed_path adaptive_quality (cfs w) with
    | (false, f1) => uncompressed input_path (with_cfs w f1)
    | (true, f1) =>
        if comp_stop X CC_after_jpg
        then uncompressed input_path (with_cfs w (discard f1 compressed_path))
        else if os_path_exists f1 compressed_path
        then shrink_and_return X cache_key input_path compressed_path max_size_mb
               adaptive_quality (with_cfs w f1)
        else uncompressed input_path (with_cfs w f1)
    end.

Definition other_branch (X : Imaging) (cache_key : option CacheKey)
    (input_path temp_folder base : string) (original_mode : string)
    (has_transparency : bool) (img : Img) (adaptive_quality : Z) (w : CompressWorld)
  : (string * bool) * CompressWorld :=
  let jpg_path := path_join temp_folder (base +:+ "_compressed.jpg") in
  let prep :=
    if has_transparency
    then if String.eqb original_mode "RGBA" then PasteChannel 3 else PasteChannel 1
    else ConvertRGB in
  match save_image X prep img jpg_path adaptive_quality (cfs w) with
  | (false, f1) => uncompressed input_path (with_cfs w f1)
  | (true, f1) =>
      if os_path_exists f1 jpg_path
      then _cache_and_return cache_key input_path jpg_path (with_cfs w f1)
      else uncompressed input_path (with_cfs w f1)
  end.

(** The [with Image.open(input_path) as img:] block. *)
Definition compress_opened (X : Imaging) (cache_key : option CacheKey)
    (input_path temp_folder base ext : string) (file_size_mb : PrimFloat.float)
    (max_size_mb quality max_dimension : Z) (img : Img) (w : CompressWorld)
  : (string * bool) * CompressWorld :=
  let ext_lower := lower ext in
  let '(original_width, original_height) := img_size img in
  let original_mode := img_mode img in
  let has_transparency :=
    String.eqb original_mode "RGBA" || String.eqb original_mode "LA"
    || transparency_in_info img in
  let needs_resize :=
    (max_dimension <? original_width)%Z || (max_dimension <? original_height)%Z in
  let needs_compress := exceeds file_size_mb max_size_mb in
  if negb needs_resize && negb needs_compress then uncompressed input_path w
  else if comp_stop X CC_loaded then uncompressed input_path w
  else
    match resize_stage X img max_dimension with
    | None => uncompressed input_path w
    | Some img =>
        if comp_stop X CC_resized then uncompressed input_path w
        else
          match adaptive_quality_of quality file_size_mb with
          | None => uncompressed input_path w
          | Some adaptive_quality =>
              if String.eqb ext_lower ".png"
              then png_branch X cache_key input_path temp_folder base original_mode img
                     max_size_mb adaptive_quality w
              else if str_in ext_lower [".jpg"; ".jpeg"]
              then jpg_branch X cache_key input_path temp_folder base ext img
                     max_size_mb adaptive_quality w
              else other_branch X cache_key input_path temp_folder base original_mode
                     has_transparency img adaptive_quality w
          end
    end.

Definition compress_image (X : Imaging) (input_path : string) (temp_folder : option string)
    (max_size_mb quality max_dimension : Z) (w : CompressWorld)
  : (string * bool) * CompressWorld :=
  if comp_stop X CC_entry then uncompressed input_path w
  else
    let filename := basename input_path in
    match os_path_getsize (cfs w) input_path with
    | None => uncompressed input_path w
    | Some size =>
        let file_size_mb := size_mb size in
        let '(base, ext) := splitext filename in
        let cache_key :=
          match getmtime X input_path (cfs w) with
          | Some mtime => Some (input_path, mtime, size)
          | None => None
          end in
        let cached :=
          match cache_key with
          | Some k =>
              match cache_get k (_COMPRESS_CACHE w) with
              | Some cached_path =>
                  if os_path_exists (cfs w) cached_path then Some cached_path else None
              | None => None
              end
          | None => None
          end in
        match cached with
        | Some cached_path => ((cached_path, true), w)
        | None =>
            let temp_folder :=
              match temp_folder with
              | Some t => t
              | None => path_join (dirname input_path) TEMP_COMPRESSION_FOLDER_NAME
              end in
            let made :=
              if negb (os_path_exists (cfs w) temp_folder)
              then os_makedirs (cfs w) temp_folder
              else Some (cfs w) in
            match made with
            | None => uncompressed input_path w
            | Some f1 =>
                let w1 := with_cfs w f1 in
                if comp_stop X CC_folder then uncompressed input_path w1
                else
                  match Image_open X input_path f1 with
                  | None => uncompressed input_path w1
                  | Some img =>
                      compress_opened X cache_key input_path temp_folder base ext
                        file_size_mb max_size_mb quality max_dimension img w1
                  end
            end
        end
    end.

End compression.


(** *** Vocabulary of the statements about [compress_image] *)

(** The name of the file [compress_image] writes for a given input. *)
Definition compressed_name (input_path : string) : string :=
  let '(base, ext) := splitext (basename input_path) in
  if String.eqb (lower ext) ".png" then base +:+ "_compressed.jpg"
  else if str_in (lower ext) [".jpg"; ".jpeg"] then base +:+ "_compressed" +:+ ext
  else base +:+ "_compressed.jpg".

(** The folder it writes to. *)
Definition resolved_temp_folder (input_path : string) (temp_folder : option string) : string :=
  match temp_folder with
  | Some t => t
  | None => path_join (dirname input_path) compression.TEMP_COMPRESSION_FOLDER_NAME
  end.

Definition compressed_path (input_path : string) (temp_folder : option string) : string :=
  path_join (resolved_temp_folder input_path temp_folder) (compressed_name input_path).

(** A cache as the module builds it: no key twice, at most
    [_COMPRESS_CACHE_MAX] entries, and under the key of a path a file
    with the compressed name of that path. *)
Definition CacheOk (d : list (compression.CacheKey * string)) : Prop :=
  NoDup d.*1 /\
  (length d <= compression._COMPRESS_CACHE_MAX)%nat /\
  forall k v, (k, v) ∈ d -> basename v = compressed_name k.1.1.

(** The cache after the eviction of [_cache_and_return]. *)
Definition evicted (d : list (compression.CacheKey * string))
  : list (compression.CacheKey * string) :=
  if (compression._COMPRESS_CACHE_MAX <=? length d)%nat then tail d else d.

(** What a branch of [compress_image] does to the world it starts in: it
    changes no file but [target], and it gives up or returns [target],
    stored in the cache. *)
Definition BranchPost (input_path target : string) (cache_key : option compression.CacheKey)
    (w : compression.CompressWorld)
    (r : (string * bool) * compression.CompressWorld) : Prop :=
  (forall q, q <> target -> compression.cfs r.2 !! q = compression.cfs w !! q) /\
  ((r.1 = (input_path, false) /\
    compression._COMPRESS_CACHE r.2 = compression._COMPRESS_CACHE w) \/
   (r.1 = (target, true) /\
    os_path_exists (compression.cfs r.2) target = true /\
    compression._COMPRESS_CACHE r.2 =
      match cache_key with
      | Some k => compression.cache_set k target (evicted (compression._COMPRESS_CACHE w))
      | None => compression._COMPRESS_CACHE w
      end)).

(** An imaging library that opens every file as a 3000 x 2000 RGB
    picture and writes what it is given, and a converted picture in a
    temporary folder. *)
Definition plain_imaging : compression.Imaging :=
  {| compression.comp_stop := fun _ => false;
     compression.getmtime := fun _ _ => Some 1700000000%Z;
     compression.Image_open := fun p f =>
       match f !! p with
       | Some (FileNode c) =>
           Some {| compression.img_size := (3000, 2000)%Z;
                   compression.img_mode := "RGB";
                   compression.transparency_in_info := false;
                   compression.pixels := c |}
       | _ => None
       end;
     compression._resize_image_fast := fun img w h =>
       Some {| compression.img_size := (w, h);
               compression.img_mode := compression.img_mode img;
               compression.transparency_in_info := compression.transparency_in_info img;
               compression.pixels := compression.pixels img |};
     compression.prepare := fun _ img => Some img;
     compression.img_save := fun img _ _ _ => compression.Wrote (compression.pixels img) |}.

Definition converted_world : compression.CompressWorld :=
  {| compression.cfs := {[ "out/temp_compressed" := DirNode;
                            "out/temp_compressed/a_converted.jpg" := FileNode "JPEG" ]};
     compression._COMPRESS_CACHE := [] |}.


(** ** The engine with the collaborators of this repository *)

(** [C] with the SVG converter, the image compressor and the EXIF writer
    modelled above in the place of its own. [compress_image] is called as
    [process_vector_file] calls it, with the default limits, and finds
    the cache [d]. *)
Definition with_real (C : Collab) (XS : format_svg_processing.SvgLib)
    (XI : compression.Imaging) (d : list (compression.CacheKey * string))
    (XE : exif_writer.ExifTool) : Collab :=
  {| SUPPORTED_VIDEO_EXTENSIONS := SUPPORTED_VIDEO_EXTENSIONS C;
     sanitize_filename := sanitize_filename C;
     select_api_key := select_api_key C;
     get_metadata := get_metadata C;
     convert_eps_to_jpg := convert_eps_to_jpg C;
     convert_svg_to_jpg := fun svg_path output_jpg_path f =>
       let r := format_svg_processing.convert_svg_to_jpg XS svg_path output_jpg_path f in
       (Ok (r.1.1, default "" r.1.2), r.2);
     compress_image := fun input_path temp_folder f =>
       let r := compression.compress_image XI input_path (Some temp_folder)
                  compression.MAX_IMAGE_SIZE_MB compression.COMPRESSION_QUALITY
                  compression.MAX_IMAGE_DIMENSION
                  {| compression.cfs := f; compression._COMPRESS_CACHE := d |} in
       (Ok (Some r.1.1, r.1.2), compression.cfs r.2);
     write_exif_with_exiftool := fun image_path output_path metadata f =>
       let r := exif_writer.write_exif_with_exiftool XE image_path output_path metadata
                  {| exif_writer.xfs := f; exif_writer.exif_runs := [] |} in
       (Ok r.1, exif_writer.xfs r.2);
     write_to_platform_csvs := write_to_platform_csvs C;
     process_video := process_video C;
     process_jpg_jpeg := process_jpg_jpeg C;
     process_png := process_png C |}.

(** The two temporary files of a vector job. *)
Definition converted_name (filename : string) : string :=
  (splitext filename).1 +:+ "_converted.jpg".

Definition converted_compressed_name (filename : string) : string :=
  ((splitext filename).1 +:+ "_converted") +:+ "_compressed" +:+ ".jpg".

(** An SVG library that draws every file it is given, and an exiftool
    that works. *)
Definition plain_svglib : format_svg_processing.SvgLib :=
  {| format_svg_processing.svg_stop := fun _ => false;
     format_svg_processing.svg2rlg := fun p f =>
       match f !! p with
       | Some (FileNode c) => format_svg_processing.Drawing c
       | _ => format_svg_processing.ParseRaised format_svg_processing.NotFound
       end;
     format_svg_processing.drawToFile := fun drawing _ _ =>
       format_svg_processing.Wrote ("JPEG of " +:+ drawing) |}.

Definition plain_exiftool : exif_writer.ExifTool :=
  {| exif_writer.EXIFTOOL_PATH := Some "exiftool";
     exif_writer.exif_stop := fun _ => false;
     exif_writer.spawn := fun _ => exif_writer.SpawnOk 2 0;
     exif_writer.exif_edit := fun _ c => c +:+ " with metadata" |}.

(** The engine of the examples with the three collaborators. *)
Definition real_collab : Collab :=
  with_real demo_collab plain_svglib plain_imaging [] plain_exiftool.

(** The statuses and outputs of a vector job that returns. *)
Definition vector_outcomes (initial_output_path : string) : list (string * option string) :=
  [("stopped", None); ("skipped_exists", Some initial_output_path);
   ("failed_conversion", None); ("failed_api", None); ("failed_copy", None);
   ("processed_no_exif", Some initial_output_path);
   ("failed_stopped", Some initial_output_path);
   ("processed_exif", Some initial_output_path);
   ("processed_exif_failed", Some initial_output_path)].


(** ** Temporary folders ([src/utils/compression.py] and the end of
    [batch_process_files]) *)














(** * Theorems *)

(** ** Strings and the retry table *)

Example splitext_1 : splitext "in/a.b/photo.JPG" = ("in/a.b/photo", ".JPG").
Proof. vm_compute. reflexivity. Qed.
Example splitext_2 : splitext "in/.bashrc" = ("in/.bashrc", "").
Proof. vm_compute. reflexivity. Qed.
Example basename_1 : basename "in/a.b/photo.JPG" = "photo.JPG".
Proof. vm_compute. reflexivity. Qed.
Example join_1 : path_join "out" "Sunset (" +:+ str_of_nat 12 +:+ ").jpg" = "out/Sunset (12).jpg".
Proof. vm_compute. reflexivity. Qed.
Example retry_1 : is_retryable "failed_api" 4 = true /\ is_retryable "failed_api" 5 = false
  /\ is_retryable "failed_empty" 0 = false /\ is_retryable "zzz" 0 = false.
Proof. vm_compute. repeat split. Qed.
Example int_1 : int_of_str " 49 " = Some 49%Z /\ int_of_str "x" = None /\ str_of_nat 0 = "0".
Proof. vm_compute. repeat split. Qed.

(** ** The per-file processor *)

Lemma with_fs_same (w : World) : with_fs w (fs w) = w.
Proof. destruct w; reflexivity. Qed.

Lemma quiet_check_stop (sg : Signals) (cp : CheckPoint) :
  quiet sg -> _check_stop sg cp = false.
Proof.
  intros Hq. specialize (Hq cp). unfold _should_stop in Hq.
  apply orb_false_iff in Hq. unfold _check_stop. tauto.
Qed.

(** [process_vector_file] leaves at its second statement when the output
    is already there. *)
Lemma process_vector_file_skips (C : Collab) (sg : Signals) (st : Settings)
    (input_path output_dir key : string) (w : World) :
  _check_stop sg CP_vector_entry = false ->
  os_path_exists (fs w) (path_join output_dir (basename input_path)) = true ->
  process_vector_file C sg st input_path output_dir key w
  = (Ok ("skipped_exists", None, Some (path_join output_dir (basename input_path))), w).
Proof.
  intros Hs He. unfold process_vector_file. rewrite Hs, He. reflexivity.
Qed.

(** Every record of [process_single_file] names the submitted path. *)
Lemma process_single_file_input (C : Collab) (sg : Signals) (st : Settings)
    (input_path output_dir : string) (keys : list string) (w : World) :
  job_input (process_single_file C sg st input_path output_dir keys w).1 = input_path.
Proof.
  unfold process_single_file, process_single_file_body.
  repeat (case_match; simplify_eq; simpl; try reflexivity).
Qed.

(** C5, as the code has it: a vector file that is present, with a usable
    credential and no cancellation pending, whose un-renamed output
    already exists, ends in [skipped_exists]; the world is returned as it
    was received, so no AI call is journalled, no file is copied or
    deleted and the existing output keeps its content. *)
Theorem skipped_exists_leaves_world (C : Collab) (sg : Signals) (st : Settings)
    (input_path output_dir : string) (api_keys_list : list string) (w : World) :
  quiet sg ->
  is_vector_path input_path = true ->
  str_in (lower (snd (splitext input_path))) (SUPPORTED_VIDEO_EXTENSIONS C) = false ->
  os_path_exists (fs w) input_path = true ->
  api_keys_list <> [] ->
  truthy (select_api_key C (provider_name st) api_keys_list) = true ->
  let target :=
    if auto_foldering_enabled st then path_join output_dir "Vectors" else output_dir in
  (auto_foldering_enabled st = true -> os_path_exists (fs w) target = true) ->
  os_path_exists (fs w) (path_join target (basename input_path)) = true ->
  process_single_file C sg st input_path output_dir api_keys_list w
  = (Full "skipped_exists" input_path None None (basename input_path) None, w).
Proof.
  intros Hq Hvec Hvid Hin Hkeys Hsel target Hdir Hout.
  unfold process_single_file, process_single_file_body.
  rewrite !Hq. unfold is_vector_path in Hvec. rewrite Hvid, Hvec.
  assert (Htarget :
    (if auto_foldering_enabled st
     then if negb (os_path_exists (fs w) (path_join output_dir "Vectors"))
          then match os_makedirs (fs w) (path_join output_dir "Vectors") with
               | Some f' => (path_join output_dir "Vectors", f')
               | None => (output_dir, fs w)
               end
          else (path_join output_dir "Vectors", fs w)
     else (output_dir, fs w)) = (target, fs w)).
  { subst target. destruct (auto_foldering_enabled st); [|reflexivity].
    rewrite (Hdir eq_refl). reflexivity. }
  rewrite Htarget. rewrite with_fs_same, Hin. simpl negb. cbv iota.
  destruct api_keys_list as [|k ks]; [congruence|].
  rewrite Hsel. simpl negb. cbv iota.
  rewrite (process_vector_file_skips C sg st input_path target _ w
             (quiet_check_stop sg _ Hq) Hout).
  reflexivity.
Qed.

Lemma skipped_exists_leaves_world_witness :
  process_single_file demo_collab never_stopped demo_settings
    "in/tiny.svg" "out" ["k0"] done_world
  = (Full "skipped_exists" "in/tiny.svg" None None "tiny.svg" None, done_world).
Proof.
  apply (skipped_exists_leaves_world demo_collab never_stopped demo_settings
           "in/tiny.svg" "out" ["k0"] done_world).
  - intros cp. reflexivity.
  - reflexivity.
  - reflexivity.
  - vm_compute. reflexivity.
  - discriminate.
  - reflexivity.
  - discriminate.
  - vm_compute. reflexivity.
Defined.

(** C5 as stated fails: with the output in place, a pending cancellation
    gives [stopped], an empty credential list gives
    [failed_api_list_empty], and a vanished input gives
    [failed_input_missing]. *)
Lemma skipped_exists_not_unconditional :
  os_path_exists (fs done_world) "out/tiny.svg" = true /\
  job_status (process_single_file demo_collab always_stopped demo_settings
                "in/tiny.svg" "out" ["k0"] done_world).1 <> "skipped_exists" /\
  job_status (process_single_file demo_collab always_stopped demo_settings
                "in/tiny.svg" "out" ["k0"] done_world).1 = "stopped" /\
  job_status (process_single_file demo_collab never_stopped demo_settings
                "in/tiny.svg" "out" [] done_world).1 = "failed_api_list_empty" /\
  job_status (process_single_file demo_collab never_stopped demo_settings
                "in/tiny.svg" "out" ["k0"]
                (with_fs done_world (delete "in/tiny.svg" (fs done_world)))).1
  = "failed_input_missing".
Proof. vm_compute. repeat split. discriminate. Qed.

(** The size check of [process_image]: below 100 bytes nothing else runs. *)
Lemma process_image_rejects_small (C : Collab) (sg : Signals) (st : Settings)
    (input_path output_dir key : string) (w : World) (size : nat) :
  os_path_getsize (fs w) input_path = Some size ->
  (size < 100)%nat ->
  process_image C sg st input_path output_dir key w = (Ok ("failed_empty", None, None), w).
Proof.
  intros Hsz Hlt. unfold process_image. rewrite Hsz.
  destruct (Nat.ltb_spec size 100); [reflexivity | lia].
Qed.

(** C9 at its failing input: [process_single_file] has no size check of its
    own, and the vector branch has none either; a six-byte [.svg] is
    converted, sent to the AI provider and reported as processed. *)
Theorem tiny_vector_is_processed :
  os_path_getsize (fs demo_world) "in/tiny.svg" = Some 6%nat /\
  job_status (process_single_file demo_collab never_stopped demo_settings
                "in/tiny.svg" "out" ["k0"] demo_world).1 = "processed_exif" /\
  ai_calls (process_single_file demo_collab never_stopped demo_settings
              "in/tiny.svg" "out" ["k0"] demo_world).2
  = ["out/temp_compressed/tiny_converted.jpg"] /\
  (process_image demo_collab never_stopped demo_settings
     "in/tiny.svg" "out" "k0" demo_world).1 = Ok ("failed_empty", None, None).
Proof. vm_compute. repeat split. Qed.

(** C10: when the last statement of [process_single_file] is reached with
    the signal set, the record is the two-key [stopped] record, whatever
    the body has done to the world. *)
Theorem stopped_at_final_return (C : Collab) (sg : Signals) (st : Settings)
    (input_path output_dir : string) (api_keys_list : list string)
    (w w' : World) (loc : Locals) :
  process_single_file_body C sg st input_path output_dir api_keys_list w
  = (Continue loc, w') ->
  _should_stop sg CP_final = true ->
  process_single_file C sg st input_path output_dir api_keys_list w
  = (Short "stopped" input_path, w').
Proof.
  intros Hbody Hstop. unfold process_single_file. rewrite Hbody, Hstop. reflexivity.
Qed.

Lemma stopped_at_final_return_witness :
  (fs demo_final_world !! "in/tiny.svg" = None /\
   fs demo_final_world !! "out/Sunset (1).svg" = Some (FileNode "<svg/>") /\
   length (csv_rows demo_final_world) = 1%nat /\
   length (ai_calls demo_final_world) = 1%nat) /\
  process_single_file demo_collab stopped_at_final demo_settings
    "in/tiny.svg" "out" ["k0"] demo_world
  = (Short "stopped" "in/tiny.svg", demo_final_world).
Proof.
  split.
  - vm_compute. repeat split.
  - apply (stopped_at_final_return demo_collab stopped_at_final demo_settings
             "in/tiny.svg" "out" ["k0"] demo_world demo_final_world demo_final_locals).
    + vm_compute. reflexivity.
    + reflexivity.
Defined.

(** ** Renaming *)

Lemma os_path_exists_false (f : FS) (p : string) :
  os_path_exists f p = false -> f !! p = None.
Proof.
  unfold os_path_exists. intros H. apply bool_decide_eq_false in H.
  destruct (f !! p) eqn:E; [exfalso; apply H; eauto | reflexivity].
Qed.

Lemma os_path_exists_true (f : FS) (p : string) :
  os_path_exists f p = true -> exists n, f !! p = Some n.
Proof.
  unfold os_path_exists. intros H. apply bool_decide_eq_true in H.
  destruct H as [n Hn]. eauto.
Qed.








(** With [Sunset.jpg], [Sunset (1).jpg], ..., [Sunset (49).jpg] taken the
    file stays [IMG_1.jpg] and the job stays processed. *)
Example rename_exhausted :
  (finish_processed demo_collab demo_settings false "in/IMG_1.jpg" "IMG_1.jpg"
     "out" "processed_exif" (Some demo_meta) (Some "out/IMG_1.jpg") crowded_world).1
  = {| l_status := "processed_exif"; l_final_output_path := Some "out/IMG_1.jpg";
       l_processed_metadata := Some demo_meta; l_new_filename := None |}.
Proof. vm_compute. reflexivity. Qed.

(** ** The pool: invariants carried through one pass *)

Lemma set_clock_id (s : State) : set_clock s (clock s) = s.
Proof. destruct s; reflexivity. Qed.

Lemma cooldown_spec (E : Env) (n : nat) (s : State) :
  exists c, (cooldown E n s).2 = set_clock s c /\
            ((cooldown E n s).1 = true ->
             exists t, stop_signal E t || force_stop s = true).
Proof.
  revert s. induction n as [|n IH]; intros s; simpl.
  - exists (clock s). split; [symmetry; apply set_clock_id | discriminate].
  - destruct (stop_signal E (clock s) || force_stop s) eqn:Hb; simpl.
    + exists (S (clock s)). split; [reflexivity|]. intros _. eauto.
    + destruct (IH (set_clock s (S (clock s)))) as (c & Heq & Hint).
      exists c. split; [exact Heq | exact Hint].
Qed.

Lemma PendInv_core (W : nat) (s s' : State) :
  pending (pass s') = pending (pass s) ->
  future_to_path (pass s') = future_to_path (pass s) ->
  next_future s' = next_future s ->
  PendInv W s -> PendInv W s'.
Proof.
  unfold PendInv. intros -> -> ->. tauto.
Qed.

Lemma PendInv_register (W : nat) (s : State) (p : string) (k : nat)
    (ks : list string) (i : nat) :
  PendInv W s -> (length (pending (pass s)) < W)%nat ->
  PendInv W (register_future s p k ks i).
Proof.
  intros (Hnd & Hfresh & Hpath & Hlen) Hlt. unfold PendInv. simpl.
  repeat split.
  - apply NoDup_cons. split; [|exact Hnd].
    intros Hin. apply Hfresh in Hin. lia.
  - intros f Hf. apply elem_of_cons in Hf as [->|Hf]; [lia|].
    apply Hfresh in Hf. lia.
  - intros f Hf. apply elem_of_cons in Hf as [->|Hf].
    + rewrite lookup_insert_eq. eauto.
    + destruct (decide (next_future s = f)) as [->|Hne].
      * rewrite lookup_insert_eq. eauto.
      * rewrite lookup_insert_ne by exact Hne. apply Hpath, Hf.
  - lia.
Qed.

Lemma PendInv_discard (W : nat) (s : State) (f : nat) :
  PendInv W s -> PendInv W (set_pending s (discard f (pending (pass s)))).
Proof.
  intros (Hnd & Hfresh & Hpath & Hlen). unfold PendInv, discard. simpl.
  repeat split.
  - apply NoDup_filter, Hnd.
  - intros g Hg. apply list_elem_of_filter in Hg as [_ Hg]. apply Hfresh, Hg.
  - intros g Hg. apply list_elem_of_filter in Hg as [_ Hg]. apply Hpath, Hg.
  - pose proof (length_filter (fun g => g <> f) (pending (pass s))). lia.
Qed.

Lemma discard_absent (f : nat) (l : list nat) : f ∉ l -> discard f l = l.
Proof.
  unfold discard. induction l as [|b l IH]; intros Hf; [reflexivity|].
  apply not_elem_of_cons in Hf as [Hb Hf]. rewrite filter_cons.
  destruct (decide (b <> f)) as [_|Hn]; [f_equal; auto|].
  exfalso. apply Hn. congruence.
Qed.

Lemma length_discard (f : nat) (l : list nat) :
  f ∈ l -> NoDup l -> S (length (discard f l)) = length l.
Proof.
  induction l as [|a l IH]; intros Hin Hnd.
  - inversion Hin.
  - apply NoDup_cons in Hnd as [Ha Hnd]. unfold discard. rewrite filter_cons.
    destruct (decide (a <> f)) as [Hne|Heq].
    + simpl. f_equal. apply IH; [|exact Hnd].
      apply elem_of_cons in Hin as [->|Hin]; [congruence|exact Hin].
    + assert (a = f) by (destruct (decide (a = f)); [assumption|contradiction]).
      subst a. simpl. f_equal. f_equal. apply (discard_absent f l Ha).
Qed.

Section Pool.
Context (E : Env) (cfg : Config).
Context (handle : nat -> State -> State) (on_error : string -> State -> State).
Context (P : State -> Prop).
Hypothesis HP : Closed E cfg handle on_error P.
Hypothesis handle_pass : forall f s, pass (handle f s) = pass s.
Hypothesis handle_next : forall f s, next_future (handle f s) = next_future s.
Hypothesis on_error_pass : forall p s, pass (on_error p s) = pass s.
Hypothesis on_error_next : forall p s, next_future (on_error p s) = next_future s.

Lemma submit_loop_inv (q : list string) :
  forall s,
    queue (pass s) = q -> PendInv (num_workers cfg) s -> P s ->
    (length (pending (pass s)) < num_workers cfg)%nat ->
    PendInv (num_workers cfg) (submit_loop E cfg on_error q s).2 /\
    P (submit_loop E cfg on_error q s).2 /\
    (forall g, g ∈ pending (pass s) ->
               g ∈ pending (pass (submit_loop E cfg on_error q s).2)).
Proof.
  induction q as [|p rest IH]; intros s Hq HI Hs Hlt.
  - simpl. split; [|split].
    + eapply PendInv_core; [| | |exact HI]; reflexivity.
    + apply (cl_exhaust _ _ _ _ _ HP); assumption.
    + intros g Hg. exact Hg.
  - simpl.
    destruct (negb (path_exists E (clock s) p)
              || bool_decide (p ∈ submitted (pass s))) eqn:Hskip.
    + destruct (IH (record_event (set_clock (set_queue s rest) (S (clock s)))
                      (EvSkip p))) as (H1 & H2 & H3).
      * reflexivity.
      * eapply PendInv_core; [| | |exact HI]; reflexivity.
      * apply (cl_skip _ _ _ _ _ HP (set_clock s (S (clock s))) p rest (clock s));
          [apply (cl_clock _ _ _ _ _ HP), Hs | exact Hq |].
        apply orb_true_iff in Hskip as [Hgone|Hdup].
        -- left. apply negb_true_iff in Hgone. exact Hgone.
        -- right. apply bool_decide_eq_true in Hdup. exact Hdup.
      * exact Hlt.
      * split; [exact H1|]. split; [exact H2 | exact H3].
    + apply orb_false_iff in Hskip as [_ Hsub].
      apply bool_decide_eq_false in Hsub.
      set (s1 := set_clock (set_queue s rest) (S (clock s))).
      assert (Hcool : exists c i,
        (if (0 <? delay_seconds cfg)%Z && last_submit_set (pass s)
         then cooldown E (cooldown_polls E (S (clock s))) s1
         else (false, s1)) = (i, set_clock (set_queue s rest) c) /\
        (i = true -> exists t, stop_signal E t || force_stop s = true)).
      { destruct ((0 <? delay_seconds cfg)%Z && last_submit_set (pass s)).
        - destruct (cooldown_spec E (cooldown_polls E (S (clock s))) s1)
            as (c & Heq & Hint).
          exists c, (cooldown E (cooldown_polls E (S (clock s))) s1).1.
          split; [|exact Hint].
          rewrite (surjective_pairing (cooldown E _ s1)). rewrite Heq. reflexivity.
        - exists (S (clock s)), false. split; [reflexivity | discriminate]. }
      destruct Hcool as (c & i & Heq & Hint).
      change (set_clock (set_queue s rest) (S (clock (set_queue s rest)))) with s1.
      change (clock s1) with (S (clock s)).
      change (last_submit_set (pass s1)) with (last_submit_set (pass s)).
      rewrite Heq. destruct i.
      * destruct (Hint eq_refl) as [t Ht]. simpl. split; [|split].
        -- eapply PendInv_core; [| | |exact HI]; reflexivity.
        -- apply (cl_abandon _ _ _ _ _ HP (set_clock s c) p rest t);
             [apply (cl_clock _ _ _ _ _ HP), Hs | exact Hq | exact Ht].
        -- intros g Hg; exact Hg.
      * unfold should_stop.
        destruct (stop_signal E (clock (set_clock (set_queue s rest) c))
                  || force_stop (set_clock (set_queue s rest) c)) eqn:Hb.
        -- simpl. split; [|split].
           ++ eapply PendInv_core; [| | |exact HI]; reflexivity.
           ++ apply (cl_abandon _ _ _ _ _ HP (set_clock s (S c)) p rest c);
                [apply (cl_clock _ _ _ _ _ HP), Hs | exact Hq | exact Hb].
           ++ intros g Hg; exact Hg.
        -- destruct (length (api_keys cfg)) eqn:Hn.
           ++ apply length_zero_iff_nil in Hn.
              set (s3 := set_clock (set_queue s rest) (S c)).
              assert (HI3 : PendInv (num_workers cfg) s3)
                by (eapply PendInv_core; [| | |exact HI]; reflexivity).
              destruct (IH (on_error p s3)) as (H1 & H2 & H3).
              ** rewrite on_error_pass. reflexivity.
              ** eapply PendInv_core; [| | |exact HI3];
                   rewrite ?on_error_pass, ?on_error_next; reflexivity.
              ** apply (cl_error _ _ _ _ _ HP (set_clock s (S c)) p rest);
                   [apply (cl_clock _ _ _ _ _ HP), Hs | exact Hq | exact Hn].
              ** rewrite on_error_pass. exact Hlt.
              ** split; [exact H1|]. split; [exact H2|].
                 intros g Hg. apply H3. rewrite on_error_pass. exact Hg.
           ++ assert (Hkeys : api_keys cfg <> [])
                by (intros Hnil; rewrite Hnil in Hn; discriminate).
              rewrite <- Hn. simpl. split; [|split].
              ** apply PendInv_register; [|exact Hlt].
                 eapply PendInv_core; [| | |exact HI]; reflexivity.
              ** apply (cl_submit _ _ _ _ _ HP (set_clock s (S c)) p rest);
                   try assumption.
                 apply (cl_clock _ _ _ _ _ HP), Hs.
              ** intros g Hg. apply elem_of_cons. right. exact Hg.
Qed.

Lemma prefill_inv (fuel : nat) :
  forall s s',
    prefill E cfg on_error fuel s = Some s' ->
    PendInv (num_workers cfg) s -> P s ->
    PendInv (num_workers cfg) s' /\ P s'.
Proof.
  induction fuel as [|fuel IH]; intros s s' Hrun HI Hs; [discriminate|].
  simpl in Hrun.
  destruct (Nat.ltb_spec (length (pending (pass s))) (num_workers cfg)) as [Hlt|Hge].
  - destruct (stop_signal E (clock s) || force_stop s).
    + inversion Hrun; subst s'. split.
      * eapply PendInv_core; [| | |exact HI]; reflexivity.
      * apply (cl_clock _ _ _ _ _ HP), Hs.
    + set (s1 := set_clock s (S (clock s))) in *.
      destruct (submit_loop_inv (queue (pass s)) s1) as (H1 & H2 & _).
      * reflexivity.
      * eapply PendInv_core; [| | |exact HI]; reflexivity.
      * apply (cl_clock _ _ _ _ _ HP), Hs.
      * exact Hlt.
      * destruct (submit_loop E cfg on_error (queue (pass s)) s1) as [ok s2].
        simpl in H1, H2. destruct ok.
        -- apply (IH s2 s' Hrun H1 H2).
        -- inversion Hrun; subst s'. split; assumption.
  - inversion Hrun; subst s'. split; assumption.
Qed.

Lemma drain_inv (done_set : list nat) :
  forall s,
    NoDup done_set ->
    (forall f, f ∈ done_set -> f ∈ pending (pass s)) ->
    PendInv (num_workers cfg) s -> P s ->
    PendInv (num_workers cfg) (drain E cfg handle on_error done_set s) /\
    P (drain E cfg handle on_error done_set s).
Proof.
  induction done_set as [|f rest IH]; intros s Hnd Hsub HI Hs; [split; assumption|].
  apply NoDup_cons in Hnd as [Hf Hnd]. simpl.
  assert (Hfin : f ∈ pending (pass s)) by (apply Hsub; left).
  set (s1 := handle f (record_event
               (set_pending s (discard f (pending (pass s))))
               (EvCollect f (default "" (future_to_path (pass s) !! f)) (outcome E f)))).
  assert (Hp1 : pass s1 = pass (set_pending s (discard f (pending (pass s)))))
    by (unfold s1; rewrite handle_pass; reflexivity).
  assert (HI1 : PendInv (num_workers cfg) s1).
  { eapply PendInv_core; [| | |exact (PendInv_discard _ s f HI)].
    - rewrite Hp1. reflexivity.
    - rewrite Hp1. reflexivity.
    - unfold s1. rewrite handle_next. reflexivity. }
  assert (Hs1 : P s1) by (apply (cl_collect _ _ _ _ _ HP); assumption).
  assert (Hlen1 : (length (pending (pass s1)) < num_workers cfg)%nat).
  { rewrite Hp1. simpl. destruct HI as (Hn & _ & _ & Hl).
    pose proof (length_discard f _ Hfin Hn). lia. }
  assert (Hrest1 : forall g, g ∈ rest -> g ∈ pending (pass s1)).
  { intros g Hg. rewrite Hp1. simpl. unfold discard.
    apply list_elem_of_filter. split.
    - intros ->. contradiction.
    - apply Hsub. right. exact Hg. }
  change (handle f _) with s1. unfold should_stop.
  destruct (stop_signal E (clock s1) || force_stop s1).
  - apply IH; [exact Hnd | | |].
    + exact Hrest1.
    + eapply PendInv_core; [| | |exact HI1]; reflexivity.
    + apply (cl_clock _ _ _ _ _ HP), Hs1.
  - set (s2 := set_clock s1 (S (clock s1))).
    destruct (submit_loop_inv (queue (pass s2)) s2) as (H1 & H2 & H3).
    + reflexivity.
    + eapply PendInv_core; [| | |exact HI1]; reflexivity.
    + apply (cl_clock _ _ _ _ _ HP), Hs1.
    + exact Hlen1.
    + apply IH; [exact Hnd | | exact H1 | exact H2].
      intros g Hg. apply H3. apply Hrest1, Hg.
Qed.

Lemma sliding_window_inv (fuel : nat) :
  forall s s',
    sliding_window E cfg handle on_error fuel s = Some s' ->
    PendInv (num_workers cfg) s -> P s ->
    PendInv (num_workers cfg) s' /\ P s'.
Proof.
  induction fuel as [|fuel IH]; intros s s' Hrun HI Hs; [discriminate|].
  simpl in Hrun. destruct (pending (pass s)) as [|f0 l0] eqn:Hpend.
  - inversion Hrun; subst s'. split; assumption.
  - destruct (stop_signal E (clock s) || force_stop s).
    + inversion Hrun; subst s'. split.
      * eapply PendInv_core; [| | |exact HI]; reflexivity.
      * repeat apply (cl_clock _ _ _ _ _ HP); exact Hs.
    + simpl in Hrun.
      destruct (stop_signal E (S (S (clock s))) || force_stop s).
      * inversion Hrun; subst s'. split.
        -- eapply PendInv_core; [| | |exact HI]; reflexivity.
        -- repeat apply (cl_clock _ _ _ _ _ HP); exact Hs.
      * set (s3 := set_clock (set_clock (set_clock s (S (clock s)))
                                (S (S (clock s)))) (S (S (S (clock s))))) in *.
        set (done_set :=
               filter (fun f => finished E (S (clock s)) f = true) (f0 :: l0)) in *.
        destruct (drain_inv done_set s3) as (H1 & H2).
        -- apply NoDup_filter. rewrite <- Hpend. apply HI.
        -- intros f Hf. apply list_elem_of_filter in Hf as [_ Hf].
           simpl. rewrite Hpend. exact Hf.
        -- eapply PendInv_core; [| | |exact HI]; reflexivity.
        -- repeat apply (cl_clock _ _ _ _ _ HP); exact Hs.
        -- apply (IH _ s' Hrun H1 H2).
Qed.
End Pool.

(** ** The two handler pairs *)

Lemma frame_first_pass (E : Env) : Frame (_handle_result E) first_pass_error.
Proof.
  split.
  - intros f s. unfold _handle_result.
    destruct (outcome E f); repeat case_match; simpl; auto.
  - intros p s. simpl. auto.
Qed.

Lemma frame_retry (E : Env) : Frame (retry_handle E) retry_error.
Proof.
  split.
  - intros f s. unfold retry_handle.
    destruct (outcome E f); repeat case_match; simpl; auto.
  - intros p s. simpl. auto.
Qed.

(** ** The concurrency bound and the rotation, within a pass *)

Lemma Bounded_cons (W : nat) (e : Event) (h : list Event) :
  Bounded W h -> (length (in_flight (e :: h)) <= W)%nat -> Bounded W (e :: h).
Proof.
  intros Hb Hl h' [k Hk]. destruct k as [|x k]; simpl in Hk.
  - subst h'. exact Hl.
  - inversion Hk; subst. apply Hb. exists k. reflexivity.
Qed.

Lemma Bounded_nil (W : nat) : Bounded W [].
Proof.
  intros h' Hsuf. apply suffix_nil_inv in Hsuf. subst h'. simpl. lia.
Qed.

Lemma Bounded_head (W : nat) (h : list Event) :
  Bounded W h -> (length (in_flight h) <= W)%nat.
Proof. intros Hb. apply Hb. reflexivity. Qed.

Lemma KeyInv_submit (keys : list string) (s : State) (p : string) :
  keys <> [] -> KeyInv keys s ->
  let n := length keys in
  let key_index := (current_api_key_index s mod n)%nat in
  forall s',
    journal s' = EvSubmit (next_future s) p key_index
                   [default "" (keys !! key_index)] :: journal s ->
    current_api_key_index s' = ((current_api_key_index s + 1) mod n)%nat ->
    KeyInv keys s'.
Proof.
  intros Hne [Hsub Hidx] n key_index s' Hj Hi.
  assert (Hn : (0 < n)%nat).
  { subst n. destruct keys; [congruence | simpl; lia]. }
  specialize (Hidx Hn). fold n in Hidx.
  assert (Hki : key_index = (length (submissions (journal s)) mod n)%nat).
  { subst key_index. rewrite Hidx. apply Nat.Div0.mod_mod. }
  unfold KeyInv. fold n. rewrite Hj. simpl. split.
  - intros k ki ks Hk.
    apply lookup_snoc_Some in Hk as [[Hlt Hk]|[Hlen Heq]].
    + apply (Hsub k ki ks Hk).
    + inversion Heq; subst ki ks. rewrite Hlen. split; [exact Hki|].
      assert (Hb : (key_index < length keys)%nat)
        by (subst key_index; apply Nat.mod_upper_bound; lia).
      destruct (lookup_lt_is_Some_2 keys key_index Hb) as [key Hkey].
      exists key. rewrite Hkey. split; reflexivity.
  - intros _. rewrite Hi, length_app. simpl. rewrite Hidx.
    rewrite Nat.Div0.add_mod_idemp_l. reflexivity.
Qed.

Lemma KeyInv_same (keys : list string) (s s' : State) :
  submissions (journal s') = submissions (journal s) ->
  current_api_key_index s' = current_api_key_index s ->
  KeyInv keys s -> KeyInv keys s'.
Proof. unfold KeyInv. intros -> ->. tauto. Qed.

Lemma busy_closed (E : Env) (cfg : Config) (handle : nat -> State -> State)
    (on_error : string -> State -> State) :
  Frame handle on_error ->
  Closed E cfg handle on_error (BusyInv (num_workers cfg) (api_keys cfg)).
Proof.
  intros [Hh He]. split.
  - intros s c H. exact H.
  - intros s p rest t [[Hf Hb] Hk] _ _. split; [split|].
    + exact Hf.
    + apply Bounded_cons; [exact Hb|]. simpl. apply Bounded_head, Hb.
    + exact Hk.
  - intros s p rest t [[Hf Hb] Hk] _ _. split; [split|].
    + exact Hf.
    + apply Bounded_cons; [exact Hb|]. simpl. apply Bounded_head, Hb.
    + exact Hk.
  - intros s p rest [[Hf Hb] Hk] _ _.
    destruct (He p (set_queue s rest)) as (Hp & _ & Hj & Hi & _).
    split; [split|].
    + rewrite Hj, Hp. exact Hf.
    + rewrite Hj. apply Bounded_cons; [exact Hb|]. simpl. apply Bounded_head, Hb.
    + eapply KeyInv_same; [| |exact Hk]; [rewrite Hj|rewrite Hi]; reflexivity.
  - intros s p rest [[Hf Hb] Hk] HI _ _ Hlt Hkeys n key_index. split; [split|].
    + simpl. rewrite Hf. reflexivity.
    + apply Bounded_cons; [exact Hb|]. simpl. rewrite Hf. lia.
    + eapply (KeyInv_submit (api_keys cfg) s p Hkeys Hk); reflexivity.
  - intros s [[Hf Hb] Hk] _. split; [split|]; assumption.
  - intros s f [[Hf Hb] Hk] HI Hin.
    match goal with |- BusyInv _ _ (handle f ?s0) =>
      destruct (Hh f s0) as (Hp & _ & Hj & Hi & _) end.
    split; [split|].
    + rewrite Hj, Hp. simpl. rewrite Hf. reflexivity.
    + rewrite Hj. apply Bounded_cons; [exact Hb|]. simpl. rewrite Hf.
      pose proof (length_filter (fun g => g <> f) (pending (pass s))).
      destruct HI as (_ & _ & _ & Hl). unfold discard. lia.
    + eapply KeyInv_same; [| |exact Hk]; [rewrite Hj|rewrite Hi]; reflexivity.
Qed.

(** ** From pass to pass *)

Lemma PendInv_fresh (W : nat) (s : State) (q : list string) :
  PendInv W (set_rtally (set_pass s (fresh_pass q)) fresh_rtally).
Proof.
  unfold PendInv. simpl. repeat split.
  - apply NoDup_nil_2.
  - intros f Hf. inversion Hf.
  - intros f Hf. inversion Hf.
  - lia.
Qed.

Lemma PendInv_fresh_pass (W : nat) (s : State) (q : list string) :
  PendInv W (set_pass s (fresh_pass q)).
Proof.
  unfold PendInv. simpl. repeat split.
  - apply NoDup_nil_2.
  - intros f Hf. inversion Hf.
  - intros f Hf. inversion Hf.
  - lia.
Qed.

Lemma retryable_failed_clock (E : Env) (l : list (string * string * nat)) :
  forall s, exists c, (retryable_failed E l s).2 = set_clock s c.
Proof.
  induction l as [|[[fp st] att] l IH]; intros s; simpl.
  - exists (clock s). symmetry. apply set_clock_id.
  - destruct (String.eqb fp ""); [apply IH|].
    destruct (path_exists E (clock s) fp && is_retryable st att).
    + destruct (IH (set_clock s (S (clock s)))) as [c Hc].
      destruct (retryable_failed E l (set_clock s (S (clock s)))) as [r s2].
      simpl in *. exists c. exact Hc.
    + destruct (IH (set_clock s (S (clock s)))) as [c Hc]. exists c. exact Hc.
Qed.

Lemma next_retry_files_clock (E : Env) (reg : list (string * string * nat))
    (cur : list string) :
  forall s, exists c, (next_retry_files E reg cur s).2 = set_clock s c.
Proof.
  induction cur as [|p cur IH]; intros s; simpl.
  - exists (clock s). symmetry. apply set_clock_id.
  - destruct (String.eqb p ""); [apply IH|].
    destruct (path_exists E (clock s) p).
    + destruct (find_failed p reg) as [st att].
      destruct (is_retryable st att).
      * destruct (IH (set_clock s (S (clock s)))) as [c Hc].
        destruct (next_retry_files E reg cur (set_clock s (S (clock s)))) as [r s2].
        simpl in *. exists c. exact Hc.
      * destruct (IH (set_clock s (S (clock s)))) as [c Hc]. exists c. exact Hc.
    + destruct (IH (set_clock s (S (clock s)))) as [c Hc]. exists c. exact Hc.
Qed.

Lemma enumerate_clock (E : Env) (cfg : Config) (l : list string) :
  forall acc s, exists c, (enumerate E cfg l acc s).2 = set_clock s c.
Proof.
  induction l as [|x l IH]; intros acc s; simpl.
  - exists (clock s). symmetry. apply set_clock_id.
  - destruct (stop_signal E (clock s) || force_stop s); simpl.
    + exists (S (clock s)). reflexivity.
    + destruct (endswith_any (lower x) (ALL_SUPPORTED_EXTENSIONS cfg)
                && negb (startswith x ".")); simpl.
      * destruct (path_isfile E (S (clock s)) (path_join (input_dir cfg) x)).
        -- destruct (IH (acc ++ [path_join (input_dir cfg) x])%list
                       (set_clock (set_clock s (S (clock s))) (S (S (clock s)))))
             as [c Hc]. exists c. exact Hc.
        -- destruct (IH acc (set_clock (set_clock s (S (clock s))) (S (S (clock s)))))
             as [c Hc]. exists c. exact Hc.
      * destruct (IH acc (set_clock s (S (clock s)))) as [c Hc]. exists c. exact Hc.
Qed.

Lemma keep_existing_clock (E : Env) (l : list string) :
  forall s, exists c, (keep_existing E l s).2 = set_clock s c.
Proof.
  induction l as [|x l IH]; intros s; simpl.
  - exists (clock s). symmetry. apply set_clock_id.
  - destruct (IH (set_clock s (S (clock s)))) as [c Hc].
    destruct (keep_existing E l (set_clock s (S (clock s)))) as [r s2].
    simpl in *. exists c. exact Hc.
Qed.

Section Chain.
Context (E : Env) (cfg : Config) (Ppass Pidle : State -> Prop).
Hypothesis Hclosed : Closed E cfg (retry_handle E) retry_error Ppass.
Hypothesis Hidle_clock : forall s c, Pidle s -> Pidle (set_clock s c).
Hypothesis Henter : forall s files,
  Pidle s -> Ppass (set_rtally (set_pass s (fresh_pass files)) fresh_rtally).
Hypothesis Hcancel : forall s f, Ppass s -> Ppass (record_event s (EvCancel f)).
Hypothesis Hleave : forall s, Ppass s -> Pidle (record_event s EvShutdown).

Lemma cancel_events_inv (l : list nat) :
  forall s, Ppass s -> Ppass (foldl (fun s f => record_event s (EvCancel f)) s l).
Proof.
  induction l as [|f l IH]; intros s Hs; simpl; [exact Hs|].
  apply IH, Hcancel, Hs.
Qed.

Lemma retry_round_chain (fuel : nat) (files files' : list string) (s s' : State) :
  retry_round E cfg fuel files s = Some (files', s') -> Pidle s -> Pidle s'.
Proof.
  unfold retry_round. intros Hrun Hs.
  set (s0 := set_rtally (set_pass s (fresh_pass files)) fresh_rtally) in *.
  destruct (prefill E cfg retry_error (S (num_workers cfg)) s0) as [s1|] eqn:Hpre;
    [|discriminate].
  simpl in Hrun.
  destruct (sliding_window E cfg (retry_handle E) retry_error fuel s1) as [s2|] eqn:Hsl;
    [|discriminate].
  simpl in Hrun.
  destruct (frame_retry E) as [Hh He].
  assert (H1 : PendInv (num_workers cfg) s1 /\ Ppass s1).
  { eapply (prefill_inv E cfg (retry_handle E) retry_error Ppass Hclosed);
      [apply He | apply He | exact Hpre | apply PendInv_fresh | apply Henter, Hs]. }
  assert (H2 : PendInv (num_workers cfg) s2 /\ Ppass s2).
  { eapply (sliding_window_inv E cfg (retry_handle E) retry_error Ppass Hclosed);
      [apply Hh | apply Hh | apply He | apply He | exact Hsl | apply H1 | apply H1]. }
  destruct H2 as [_ H2].
  match type of Hrun with
  | Some (next_retry_files E ?reg ?cur ?s5) = _ =>
      destruct (next_retry_files_clock E reg cur s5) as [c Hc];
      assert (H5 : Pidle s5)
  end.
  { apply Hleave. unfold should_stop.
    destruct (stop_signal E (clock s2) || force_stop s2).
    - unfold cancel_remaining. simpl. apply cancel_events_inv.
      repeat apply (cl_clock _ _ _ _ _ Hclosed). exact H2.
    - apply (cl_clock _ _ _ _ _ Hclosed). exact H2. }
  inversion Hrun as [Hrun']. rewrite (surjective_pairing (next_retry_files _ _ _ _)) in Hrun'.
  inversion Hrun'; subst. rewrite Hc. apply Hidle_clock, H5.
Qed.

Lemma retry_loop_chain (fuel : nat) :
  forall files k s files' k' s',
    retry_loop E cfg fuel files k s = Some (files', k', s') -> Pidle s -> Pidle s'.
Proof.
  induction fuel as [|fuel IH]; intros files k s files' k' s' Hrun Hs; [discriminate|].
  simpl in Hrun. destruct files as [|p files].
  - inversion Hrun; subst. exact Hs.
  - destruct (stop_signal E (clock s) || force_stop s).
    + inversion Hrun; subst. apply Hidle_clock, Hs.
    + destruct (retry_round E cfg fuel (p :: files) (set_clock s (S (clock s))))
        as [[files1 s1]|] eqn:Hround; [|discriminate].
      simpl in Hrun.
      assert (H1 : Pidle s1)
        by (eapply retry_round_chain; [exact Hround | apply Hidle_clock, Hs]).
      destruct ((retry_processed (rtally s1) =? 0)%Z && (length files1 =? 0)%nat).
      * inversion Hrun; subst. exact H1.
      * eapply IH; [exact Hrun | exact H1].
Qed.

Lemma auto_retry_chain (fuel : nat) (s s' : State) :
  auto_retry E cfg fuel s = Some s' -> Pidle s -> Pidle s'.
Proof.
  unfold auto_retry. intros Hrun Hs.
  destruct (auto_retry_enabled cfg && (0 <? failed_count (tally s))%Z).
  - unfold should_stop in Hrun at 1.
    destruct (stop_signal E (clock s) || force_stop s).
    + inversion Hrun; subst. apply Hidle_clock, Hs.
    + destruct (retryable_failed_clock E (failed_files (set_clock s (S (clock s))))
                  (set_clock s (S (clock s)))) as [c Hc].
      destruct (retryable_failed E _ (set_clock s (S (clock s)))) as [rf s2].
      simpl in Hc. subst s2.
      destruct (retry_loop E cfg fuel (map (fun e => e.1.1) rf) 1
                  (set_clock (set_clock s (S (clock s))) c))
        as [[[files' k'] s3]|] eqn:Hloop; [|discriminate].
      simpl in Hrun.
      assert (H3 : Pidle s3).
      { eapply retry_loop_chain; [exact Hloop|]. repeat apply Hidle_clock. exact Hs. }
      destruct files'; inversion Hrun; subst; [exact H3|].
      apply Hidle_clock, H3.
  - inversion Hrun; subst. exact Hs.
Qed.
End Chain.

(** ** The whole run: concurrency bound and credential rotation *)

Lemma BusyInv_core (W : nat) (keys : list string) (s s' : State) :
  pass s' = pass s -> journal s' = journal s ->
  current_api_key_index s' = current_api_key_index s ->
  BusyInv W keys s -> BusyInv W keys s'.
Proof.
  unfold BusyInv, FlightInv, KeyInv. intros -> -> ->. tauto.
Qed.

Lemma BusyInv_cancel (W : nat) (keys : list string) (s : State) (f : nat) :
  BusyInv W keys s -> BusyInv W keys (record_event s (EvCancel f)).
Proof.
  intros [[Hf Hb] Hk]. split; [split|].
  - exact Hf.
  - apply Bounded_cons; [exact Hb|]. simpl. apply Bounded_head, Hb.
  - exact Hk.
Qed.

Lemma BusyInv_cancel_all (W : nat) (keys : list string) (l : list nat) :
  forall s, BusyInv W keys s ->
            BusyInv W keys (foldl (fun s f => record_event s (EvCancel f)) s l).
Proof.
  induction l as [|f l IH]; intros s Hs; simpl; [exact Hs|].
  apply IH, BusyInv_cancel, Hs.
Qed.

Lemma BusyInv_leave (W : nat) (keys : list string) (s : State) :
  BusyInv W keys s -> IdleInv W keys (record_event s EvShutdown).
Proof.
  intros [[Hf Hb] Hk]. split; [|split].
  - apply Bounded_cons; [exact Hb|]. simpl. lia.
  - exact Hk.
  - reflexivity.
Qed.

Lemma BusyInv_enter (W : nat) (keys : list string) (s : State) (q : list string) :
  IdleInv W keys s -> BusyInv W keys (set_pass s (fresh_pass q)).
Proof.
  intros (Hb & Hk & Hi). split; [split|]; assumption.
Qed.

Lemma cancel_stage_busy (E : Env) (W : nat) (keys : list string) (s : State) :
  BusyInv W keys s -> BusyInv W keys (cancel_stage E s).
Proof.
  intros Hs. unfold cancel_stage, should_stop.
  destruct (stop_signal E (clock s) || force_stop s); [|exact Hs].
  unfold cancel_remaining.
  match goal with
  | |- context [foldl ?g ?s0 ?l] =>
      pose proof (BusyInv_cancel_all W keys l s0 Hs) as Hc;
      set (sc := foldl g s0 l) in *
  end.
  simpl. destruct (0 <? _)%Z; [|exact Hc].
  eapply BusyInv_core; [| | |exact Hc]; reflexivity.
Qed.

Lemma first_pass_idle (E : Env) (cfg : Config) (fuel : nat) (s s' : State) :
  first_pass E cfg fuel s = Some s' ->
  PendInv (num_workers cfg) s ->
  BusyInv (num_workers cfg) (api_keys cfg) s ->
  IdleInv (num_workers cfg) (api_keys cfg) s'.
Proof.
  unfold first_pass. intros Hrun HI Hs.
  destruct (prefill E cfg first_pass_error (S (num_workers cfg)) s) as [s1|] eqn:Hpre;
    [|discriminate].
  simpl in Hrun.
  destruct (sliding_window E cfg (_handle_result E) first_pass_error fuel s1)
    as [s2|] eqn:Hsl; [|discriminate].
  simpl in Hrun. inversion Hrun; subst s'.
  destruct (frame_first_pass E) as [Hh He].
  pose proof (busy_closed E cfg _ _ (frame_first_pass E)) as Hcl.
  assert (H1 : PendInv (num_workers cfg) s1 /\ BusyInv (num_workers cfg) (api_keys cfg) s1).
  { eapply (prefill_inv E cfg _ _ _ Hcl);
      [apply He | apply He | exact Hpre | exact HI | exact Hs]. }
  assert (H2 : PendInv (num_workers cfg) s2 /\ BusyInv (num_workers cfg) (api_keys cfg) s2).
  { eapply (sliding_window_inv E cfg _ _ _ Hcl);
      [apply Hh | apply Hh | apply He | apply He | exact Hsl | apply H1 | apply H1]. }
  apply BusyInv_leave, cancel_stage_busy, H2.
Qed.

Lemma IdleInv_initial (W : nat) (keys : list string) : IdleInv W keys initial_state.
Proof.
  split; [|split].
  - apply Bounded_nil.
  - split.
    + intros k ki ks Hk. simpl in Hk. rewrite lookup_nil in Hk. discriminate.
    + intros Hn. simpl. symmetry. apply Nat.Div0.mod_0_l.
  - reflexivity.
Qed.

Lemma auto_retry_idle (E : Env) (cfg : Config) (fuel : nat) (s s' : State) :
  auto_retry E cfg fuel s = Some s' ->
  IdleInv (num_workers cfg) (api_keys cfg) s ->
  IdleInv (num_workers cfg) (api_keys cfg) s'.
Proof.
  apply (auto_retry_chain E cfg (BusyInv (num_workers cfg) (api_keys cfg))
           (IdleInv (num_workers cfg) (api_keys cfg))).
  - apply busy_closed, frame_retry.
  - intros s0 c H. exact H.
  - intros s0 files (Hb & Hk & Hi). split; [split|]; assumption.
  - intros s0 f. apply BusyInv_cancel.
  - intros s0. apply BusyInv_leave.
Qed.

Lemma run_files_idle (E : Env) (cfg : Config) (fuel : nat) (files : list string)
    (s s' : State) (sm : Summary) :
  run_files E cfg fuel files s = Some (sm, s') ->
  IdleInv (num_workers cfg) (api_keys cfg) s ->
  IdleInv (num_workers cfg) (api_keys cfg) s'.
Proof.
  unfold run_files. intros Hrun Hs.
  destruct (num_workers cfg) as [|w] eqn:HW.
  - inversion Hrun; subst. exact Hs.
  - rewrite <- HW in *.
    destruct (first_pass E cfg fuel (set_pass s (fresh_pass files))) as [s1|] eqn:H1;
      [|discriminate].
    simpl in Hrun.
    destruct (auto_retry E cfg fuel s1) as [s2|] eqn:H2; [|discriminate].
    simpl in Hrun. inversion Hrun; subst.
    eapply auto_retry_idle; [exact H2|].
    eapply first_pass_idle; [exact H1 | apply PendInv_fresh_pass | apply BusyInv_enter, Hs].
Qed.

Lemma batch_idle (E : Env) (cfg : Config) (fuel : nat) (sm : Summary) (s' : State) :
  batch_process_files E cfg fuel = Some (sm, s') ->
  IdleInv (num_workers cfg) (api_keys cfg) s'.
Proof.
  unfold batch_process_files. intros Hrun.
  pose proof (IdleInv_initial (num_workers cfg) (api_keys cfg)) as H0.
  unfold should_stop in Hrun at 1.
  destruct (stop_signal E (clock initial_state) || force_stop initial_state).
  { inversion Hrun; subst. exact H0. }
  destruct (listdir E) as [dir_list|]; [|inversion Hrun; subst; exact H0].
  match type of Hrun with
  | context [enumerate E cfg dir_list [] ?s0] =>
      destruct (enumerate_clock E cfg dir_list [] s0) as [c1 Hc1];
      destruct (enumerate E cfg dir_list [] s0) as [[files|] s1]
  end; simpl in Hc1; subst s1; [|inversion Hrun; subst; exact H0].
  match type of Hrun with
  | context [keep_existing E files ?s0] =>
      destruct (keep_existing_clock E files s0) as [c2 Hc2];
      destruct (keep_existing E files s0) as [files2 s2]
  end; simpl in Hc2; subst s2.
  destruct (Z.of_nat (length files2) =? 0)%Z; [inversion Hrun; subst; exact H0|].
  unfold should_stop in Hrun at 1.
  match type of Hrun with
  | context [if ?b then _ else _] => destruct b
  end; [inversion Hrun; subst; exact H0|].
  eapply run_files_idle; [exact Hrun | exact H0].
Qed.

(** C7: at every point of a run, first pass and retry rounds alike, the
    jobs submitted and not yet collected number at most the configured
    worker count. *)
Theorem in_flight_bounded (E : Env) (cfg : Config) (fuel : nat)
    (sm : Summary) (s' : State) :
  batch_process_files E cfg fuel = Some (sm, s') ->
  forall h, h `suffix_of` journal s' ->
            (length (in_flight h) <= num_workers cfg)%nat.
Proof.
  intros Hrun. destruct (batch_idle E cfg fuel sm s' Hrun) as (Hb & _ & _). exact Hb.
Qed.

(** C8: counting the submissions of the whole run in order, the [k]-th
    one carries credential number [k mod len(api_keys)], and the job
    receives a list holding exactly that credential. *)
Theorem round_robin_credentials (E : Env) (cfg : Config) (fuel : nat)
    (sm : Summary) (s' : State) :
  batch_process_files E cfg fuel = Some (sm, s') ->
  forall k ki ks,
    submissions (journal s') !! k = Some (ki, ks) ->
    ki = (k mod length (api_keys cfg))%nat /\
    exists key, api_keys cfg !! ki = Some key /\ ks = [key].
Proof.
  intros Hrun. destruct (batch_idle E cfg fuel sm s' Hrun) as (_ & [Hk _] & _). exact Hk.
Qed.

Lemma calm_run_ends : calm_run = Some (summary_of calm_run, state_of calm_run).
Proof. vm_compute. reflexivity. Qed.

Lemma in_flight_bounded_witness :
  (length (in_flight (drop 4 (journal (state_of calm_run)))) <= 2)%nat.
Proof.
  apply (in_flight_bounded calm_env (demo_config 2 true) 20
           (summary_of calm_run) (state_of calm_run)).
  - vm_compute. reflexivity.
  - apply suffix_drop.
Defined.

Lemma round_robin_credentials_witness :
  1%nat = (3 mod length (api_keys (demo_config 2 true)))%nat /\
  exists key, api_keys (demo_config 2 true) !! 1%nat = Some key /\ ["k1"] = [key].
Proof.
  apply (round_robin_credentials calm_env (demo_config 2 true) 20
           (summary_of calm_run) (state_of calm_run)).
  - vm_compute. reflexivity.
  - vm_compute. reflexivity.
Defined.

(** ** A pass that is never cancelled *)

Lemma cooldown_quiet (E : Env) (n : nat) :
  never_cancelled E ->
  forall s, force_stop s = false -> (cooldown E n s).1 = false.
Proof.
  intros Hq. induction n as [|n IH]; intros s Hf; simpl; [reflexivity|].
  rewrite Hq, Hf. simpl. apply IH. exact Hf.
Qed.

Section Quiet.
Context (E : Env) (cfg : Config).
Context (handle : nat -> State -> State) (on_error : string -> State -> State).
Hypothesis Hframe : Frame handle on_error.
Hypothesis Hquiet : never_cancelled E.

Lemma submit_loop_quiet (q : list string) :
  forall s,
    force_stop s = false ->
    force_stop (submit_loop E cfg on_error q s).2 = false /\
    ((submit_loop E cfg on_error q s).1 = true ->
     pending (pass (submit_loop E cfg on_error q s).2) <> []) /\
    ((submit_loop E cfg on_error q s).1 = false ->
     queue (pass (submit_loop E cfg on_error q s).2) = []).
Proof.
  destruct Hframe as [_ He].
  induction q as [|p rest IH]; intros s Hf; simpl.
  - split; [exact Hf|]. split; [discriminate | reflexivity].
  - destruct (negb (path_exists E (clock s) p)
              || bool_decide (p ∈ submitted (pass s))).
    + apply IH. exact Hf.
    + set (s1 := set_clock (set_queue s rest) (S (clock s))).
      assert (Hcool : exists c,
        (if (0 <? delay_seconds cfg)%Z && last_submit_set (pass s)
         then cooldown E (cooldown_polls E (S (clock s))) s1
         else (false, s1)) = (false, set_clock (set_queue s rest) c)).
      { destruct ((0 <? delay_seconds cfg)%Z && last_submit_set (pass s)).
        - destruct (cooldown_spec E (cooldown_polls E (S (clock s))) s1) as (c & Heq & _).
          pose proof (cooldown_quiet E (cooldown_polls E (S (clock s))) Hquiet s1 Hf) as Hi.
          exists c. rewrite (surjective_pairing (cooldown E _ s1)), Heq, Hi. reflexivity.
        - exists (S (clock s)). reflexivity. }
      destruct Hcool as (c & Heq).
      change (set_clock (set_queue s rest) (S (clock (set_queue s rest)))) with s1.
      change (clock s1) with (S (clock s)).
      change (last_submit_set (pass s1)) with (last_submit_set (pass s)).
      rewrite Heq. unfold should_stop. simpl. rewrite !Hquiet, !Hf. simpl.
      destruct (length (api_keys cfg)) eqn:Hn.
      * match goal with
        | |- context [submit_loop E cfg on_error rest (on_error p ?s3)] =>
            destruct (He p s3) as (_ & _ & _ & _ & Hfe);
            apply (IH (on_error p s3)); rewrite Hfe; exact Hf
        end.
      * simpl. split; [exact Hf|]. split; [intros _; discriminate | discriminate].
Qed.

Lemma prefill_quiet (fuel : nat) :
  forall s s',
    prefill E cfg on_error fuel s = Some s' ->
    force_stop s = false -> (1 <= num_workers cfg)%nat ->
    Saturated s' /\ force_stop s' = false.
Proof.
  induction fuel as [|fuel IH]; intros s s' Hrun Hf HW; [discriminate|].
  simpl in Hrun.
  destruct (Nat.ltb_spec (length (pending (pass s))) (num_workers cfg)) as [Hlt|Hge].
  - rewrite Hquiet, Hf in Hrun. simpl in Hrun.
    set (s1 := set_clock s (S (clock s))) in *.
    destruct (submit_loop_quiet (queue (pass s)) s1 Hf) as (H1 & H2 & H3).
    destruct (submit_loop E cfg on_error (queue (pass s)) s1) as [ok s2].
    simpl in H1, H2, H3. destruct ok.
    + apply (IH s2 s' Hrun H1 HW).
    + inversion Hrun; subst s'. split; [left; apply H3; reflexivity | exact H1].
  - inversion Hrun; subst s'. split; [|exact Hf].
    right. intros Hnil. rewrite Hnil in Hge. simpl in Hge. lia.
Qed.

Lemma drain_quiet (done_set : list nat) :
  forall s,
    Saturated s -> force_stop s = false ->
    Saturated (drain E cfg handle on_error done_set s) /\
    force_stop (drain E cfg handle on_error done_set s) = false.
Proof.
  destruct Hframe as [Hh _].
  induction done_set as [|f rest IH]; intros s Hsat Hf; [split; assumption|].
  simpl.
  match goal with |- context [handle f ?s0] => set (s1 := handle f s0) end.
  assert (Hf1 : force_stop s1 = false).
  { unfold s1. destruct (Hh f (record_event
      (set_pending s (discard f (pending (pass s))))
      (EvCollect f (default "" (future_to_path (pass s) !! f)) (outcome E f))))
      as (_ & _ & _ & _ & Hfs).
    rewrite Hfs. exact Hf. }
  unfold should_stop. rewrite Hquiet, Hf1. simpl orb. cbv iota.
  set (s2 := set_clock s1 (S (clock s1))).
  destruct (submit_loop_quiet (queue (pass s1)) s2 Hf1) as (H1 & H2 & H3).
  apply IH; [|exact H1].
  destruct (submit_loop E cfg on_error (queue (pass s1)) s2) as [ok s3].
  simpl in *. destruct ok; [right; apply H2; reflexivity | left; apply H3; reflexivity].
Qed.

Lemma sliding_window_quiet (fuel : nat) :
  forall s s',
    sliding_window E cfg handle on_error fuel s = Some s' ->
    Saturated s -> force_stop s = false ->
    pending (pass s') = [] /\ queue (pass s') = [] /\ force_stop s' = false.
Proof.
  induction fuel as [|fuel IH]; intros s s' Hrun Hsat Hf; [discriminate|].
  simpl in Hrun. destruct (pending (pass s)) as [|f0 l0] eqn:Hpend.
  - inversion Hrun; subst s'. split; [exact Hpend|]. split; [|exact Hf].
    destruct Hsat as [Hq|Hp]; [exact Hq | congruence].
  - rewrite Hquiet, Hf in Hrun. simpl in Hrun. rewrite ?Hquiet, ?Hf in Hrun.
    simpl in Hrun. rewrite ?Hquiet, ?Hf in Hrun. simpl in Hrun.
    match type of Hrun with
    | sliding_window _ _ _ _ _ (drain _ _ _ _ ?d ?s3) = _ =>
        destruct (drain_quiet d s3) as [H1 H2]
    end.
    + right. simpl. rewrite Hpend. discriminate.
    + exact Hf.
    + apply (IH _ s' Hrun H1 H2).
Qed.
End Quiet.

(** ** Accounting *)



(** A retry result leaves the sum of the four counters as it is: a success
    moves one unit from failed to processed, nothing else is touched. *)
Lemma retry_handle_counted (E : Env) (f : nat) (s : State) :
  counted (tally (retry_handle E f s)) = counted (tally s) /\
  stopped_count (tally (retry_handle E f s)) = stopped_count (tally s) /\
  skipped_count (tally (retry_handle E f s)) = skipped_count (tally s).
Proof.
  unfold retry_handle, counted.
  destruct (outcome E f); repeat case_match; simpl; repeat split; lia.
Qed.




Lemma SumInv_same (c : Z) (k : nat) (s s' : State) :
  counted (tally s') = counted (tally s) ->
  journal s' = journal s ->
  SumInv c k s -> SumInv c k s'.
Proof. unfold SumInv. intros -> ->. tauto. Qed.








(** ** Cancellation *)

Lemma cancel_events_tally (l : list nat) :
  forall s, tally (foldl (fun s f => record_event s (EvCancel f)) s l) = tally s.
Proof.
  induction l as [|f l IH]; intros s; simpl; [reflexivity|].
  rewrite IH. reflexivity.
Qed.

(** The end of the first pass: the futures that are pending and not done
    when the signal is seen are added to [stopped_count], and to nothing
    else but [completed_count]. *)
Lemma cancel_stage_counts (E : Env) (s : State) :
  (should_stop E s).1 = true ->
  let n := Z.of_nat (length (filter (fun f => finished E (S (clock s)) f = false)
                               (pending (pass s)))) in
  (stopped_count (tally (cancel_stage E s)) = stopped_count (tally s) + n /\
   processed_count (tally (cancel_stage E s)) = processed_count (tally s) /\
   failed_count (tally (cancel_stage E s)) = failed_count (tally s) /\
   skipped_count (tally (cancel_stage E s)) = skipped_count (tally s))%Z.
Proof.
  intros Hb n. unfold should_stop in Hb. simpl in Hb.
  unfold cancel_stage, should_stop. rewrite Hb.
  unfold cancel_remaining. simpl.
  fold n. destruct (Z.ltb_spec 0 n) as [Hpos|Hz].
  - simpl. rewrite cancel_events_tally. simpl. repeat split; reflexivity.
  - rewrite cancel_events_tally. simpl. repeat split; lia.
Qed.

Lemma retry_frame_closed (E : Env) (cfg : Config) (a b c : Z) :
  Closed E cfg (retry_handle E) retry_error (RetryFrame a b c).
Proof.
  split; try (intros; assumption).
  intros s f (Ha & Hb & Hc) _ _.
    match goal with |- RetryFrame a b c (retry_handle E f ?s0) =>
      destruct (retry_handle_counted E f s0) as (H1 & H2 & H3)
    end.
    unfold RetryFrame. rewrite H2, H3. simpl. repeat split; try assumption.
    unfold counted in H1. rewrite H2, H3 in H1. simpl in H1. lia.
Qed.

Lemma auto_retry_frame (E : Env) (cfg : Config) (fuel : nat) (s s' : State) :
  auto_retry E cfg fuel s = Some s' ->
  stopped_count (tally s') = stopped_count (tally s) /\
  skipped_count (tally s') = skipped_count (tally s) /\
  (processed_count (tally s') + failed_count (tally s')
   = processed_count (tally s) + failed_count (tally s))%Z.
Proof.
  intros Hrun.
  set (a := stopped_count (tally s)). set (b := skipped_count (tally s)).
  set (c := (processed_count (tally s) + failed_count (tally s))%Z).
  assert (H : RetryFrame a b c s').
  { eapply (auto_retry_chain E cfg (RetryFrame a b c) (RetryFrame a b c));
      [apply retry_frame_closed | | | | | exact Hrun | repeat split];
      intros; assumption. }
  exact H.
Qed.

(** C4, as the code has it: when the first pass ends with the signal set,
    each job in flight and not done is counted in [stopped_count] and in
    no other counter of the summary; the retry rounds never touch
    [stopped_count] or [skipped_count], so a job stopped or cancelled in a
    retry round stays where the first pass counted it, in
    [failed_count]. *)
Theorem cancellation_accounting (E : Env) (cfg : Config) (fuel : nat)
    (s0 s s' : State) :
  ((should_stop E s0).1 = true ->
   let n := Z.of_nat (length (filter (fun f => finished E (S (clock s0)) f = false)
                                (pending (pass s0)))) in
   (stopped_count (tally (cancel_stage E s0)) = stopped_count (tally s0) + n /\
    processed_count (tally (cancel_stage E s0)) = processed_count (tally s0) /\
    failed_count (tally (cancel_stage E s0)) = failed_count (tally s0) /\
    skipped_count (tally (cancel_stage E s0)) = skipped_count (tally s0))%Z) /\
  (auto_retry E cfg fuel s = Some s' ->
   stopped_count (tally s') = stopped_count (tally s) /\
   skipped_count (tally s') = skipped_count (tally s) /\
   (processed_count (tally s') + failed_count (tally s')
    = processed_count (tally s) + failed_count (tally s))%Z).
Proof.
  split; [apply cancel_stage_counts | apply auto_retry_frame].
Qed.

Lemma cancellation_accounting_witness :
  (stopped_count (tally (cancel_stage stalled_retry_env three_in_flight)) = 0 + 2 /\
   processed_count (tally (cancel_stage stalled_retry_env three_in_flight)) = 0 /\
   failed_count (tally (cancel_stage stalled_retry_env three_in_flight)) = 0 /\
   skipped_count (tally (cancel_stage stalled_retry_env three_in_flight)) = 0)%Z /\
  (stopped_count (tally after_cancelled_retry) = stopped_count (tally after_first_pass) /\
   skipped_count (tally after_cancelled_retry) = skipped_count (tally after_first_pass) /\
   (processed_count (tally after_cancelled_retry)
    + failed_count (tally after_cancelled_retry)
    = processed_count (tally after_first_pass)
      + failed_count (tally after_first_pass))%Z).
Proof.
  destruct (cancellation_accounting stalled_retry_env (demo_config 2 true) 20
              three_in_flight after_first_pass after_cancelled_retry) as [H1 H2].
  split.
  - apply H1. reflexivity.
  - apply H2. vm_compute. reflexivity.
Defined.

(** C4 as stated fails. In the first pass two queued paths are never
    submitted and enter no counter; seen one query earlier the signal
    leaves all three files uncounted, one query before that all three are
    counted as stopped; and a retry job cancelled in flight stays in
    [failed_count]. *)
Lemma uncompleted_jobs_not_all_stopped :
  (r_total_files (summary_of cancelled_run) = Some 3%Z /\
   r_stopped_count (summary_of cancelled_run) = 1%Z /\
   queue (pass (state_of cancelled_run)) = ["in/b.jpg"; "in/c.png"] /\
   r_processed_count (summary_of cancelled_run) = 0%Z /\
   r_failed_count (summary_of cancelled_run) = 0%Z /\
   r_skipped_count (summary_of cancelled_run) = 0%Z) /\
  (r_total_files (summary_of cancelled_at_prefill) = Some 3%Z /\
   r_stopped_count (summary_of cancelled_at_prefill) = 0%Z /\
   r_stopped_count (summary_of cancelled_before_start) = 3%Z) /\
  (EvCancel 3 ∈ journal (state_of retry_cancelled_run) /\
   r_stopped_count (summary_of retry_cancelled_run) = 0%Z /\
   r_failed_count (summary_of retry_cancelled_run) = 1%Z /\
   failed_files (state_of retry_cancelled_run) = [("in/b.jpg", "failed_api", 1%nat)]).
Proof.
  vm_compute. repeat split. apply list_elem_of_In. simpl. tauto.
Qed.

(** ** The retry policy and the candidates of a round *)

Lemma is_retryable_true (status : string) (attempt : nat) :
  is_retryable status attempt = true ->
  (status ∉ NON_RETRYABLE_STATUSES) /\
  exists pol, RETRYABLE_STATUSES !! status = Some pol /\
              (attempt < max_attempts pol)%nat.
Proof.
  unfold is_retryable. destruct (decide (status ∈ NON_RETRYABLE_STATUSES)) as [|Hn];
    [discriminate|].
  destruct (RETRYABLE_STATUSES !! status) as [pol|]; [|discriminate].
  intros H. apply Nat.ltb_lt in H. split; [exact Hn|]. exists pol. split; [reflexivity|exact H].
Qed.

Lemma non_retryable_never (status : string) (attempt : nat) :
  status ∈ NON_RETRYABLE_STATUSES -> is_retryable status attempt = false.
Proof.
  intros H. unfold is_retryable.
  destruct (decide (status ∈ NON_RETRYABLE_STATUSES)); [reflexivity | contradiction].
Qed.

Lemma retryable_failed_sound (E : Env) (reg : list (string * string * nat)) :
  forall s e,
    e ∈ (retryable_failed E reg s).1 ->
    e ∈ reg /\ e.1.1 <> "" /\ (exists t, path_exists E t e.1.1 = true) /\
    is_retryable e.1.2 e.2 = true.
Proof.
  induction reg as [|[[fp st] att] reg IH]; intros s e He; simpl in He.
  - inversion He.
  - destruct (String.eqb_spec fp "") as [->|Hne].
    + destruct (IH s e He) as (H1 & H2). split; [right; exact H1 | exact H2].
    + destruct (path_exists E (clock s) fp) eqn:Hex;
        destruct (is_retryable st att) eqn:Hr; simpl in He.
      * destruct (retryable_failed E reg (set_clock s (S (clock s)))) as [r s2] eqn:Hrec.
        simpl in He. apply elem_of_cons in He as [->|He].
        -- simpl. split; [left|]. split; [exact Hne|]. split; [eauto | exact Hr].
        -- destruct (IH (set_clock s (S (clock s))) e) as (H1 & H2);
             [rewrite Hrec; exact He|]. split; [right; exact H1 | exact H2].
      * destruct (IH _ e He) as (H1 & H2). split; [right; exact H1 | exact H2].
      * destruct (IH _ e He) as (H1 & H2). split; [right; exact H1 | exact H2].
      * destruct (IH _ e He) as (H1 & H2). split; [right; exact H1 | exact H2].
Qed.

Lemma retryable_failed_complete (E : Env) (reg : list (string * string * nat)) :
  forall s e,
    e ∈ reg -> e.1.1 <> "" -> (forall t, path_exists E t e.1.1 = true) ->
    is_retryable e.1.2 e.2 = true ->
    e ∈ (retryable_failed E reg s).1.
Proof.
  induction reg as [|[[fp st] att] reg IH]; intros s e He Hne Hex Hr.
  - inversion He.
  - simpl. apply elem_of_cons in He as [->|He].
    + simpl in *. destruct (String.eqb_spec fp ""); [contradiction|].
      rewrite Hex, Hr. simpl.
      destruct (retryable_failed E reg (set_clock s (S (clock s)))). simpl. left.
    + destruct (String.eqb fp ""); [apply IH; assumption|].
      destruct (path_exists E (clock s) fp && is_retryable st att).
      * pose proof (IH (set_clock s (S (clock s))) e He Hne Hex Hr) as H.
        destruct (retryable_failed E reg (set_clock s (S (clock s)))). simpl in *.
        right. exact H.
      * apply IH; assumption.
Qed.

Lemma next_retry_files_sound (E : Env) (reg : list (string * string * nat))
    (cur : list string) :
  forall s p,
    p ∈ (next_retry_files E reg cur s).1 ->
    p ∈ cur /\ p <> "" /\ (exists t, path_exists E t p = true) /\
    is_retryable (find_failed p reg).1 (find_failed p reg).2 = true.
Proof.
  induction cur as [|q cur IH]; intros s p Hp; simpl in Hp.
  - inversion Hp.
  - destruct (String.eqb_spec q "") as [->|Hne].
    + destruct (IH s p Hp) as (H1 & H2). split; [right; exact H1 | exact H2].
    + destruct (path_exists E (clock s) q) eqn:Hex.
      * destruct (find_failed q reg) as [st att] eqn:Hff.
        destruct (is_retryable st att) eqn:Hr.
        -- destruct (next_retry_files E reg cur (set_clock s (S (clock s))))
             as [r s2] eqn:Hrec.
           simpl in Hp. apply elem_of_cons in Hp as [->|Hp].
           ++ split; [left|]. split; [exact Hne|]. split; [eauto|].
              rewrite Hff. exact Hr.
           ++ destruct (IH (set_clock s (S (clock s))) p) as (H1 & H2);
                [rewrite Hrec; exact Hp|]. split; [right; exact H1 | exact H2].
        -- destruct (IH _ p Hp) as (H1 & H2). split; [right; exact H1 | exact H2].
      * destruct (IH _ p Hp) as (H1 & H2). split; [right; exact H1 | exact H2].
Qed.

Lemma next_retry_files_complete (E : Env) (reg : list (string * string * nat))
    (cur : list string) :
  forall s p,
    p ∈ cur -> p <> "" -> (forall t, path_exists E t p = true) ->
    is_retryable (find_failed p reg).1 (find_failed p reg).2 = true ->
    p ∈ (next_retry_files E reg cur s).1.
Proof.
  induction cur as [|q cur IH]; intros s p Hp Hne Hex Hr.
  - inversion Hp.
  - simpl. apply elem_of_cons in Hp as [->|Hp].
    + destruct (String.eqb_spec q ""); [contradiction|].
      rewrite Hex. destruct (find_failed q reg) as [st att]. simpl in Hr. rewrite Hr.
      destruct (next_retry_files E reg cur (set_clock s (S (clock s)))). simpl. left.
    + destruct (String.eqb q ""); [apply IH; assumption|].
      destruct (path_exists E (clock s) q); [|apply IH; assumption].
      destruct (find_failed q reg) as [st att].
      destruct (is_retryable st att); [|apply IH; assumption].
      pose proof (IH (set_clock s (S (clock s))) p Hp Hne Hex Hr) as H.
      destruct (next_retry_files E reg cur (set_clock s (S (clock s)))). simpl in *.
      right. exact H.
Qed.




Lemma cancel_events_frame (l : list nat) :
  forall s,
    rtally (foldl (fun s f => record_event s (EvCancel f)) s l) = rtally s /\
    failed_files (foldl (fun s f => record_event s (EvCancel f)) s l) = failed_files s.
Proof.
  induction l as [|f l IH]; intros s; simpl; [split; reflexivity|].
  destruct (IH (record_event s (EvCancel f))) as [-> ->]. split; reflexivity.
Qed.


(** ** The registry in a retry round *)

Lemma update_failed_spec (p status : string) (l : list (string * string * nat)) :
  forall n,
    (update_failed p status l n).1
    = map (fun e => if String.eqb e.1.1 p then (e.1.1, status, (e.2 + 1)%nat) else e) l.
Proof.
  induction l as [|[[fp st] att] l IH]; intros n; simpl; [reflexivity|].
  destruct (String.eqb fp p).
  - specialize (IH (att + 1)%nat).
    destruct (update_failed p status l (att + 1)). simpl in *. rewrite IH. reflexivity.
  - specialize (IH n).
    destruct (update_failed p status l n). simpl in *. rewrite IH. reflexivity.
Qed.

(** The path that works: a returned failure status rewrites the entries of
    the path with the new status and one more attempt. *)
Lemma retry_handle_failure_updates (E : Env) (f : nat) (s : State)
    (status : string) (nf : option string) :
  outcome E f = Returned status nf ->
  str_in status processed_statuses = false ->
  String.eqb status "stopped" = false ->
  failed_files (retry_handle E f s)
  = map (fun e => if String.eqb e.1.1 (default "" (future_to_path (pass s) !! f))
                  then (e.1.1, status, (e.2 + 1)%nat) else e)
        (failed_files s).
Proof.
  intros Ho Hp Hs. unfold retry_handle. rewrite Ho, Hp, Hs. simpl.
  rewrite <- (update_failed_spec _ status (failed_files s) 1).
  destruct (update_failed _ status (failed_files s) 1) as [u n]. simpl.
  destruct (is_retryable status n); reflexivity.
Qed.

(** The paths that miss it: a time-out, an exception or an invalid result
    leave the registry as it was, and the path among the failed again. *)
Lemma retry_handle_retrieval_failure (E : Env) (f : nat) (s : State) :
  outcome E f = TimedOut \/ outcome E f = Failed \/ outcome E f = ReturnedNothing ->
  failed_files (retry_handle E f s) = failed_files s /\
  current_retry_failed_files (rtally (retry_handle E f s))
  = (current_retry_failed_files (rtally s)
     ++ [default "" (future_to_path (pass s) !! f)])%list.
Proof.
  unfold retry_handle. intros [->|[->| ->]]; split; reflexivity.
Qed.

(** The candidates of the first round, from the registry of the first
    pass: entries found on disk whose status is in the table, outside the
    non-retryable set, with attempts left. *)
Lemma first_round_candidates (E : Env) (reg : list (string * string * nat))
    (s : State) (p : string) :
  p ∈ map (fun e => e.1.1) (retryable_failed E reg s).1 ->
  exists st att pol,
    (p, st, att) ∈ reg /\ (exists t, path_exists E t p = true) /\
    (st ∉ NON_RETRYABLE_STATUSES) /\
    RETRYABLE_STATUSES !! st = Some pol /\ (att < max_attempts pol)%nat.
Proof.
  intros Hp. apply list_elem_of_fmap in Hp as ([[fp st] att] & -> & He).
  destruct (retryable_failed_sound E reg s _ He) as (Hin & _ & Hex & Hr).
  apply is_retryable_true in Hr as (Hnon & pol & Hpol & Hlt).
  exists st, att, pol. simpl in *. auto.
Qed.



(** C3 at its failing input: the retry of [in/b.jpg], registered as
    [failed_api] at attempt 1, times out; the registry entry keeps its
    status and its attempt count, and the path is a candidate of the next
    round as if the attempt had not been made. *)
Theorem retry_timeout_leaves_registry :
  failed_files after_first_pass = [("in/b.jpg", "failed_api", 1%nat)] /\
  timeout_round = Some (["in/b.jpg"], round_state timeout_round) /\
  EvCollect 3 "in/b.jpg" TimedOut ∈ journal (round_state timeout_round) /\
  failed_files (round_state timeout_round) = [("in/b.jpg", "failed_api", 1%nat)].
Proof.
  vm_compute. repeat split. apply list_elem_of_In. simpl. tauto.
Qed.


(** ** Enough fuel gives the result *)

Section Progress.
Context (E : Env) (cfg : Config).
Context (handle : nat -> State -> State) (on_error : string -> State -> State).
Hypothesis Hframe : Frame handle on_error.

(** One call of the submission loop: the queue never grows; a submission
    puts exactly the new future in the pending set and takes at least one
    path from the queue. *)
Lemma submit_loop_progress (q : list string) :
  forall s,
    queue (pass s) = q ->
    (length (queue (pass (submit_loop E cfg on_error q s).2)) <= length q)%nat /\
    ((submit_loop E cfg on_error q s).1 = true ->
     pending (pass (submit_loop E cfg on_error q s).2)
     = next_future s :: pending (pass s) /\
     next_future (submit_loop E cfg on_error q s).2 = S (next_future s) /\
     (length (queue (pass (submit_loop E cfg on_error q s).2)) < length q)%nat) /\
    ((submit_loop E cfg on_error q s).1 = false ->
     pending (pass (submit_loop E cfg on_error q s).2) = pending (pass s) /\
     next_future (submit_loop E cfg on_error q s).2 = next_future s).
Proof.
  destruct Hframe as [_ He].
  induction q as [|p rest IH]; intros s Hq; simpl.
  - split; [lia|]. split; [discriminate | intros _; split; reflexivity].
  - destruct (negb (path_exists E (clock s) p)
              || bool_decide (p ∈ submitted (pass s))).
    + destruct (IH (record_event (set_clock (set_queue s rest) (S (clock s)))
                      (EvSkip p)) eq_refl) as (H1 & H2 & H3).
      split; [lia|]. split.
      * intros Hok. destruct (H2 Hok) as (Ha & Hb & Hc).
        split; [exact Ha|]. split; [exact Hb | lia].
      * exact H3.
    + set (s1 := set_clock (set_queue s rest) (S (clock s))).
      assert (Hcool : exists c i,
        (if (0 <? delay_seconds cfg)%Z && last_submit_set (pass s)
         then cooldown E (cooldown_polls E (S (clock s))) s1
         else (false, s1)) = (i, set_clock (set_queue s rest) c)).
      { destruct ((0 <? delay_seconds cfg)%Z && last_submit_set (pass s)).
        - destruct (cooldown_spec E (cooldown_polls E (S (clock s))) s1) as (c & Heq & _).
          exists c, (cooldown E (cooldown_polls E (S (clock s))) s1).1.
          rewrite (surjective_pairing (cooldown E _ s1)), Heq. reflexivity.
        - exists (S (clock s)), false. reflexivity. }
      destruct Hcool as (c & i & Heq).
      change (set_clock (set_queue s rest) (S (clock (set_queue s rest)))) with s1.
      change (clock s1) with (S (clock s)).
      change (last_submit_set (pass s1)) with (last_submit_set (pass s)).
      rewrite Heq. destruct i.
      * simpl. split; [lia|]. split; [discriminate | intros _; split; reflexivity].
      * unfold should_stop.
        destruct (stop_signal E (clock (set_clock (set_queue s rest) c))
                  || force_stop (set_clock (set_queue s rest) c)).
        -- simpl. split; [lia|]. split; [discriminate | intros _; split; reflexivity].
        -- destruct (length (api_keys cfg)) eqn:Hn.
           ++ match goal with
              | |- context [submit_loop E cfg on_error rest (on_error p ?s3)] =>
                  destruct (He p s3) as (Hp & Hnx & _);
                  destruct (IH (on_error p s3)) as (H1 & H2 & H3);
                  [rewrite Hp; reflexivity|]
              end.
              rewrite Hp, Hnx in *. simpl in *.
              split; [lia|]. split.
              ** intros Hok. destruct (H2 Hok) as (Ha & Hb & Hc).
                 split; [exact Ha|]. split; [exact Hb | lia].
              ** exact H3.
           ++ simpl. split; [lia|]. split; [|discriminate].
              intros _. split; [reflexivity|]. split; [reflexivity | lia].
Qed.

Lemma prefill_total (fuel : nat) :
  forall s,
    (num_workers cfg - length (pending (pass s)) < fuel)%nat ->
    is_Some (prefill E cfg on_error fuel s).
Proof.
  induction fuel as [|fuel IH]; intros s Hf; [lia|].
  simpl. destruct (Nat.ltb_spec (length (pending (pass s))) (num_workers cfg)) as [Hlt|Hge];
    [|eauto].
  unfold should_stop. destruct (stop_signal E (clock s) || force_stop s); [eauto|].
  set (s1 := set_clock s (S (clock s))).
  destruct (submit_loop_progress (queue (pass s)) s1 eq_refl) as (_ & H2 & _).
  destruct (submit_loop E cfg on_error (queue (pass s)) s1) as [ok s2]. simpl in *.
  destruct ok; [|eauto].
  destruct (H2 eq_refl) as (Hp & _). apply IH. rewrite Hp. simpl. lia.
Qed.

Lemma prefill_queue (fuel : nat) :
  forall s s',
    prefill E cfg on_error fuel s = Some s' ->
    (length (queue (pass s')) <= length (queue (pass s)))%nat.
Proof.
  induction fuel as [|fuel IH]; intros s s' Hrun; [discriminate|].
  simpl in Hrun. destruct (length (pending (pass s)) <? num_workers cfg)%nat.
  - unfold should_stop in Hrun. destruct (stop_signal E (clock s) || force_stop s).
    + inversion Hrun; subst. simpl. lia.
    + set (s1 := set_clock s (S (clock s))) in *.
      destruct (submit_loop_progress (queue (pass s)) s1 eq_refl) as (H1 & _).
      change (queue (pass s1)) with (queue (pass s)) in Hrun.
      destruct (submit_loop E cfg on_error (queue (pass s)) s1) as [ok s2]. simpl in *.
      destruct ok.
      * apply IH in Hrun. lia.
      * inversion Hrun; subst. exact H1.
  - inversion Hrun; subst. lia.
Qed.

(** One [for done_future in done_set]: the queue never grows, what stays
    pending is an old future outside [done_set] or a new one, and a new
    one costs the queue a path. *)
Lemma drain_progress (done_set : list nat) :
  forall s,
    (forall f, f ∈ pending (pass s) -> (f < next_future s)%nat) ->
    let s' := drain E cfg handle on_error done_set s in
    (length (queue (pass s')) <= length (queue (pass s)))%nat /\
    (next_future s <= next_future s')%nat /\
    (forall f, f ∈ pending (pass s') ->
       (f ∈ pending (pass s) /\ f ∉ done_set) \/ (next_future s <= f < next_future s')%nat) /\
    ((next_future s < next_future s')%nat ->
     (length (queue (pass s')) < length (queue (pass s)))%nat).
Proof.
  destruct Hframe as [Hh _].
  induction done_set as [|d rest IH]; intros s Hfresh; simpl.
  - split; [lia|]. split; [lia|]. split; [|lia].
    intros f Hf. left. split; [exact Hf | apply not_elem_of_nil].
  - match goal with |- context [handle d ?s0] => set (s1 := handle d s0) end.
    destruct (Hh d (record_event (set_pending s (discard d (pending (pass s))))
                      (EvCollect d (default "" (future_to_path (pass s) !! d))
                         (outcome E d)))) as (Hp1 & Hn1 & _).
    fold s1 in Hp1, Hn1. simpl in Hp1, Hn1.
    assert (Hq1 : queue (pass s1) = queue (pass s)) by (rewrite Hp1; reflexivity).
    assert (Hpend1 : pending (pass s1) = discard d (pending (pass s)))
      by (rewrite Hp1; reflexivity).
    unfold should_stop.
    set (s2 := set_clock s1 (S (clock s1))).
    set (s3 := if stop_signal E (clock s1) || force_stop s1 then s2
               else (submit_loop E cfg on_error (queue (pass s2)) s2).2).
    assert (H3 : (length (queue (pass s3)) <= length (queue (pass s)))%nat /\
                 (next_future s <= next_future s3)%nat /\
                 (forall f, f ∈ pending (pass s3) ->
                    (f ∈ pending (pass s) /\ f <> d)
                    \/ (next_future s <= f < next_future s3)%nat) /\
                 (forall f, f ∈ pending (pass s3) -> (f < next_future s3)%nat) /\
                 ((next_future s < next_future s3)%nat ->
                  (length (queue (pass s3)) < length (queue (pass s)))%nat)).
    { unfold s3. destruct (stop_signal E (clock s1) || force_stop s1).
      - simpl. rewrite Hq1, Hn1, Hpend1. split; [lia|]. split; [lia|].
        split; [|split; [|lia]].
        + intros f Hf. apply list_elem_of_filter in Hf as [Hne Hf]. left. auto.
        + intros f Hf. apply list_elem_of_filter in Hf as [_ Hf]. apply Hfresh, Hf.
      - destruct (submit_loop_progress (queue (pass s2)) s2 eq_refl) as (Ha & Hb & Hc).
        destruct (submit_loop E cfg on_error (queue (pass s2)) s2) as [ok s4].
        simpl in *. rewrite Hq1 in Ha. destruct ok.
        + destruct (Hb eq_refl) as (Hb1 & Hb2 & Hb3). rewrite Hq1 in Hb3.
          rewrite Hb1, Hb2, Hn1, Hpend1. split; [lia|]. split; [lia|].
          split; [|split; [|lia]].
          * intros f Hf. apply elem_of_cons in Hf as [->|Hf]; [right; lia|].
            apply list_elem_of_filter in Hf as [Hne Hf]. left. auto.
          * intros f Hf. apply elem_of_cons in Hf as [->|Hf]; [lia|].
            apply list_elem_of_filter in Hf as [_ Hf]. apply Hfresh in Hf. lia.
        + destruct (Hc eq_refl) as (Hc1 & Hc2).
          rewrite Hc1, Hc2, Hn1, Hpend1. split; [lia|]. split; [lia|].
          split; [|split; [|lia]].
          * intros f Hf. apply list_elem_of_filter in Hf as [Hne Hf]. left. auto.
          * intros f Hf. apply list_elem_of_filter in Hf as [_ Hf]. apply Hfresh, Hf. }
    destruct H3 as (Hq3 & Hn3 & Hp3 & Hf3 & Hd3).
    change (if stop_signal E (clock s1) || force_stop s1
            then s2 else (submit_loop E cfg on_error (queue (pass s1)) s2).2) with s3.
    destruct (IH s3 Hf3) as (Hq4 & Hn4 & Hp4 & Hd4).
    split; [lia|]. split; [lia|]. split.
    + intros f Hf. destruct (Hp4 f Hf) as [[Hin Hnot]|Hnew]; [|right; lia].
      destruct (Hp3 f Hin) as [[Hin0 Hne]|Hnew]; [|right; lia].
      left. split; [exact Hin0|]. apply not_elem_of_cons. auto.
    + intros Hlt. destruct (decide (next_future s < next_future s3)%nat) as [H|H].
      * specialize (Hd3 H). lia.
      * assert (next_future s3 < next_future (drain E cfg handle on_error rest s3))%nat
          by lia.
        specialize (Hd4 H0). lia.
Qed.
End Progress.

Section Totality.
Context (E : Env) (cfg : Config).
Context (handle : nat -> State -> State) (on_error : string -> State -> State).
Hypothesis Hframe : Frame handle on_error.
Hypothesis Hprompt : prompt E.

Lemma filter_all_finished (t : nat) (l : list nat) :
  filter (fun f => finished E t f = true) l = l.
Proof.
  induction l as [|a l IH]; [reflexivity|].
  rewrite filter_cons. destruct (decide (finished E t a = true)) as [_|Hn].
  - f_equal. exact IH.
  - exfalso. apply Hn, Hprompt.
Qed.

Lemma sliding_window_total (fuel : nat) :
  forall s,
    (forall f, f ∈ pending (pass s) -> (f < next_future s)%nat) ->
    (1 <= fuel)%nat ->
    pending (pass s) = [] \/ (length (queue (pass s)) + 2 <= fuel)%nat ->
    is_Some (sliding_window E cfg handle on_error fuel s).
Proof.
  induction fuel as [|fuel IH]; intros s Hfresh Hone Hm; [lia|].
  simpl. destruct (pending (pass s)) as [|f0 l0] eqn:Hpend; [eauto|].
  destruct Hm as [Hm|Hm]; [discriminate|].
  unfold should_stop. destruct (stop_signal E (clock s) || force_stop s); [eauto|].
  unfold wait_done. simpl.
  destruct (stop_signal E (S (S (clock s))) || force_stop s); [eauto|].
  rewrite filter_all_finished.
  set (s3 := set_clock (set_clock (set_clock s (S (clock s))) (S (S (clock s))))
               (S (S (S (clock s))))).
  pose proof (drain_progress E cfg handle on_error Hframe (f0 :: l0) s3) as Hdr.
  set (s4 := drain E cfg handle on_error (f0 :: l0) s3) in *.
  destruct Hdr as (Hq & Hn & Hp & Hd).
  { intros f Hf. change (pending (pass s3)) with (pending (pass s)) in Hf.
    rewrite Hpend in Hf. apply Hfresh. exact Hf. }
  change (queue (pass s3)) with (queue (pass s)) in Hq, Hd.
  change (next_future s3) with (next_future s) in Hn, Hp, Hd.
  change (pending (pass s3)) with (pending (pass s)) in Hp.
  apply IH.
  - intros f Hf. destruct (Hp f Hf) as [[Hin Hnot]|Hnew]; [|lia].
    rewrite Hpend in Hin. contradiction.
  - lia.
  - destruct (pending (pass s4)) as [|g l1] eqn:Hp'; [left; reflexivity|].
    right. destruct (Hp g) as [[Hin Hnot]|Hnew].
    + left.
    + rewrite Hpend in Hin. contradiction.
    + assert (Hlt : (next_future s < next_future s4)%nat) by lia.
      specialize (Hd Hlt). lia.
Qed.
End Totality.

Lemma trivially_closed (E : Env) (cfg : Config) (handle : nat -> State -> State)
    (on_error : string -> State -> State) :
  Closed E cfg handle on_error (fun _ => True).
Proof. split; intros; exact I. Qed.

(** A first pass over prompt jobs ends within [len(queue) + 2] turns of
    the sliding window. *)
Lemma first_pass_total (E : Env) (cfg : Config) (fuel : nat) (s : State) :
  prompt E -> PendInv (num_workers cfg) s ->
  (length (queue (pass s)) + 2 <= fuel)%nat ->
  is_Some (first_pass E cfg fuel s).
Proof.
  intros Hp HI Hf. unfold first_pass.
  destruct (prefill_total E cfg (_handle_result E) first_pass_error (frame_first_pass E)
              (S (num_workers cfg)) s) as [s1 Hpre]; [lia|].
  rewrite Hpre. simpl.
  destruct (frame_first_pass E) as [Hh He].
  destruct (prefill_inv E cfg _ _ _
              (trivially_closed E cfg (_handle_result E) first_pass_error)
              (fun p s => proj1 (He p s)) (fun p s => proj1 (proj2 (He p s)))
              _ s s1 Hpre HI I) as [(_ & Hfresh & _) _].
  pose proof (prefill_queue E cfg (_handle_result E) first_pass_error
                (frame_first_pass E) _ s s1 Hpre) as Hq.
  destruct (sliding_window_total E cfg _ _ (frame_first_pass E) Hp fuel s1 Hfresh)
    as [s2 Hsl]; [lia | right; lia |].
  rewrite Hsl. simpl. eauto.
Qed.

(** A retry round over prompt jobs ends within [len(retry_files) + 2]
    turns of the sliding window. *)
Lemma retry_round_total (E : Env) (cfg : Config) (fuel : nat)
    (files : list string) (s : State) :
  prompt E -> (length files + 2 <= fuel)%nat ->
  is_Some (retry_round E cfg fuel files s).
Proof.
  intros Hp Hf. unfold retry_round.
  set (s0 := set_rtally (set_pass s (fresh_pass files)) fresh_rtally).
  destruct (prefill_total E cfg (retry_handle E) retry_error (frame_retry E)
              (S (num_workers cfg)) s0) as [s1 Hpre]; [simpl; lia|].
  rewrite Hpre. simpl.
  destruct (frame_retry E) as [Hh He].
  destruct (prefill_inv E cfg _ _ _
              (trivially_closed E cfg (retry_handle E) retry_error)
              (fun p s => proj1 (He p s)) (fun p s => proj1 (proj2 (He p s)))
              _ s0 s1 Hpre (PendInv_fresh _ s files) I) as [(_ & Hfresh & _) _].
  pose proof (prefill_queue E cfg (retry_handle E) retry_error
                (frame_retry E) _ s0 s1 Hpre) as Hq.
  simpl in Hq.
  destruct (sliding_window_total E cfg _ _ (frame_retry E) Hp fuel s1 Hfresh)
    as [s2 Hsl]; [lia | right; lia |].
  rewrite Hsl. simpl. eauto.
Qed.

Lemma enumerate_length (E : Env) (cfg : Config) (l : list string) :
  forall acc s files,
    (enumerate E cfg l acc s).1 = Some files ->
    (length files <= length acc + length l)%nat.
Proof.
  induction l as [|x l IH]; intros acc s files H; simpl in H.
  - inversion H; subst. lia.
  - unfold should_stop in H. destruct (stop_signal E (clock s) || force_stop s);
      [discriminate|].
    destruct (endswith_any (lower x) (ALL_SUPPORTED_EXTENSIONS cfg)
              && negb (startswith x ".")).
    + unfold isfile_now in H. simpl in H.
      destruct (path_isfile E (S (clock s)) (path_join (input_dir cfg) x)).
      * apply IH in H. rewrite length_app in H. simpl in *. lia.
      * apply IH in H. simpl. lia.
    + apply IH in H. simpl. lia.
Qed.

Lemma keep_existing_length (E : Env) (l : list string) :
  forall s, (length (keep_existing E l s).1 <= length l)%nat.
Proof.
  induction l as [|x l IH]; intros s; simpl; [lia|].
  specialize (IH (set_clock s (S (clock s)))).
  destruct (keep_existing E l (set_clock s (S (clock s)))) as [r s2]. simpl in *.
  destruct (path_exists E (clock s) x); simpl; lia.
Qed.

(** With retries off and prompt jobs, a run over a directory of [n]
    entries reaches its summary within [n + 2] turns. *)
Lemma batch_total_without_retry (E : Env) (cfg : Config) (fuel : nat) :
  prompt E -> auto_retry_enabled cfg = false ->
  (forall l, listdir E = Some l -> (length l + 2 <= fuel)%nat) ->
  is_Some (batch_process_files E cfg fuel).
Proof.
  intros Hp Hoff Hfuel. unfold batch_process_files.
  unfold should_stop at 1.
  destruct (stop_signal E (clock initial_state) || force_stop initial_state); [eauto|].
  destruct (listdir E) as [dir_list|]; [|eauto].
  specialize (Hfuel dir_list eq_refl).
  match goal with
  | |- context [enumerate E cfg dir_list [] ?s0] =>
      pose proof (enumerate_length E cfg dir_list [] s0) as Hlen;
      destruct (enumerate E cfg dir_list [] s0) as [[files|] s1]
  end; [|eauto].
  specialize (Hlen files eq_refl). simpl in Hlen.
  pose proof (keep_existing_length E files s1) as Hlen2.
  destruct (keep_existing E files s1) as [files2 s2]. simpl in Hlen2.
  destruct (Z.of_nat (length files2) =? 0)%Z; [eauto|].
  unfold should_stop. destruct (stop_signal E (clock s2) || force_stop s2); [eauto|].
  unfold run_files. destruct (num_workers cfg) eqn:HW; [eauto|].
  destruct (first_pass_total E cfg fuel
              (set_pass (set_clock s2 (S (clock s2))) (fresh_pass files2)) Hp)
    as [s3 H3].
  - apply PendInv_fresh_pass.
  - simpl. lia.
  - rewrite H3. simpl. unfold auto_retry. rewrite Hoff. simpl. eauto.
Qed.

(** ** Retries that never end *)

Section Endless.
Context (E : Env) (cfg : Config) (p : string) (reg : list (string * string * nat)).
Hypothesis Hquiet : never_cancelled E.
Hypothesis Hkeeps : forall t, path_exists E t p = true.
Hypothesis Hlost : unretrievable E.
Hypothesis Hkeys : api_keys cfg <> [].
Hypothesis Hworkers : (1 <= num_workers cfg)%nat.
Hypothesis Hname : p <> "".
Hypothesis Hretry : is_retryable (find_failed p reg).1 (find_failed p reg).2 = true.

Lemma stuck_closed : Closed E cfg (retry_handle E) retry_error (StuckInv p reg).
Proof.
  split.
  - intros s c H. exact H.
  - intros s q rest t (H1 & H2 & H3 & H4) Hq Hguard. split; [exact H1|].
    split; [exact H2|]. split; [|exact H4].
    destruct H3 as [H3|H3]; [left; exact H3|].
    rewrite Hq in H3. apply elem_of_cons in H3 as [->|H3]; [|right; exact H3].
    destruct Hguard as [Hgone|Hsub]; [|left; exact Hsub].
    rewrite Hkeeps in Hgone. discriminate.
  - intros s q rest t (_ & H2 & _) _ Hstop. rewrite Hquiet, H2 in Hstop. discriminate.
  - intros s q rest _ _ Hnil. contradiction.
  - intros s q rest (H1 & H2 & H3 & H4) (_ & Hfresh & _) Hq Hnew _ _ n key_index.
    split; [exact H1|]. split; [exact H2|]. simpl. split.
    + destruct H3 as [H3|H3]; [left; apply elem_of_union_r, H3|].
      rewrite Hq in H3. apply elem_of_cons in H3 as [->|H3]; [|right; exact H3].
      left. apply elem_of_union_l, elem_of_singleton. reflexivity.
    + intros Hin. apply elem_of_union in Hin as [Hin|Hin].
      * apply elem_of_singleton in Hin. subst q. left. exists (next_future s).
        split; [left|]. apply lookup_insert_eq.
      * destruct (H4 Hin) as [(f & Hf & Hpath)|Hcur]; [|right; exact Hcur].
        left. exists f. split; [right; exact Hf|].
        rewrite lookup_insert_ne; [exact Hpath|].
        specialize (Hfresh f Hf). lia.
  - intros s (H1 & H2 & H3 & H4) Hq. split; [exact H1|]. split; [exact H2|].
    split; [|exact H4]. destruct H3 as [H3|H3]; [left; exact H3|].
    rewrite Hq in H3. inversion H3.
  - intros s f (H1 & H2 & H3 & H4) _ Hin.
    match goal with |- StuckInv p reg (retry_handle E f ?s0) =>
      destruct (frame_retry E) as [Hh _];
      destruct (Hh f s0) as (Hp & _ & _ & _ & Hfs);
      destruct (retry_handle_retrieval_failure E f s0 (Hlost f)) as [Hreg Hcur];
      set (s0' := s0) in *
    end.
    split; [rewrite Hreg; exact H1|]. split; [rewrite Hfs; exact H2|].
    rewrite Hp. split; [exact H3|].
    intros Hsub. rewrite Hcur. simpl.
    destruct (H4 Hsub) as [(g & Hg & Hpath)|Hc].
    + destruct (decide (g = f)) as [->|Hne].
      * right. rewrite Hpath. simpl. apply elem_of_app. right. left.
      * left. exists g. split; [|exact Hpath].
        apply list_elem_of_filter. split; assumption.
    + right. apply elem_of_app. left. exact Hc.
Qed.

Lemma stuck_round (fuel : nat) (files files' : list string) (s s' : State) :
  retry_round E cfg fuel files s = Some (files', s') ->
  p ∈ files -> failed_files s = reg -> force_stop s = false ->
  p ∈ files' /\ failed_files s' = reg /\ force_stop s' = false.
Proof.
  unfold retry_round. intros Hrun Hin Hreg Hfs.
  set (s0 := set_rtally (set_pass s (fresh_pass files)) fresh_rtally) in *.
  destruct (prefill E cfg retry_error (S (num_workers cfg)) s0) as [s1|] eqn:Hpre;
    [|discriminate].
  simpl in Hrun.
  destruct (sliding_window E cfg (retry_handle E) retry_error fuel s1) as [s2|] eqn:Hsl;
    [|discriminate].
  simpl in Hrun.
  destruct (frame_retry E) as [Hh He].
  assert (H0 : StuckInv p reg s0).
  { split; [exact Hreg|]. split; [exact Hfs|]. split; [right; exact Hin|].
    simpl. intros Habs. apply elem_of_empty in Habs. contradiction. }
  assert (H1 : PendInv (num_workers cfg) s1 /\ StuckInv p reg s1).
  { eapply (prefill_inv E cfg (retry_handle E) retry_error _ stuck_closed);
      [apply He | apply He | exact Hpre | apply PendInv_fresh | exact H0]. }
  assert (H2 : PendInv (num_workers cfg) s2 /\ StuckInv p reg s2).
  { eapply (sliding_window_inv E cfg (retry_handle E) retry_error _ stuck_closed);
      [apply Hh | apply Hh | apply He | apply He | exact Hsl | apply H1 | apply H1]. }
  destruct H2 as [_ (Hreg2 & Hfs2 & Hsub2 & Hcur2)].
  destruct (prefill_quiet E cfg (retry_handle E) retry_error (frame_retry E) Hquiet
              _ s0 s1 Hpre Hfs Hworkers) as [Hsat1 Hfs1].
  destruct (sliding_window_quiet E cfg (retry_handle E) retry_error (frame_retry E) Hquiet
              _ s1 s2 Hsl Hsat1 Hfs1) as (Hpend & Hqueue & _).
  assert (Hcur : p ∈ current_retry_failed_files (rtally s2)).
  { rewrite Hqueue in Hsub2. destruct Hsub2 as [Hsub|Habs]; [|inversion Habs].
    destruct (Hcur2 Hsub) as [(f & Hf & _)|Hc]; [|exact Hc].
    rewrite Hpend in Hf. inversion Hf. }
  unfold should_stop in Hrun. rewrite Hquiet, Hfs2 in Hrun. simpl in Hrun.
  match type of Hrun with
  | Some (next_retry_files E ?r ?cur ?s5) = _ =>
      destruct (next_retry_files_clock E r cur s5) as [c Hc];
      pose proof (next_retry_files_complete E r cur s5 p) as Hnext
  end.
  inversion Hrun as [Hrun']. rewrite (surjective_pairing (next_retry_files _ _ _ _)) in Hrun'.
  inversion Hrun'; subst files' s'. rewrite Hc. simpl. split; [|split].
  - apply Hnext; [exact Hcur | exact Hname | exact Hkeeps |].
    rewrite Hreg2. exact Hretry.
  - exact Hreg2.
  - exact Hfs2.
Qed.

Lemma stuck_loop (fuel : nat) :
  forall files k s,
    p ∈ files -> failed_files s = reg -> force_stop s = false ->
    retry_loop E cfg fuel files k s = None.
Proof.
  induction fuel as [|fuel IH]; intros files k s Hin Hreg Hfs; [reflexivity|].
  simpl. destruct files as [|q files]; [inversion Hin|].
  rewrite Hquiet, Hfs. simpl.
  destruct (retry_round E cfg fuel (q :: files) (set_clock s (S (clock s))))
    as [[files1 s1]|] eqn:Hround; [|reflexivity].
  simpl.
  destruct (stuck_round _ _ _ _ _ Hround Hin Hreg Hfs) as (Hin1 & Hreg1 & Hfs1).
  destruct files1 as [|q1 files1]; [inversion Hin1|].
  simpl. rewrite andb_false_r. apply IH; assumption.
Qed.

(** A retry whose result cannot be retrieved is repeated for ever: the
    registry entry of its path keeps its attempt count, so the path is a
    candidate of every round and the retry loop has no result, whatever the
    fuel. *)
Lemma unretrievable_retry_never_ends (fuel : nat) (s : State) (st : string) (att : nat) :
  auto_retry_enabled cfg = true -> (0 < failed_count (tally s))%Z ->
  force_stop s = false ->
  failed_files s = reg -> (p, st, att) ∈ reg -> is_retryable st att = true ->
  auto_retry E cfg fuel s = None.
Proof.
  intros Hon Hfailed Hfs Hreg Hentry Hr. unfold auto_retry.
  rewrite Hon. simpl. destruct (Z.ltb_spec 0 (failed_count (tally s))) as [_|?]; [|lia].
  unfold should_stop. rewrite Hquiet, Hfs. simpl.
  destruct (retryable_failed_clock E (failed_files s) (set_clock s (S (clock s))))
    as [c Hc].
  pose proof (retryable_failed_complete E (failed_files s) (set_clock s (S (clock s)))
                (p, st, att)) as Hcomp.
  destruct (retryable_failed E (failed_files s) (set_clock s (S (clock s)))) as [rf s2].
  simpl in Hc, Hcomp. subst s2.
  rewrite stuck_loop; [reflexivity | | exact Hreg | exact Hfs].
  apply (list_elem_of_fmap_2 (fun e => e.1.1) rf (p, st, att)).
  apply Hcomp; [rewrite Hreg; exact Hentry | exact Hname | exact Hkeeps | exact Hr].
Qed.
End Endless.

(** The run of the three files whose results all time out: the first pass
    registers each of them as [failed_timeout] at attempt 1, and the retry
    loop that follows has no result. *)
Example lost_retry_never_ends :
  failed_files after_lost_pass
  = [("in/b.jpg", "failed_timeout", 1%nat); ("in/a.jpg", "failed_timeout", 1%nat);
     ("in/c.png", "failed_timeout", 1%nat)] /\
  forall fuel, auto_retry lost_env (demo_config 2 true) fuel after_lost_pass = None.
Proof.
  split; [vm_compute; reflexivity|]. intros fuel.
  apply (unretrievable_retry_never_ends lost_env (demo_config 2 true) "in/b.jpg"
           (failed_files after_lost_pass)) with (st := "failed_timeout") (att := 1%nat).
  - intros t. reflexivity.
  - intros t. reflexivity.
  - intros f. left. reflexivity.
  - discriminate.
  - simpl. lia.
  - discriminate.
  - vm_compute. reflexivity.
  - reflexivity.
  - vm_compute. reflexivity.
  - vm_compute. reflexivity.
  - reflexivity.
  - vm_compute. apply list_elem_of_In. simpl. tauto.
  - vm_compute. reflexivity.
Qed.

(** ** Runs that end, runs that do not *)

Lemma cooldown_clock (E : Env) (n : nat) :
  forall s, (clock s <= clock (cooldown E n s).2)%nat.
Proof.
  induction n as [|n IH]; intros s; simpl; [lia|].
  destruct (stop_signal E (clock s) || force_stop s); simpl; [lia|].
  specialize (IH (set_clock s (S (clock s)))). simpl in IH. lia.
Qed.

Section Deadline.
Context (E : Env) (cfg : Config).
Context (handle : nat -> State -> State) (on_error : string -> State -> State).
Hypothesis Hframe : Frame handle on_error.
Hypothesis handle_clock : forall f s, clock (handle f s) = clock s.
Hypothesis on_error_clock : forall p s, clock (on_error p s) = clock s.

Lemma submit_loop_clock (q : list string) :
  forall s, (clock s <= clock (submit_loop E cfg on_error q s).2)%nat.
Proof.
  induction q as [|p rest IH]; intros s; simpl; [lia|].
  destruct (negb (path_exists E (clock s) p) || bool_decide (p ∈ submitted (pass s))).
  - match goal with |- context [submit_loop E cfg on_error rest ?s1] =>
      specialize (IH s1) end. simpl in IH. lia.
  - set (s1 := set_clock (set_queue s rest) (S (clock s))).
    assert (Hcool : exists c i,
      (if (0 <? delay_seconds cfg)%Z && last_submit_set (pass s)
       then cooldown E (cooldown_polls E (S (clock s))) s1
       else (false, s1)) = (i, set_clock (set_queue s rest) c) /\ (clock s <= c)%nat).
    { destruct ((0 <? delay_seconds cfg)%Z && last_submit_set (pass s)).
      - destruct (cooldown_spec E (cooldown_polls E (S (clock s))) s1) as (c & Heq & _).
        pose proof (cooldown_clock E (cooldown_polls E (S (clock s))) s1) as Hle.
        exists c, (cooldown E (cooldown_polls E (S (clock s))) s1).1. split.
        + rewrite (surjective_pairing (cooldown E _ s1)), Heq. reflexivity.
        + rewrite Heq in Hle. simpl in Hle. lia.
      - exists (S (clock s)), false. split; [reflexivity | lia]. }
    destruct Hcool as (c & i & Heq & Hle).
    change (set_clock (set_queue s rest) (S (clock (set_queue s rest)))) with s1.
    change (clock s1) with (S (clock s)).
    change (last_submit_set (pass s1)) with (last_submit_set (pass s)).
    rewrite Heq. destruct i; [simpl; exact Hle|].
    unfold should_stop.
    destruct (stop_signal E (clock (set_clock (set_queue s rest) c))
              || force_stop (set_clock (set_queue s rest) c)); [simpl; lia|].
    destruct (length (api_keys cfg)).
    + match goal with |- context [submit_loop E cfg on_error rest ?s3] =>
        specialize (IH s3) end.
      rewrite on_error_clock in IH. simpl in *. lia.
    + simpl. lia.
Qed.

Lemma drain_clock (done_set : list nat) :
  forall s, (clock s <= clock (drain E cfg handle on_error done_set s))%nat.
Proof.
  induction done_set as [|d rest IH]; intros s; simpl; [lia|].
  match goal with |- context [handle d ?s0] => set (s1 := handle d s0) end.
  assert (H1 : clock s1 = clock s) by (unfold s1; rewrite handle_clock; reflexivity).
  unfold should_stop. destruct (stop_signal E (clock s1) || force_stop s1).
  - specialize (IH (set_clock s1 (S (clock s1)))). simpl in IH. lia.
  - pose proof (submit_loop_clock (queue (pass (set_clock s1 (S (clock s1)))))
                  (set_clock s1 (S (clock s1)))) as H2.
    simpl in H2.
    match goal with |- context [drain E cfg handle on_error rest ?s3] =>
      specialize (IH s3) end.
    simpl in IH. lia.
Qed.

Variable D : nat.
Hypothesis Hdone : done_by E D.

Lemma filter_done (t : nat) (l : list nat) :
  (D <= t)%nat -> filter (fun f => finished E t f = true) l = l.
Proof.
  intros Ht. induction l as [|a l IH]; [reflexivity|].
  rewrite filter_cons. destruct (decide (finished E t a = true)) as [_|Hn].
  - f_equal. exact IH.
  - exfalso. apply Hn, Hdone, Ht.
Qed.

Lemma sliding_window_ends (fuel : nat) :
  forall s,
    (forall f, f ∈ pending (pass s) -> (f < next_future s)%nat) ->
    (1 <= fuel)%nat ->
    pending (pass s) = [] \/ ((D - clock s) + length (queue (pass s)) + 2 <= fuel)%nat ->
    is_Some (sliding_window E cfg handle on_error fuel s).
Proof.
  induction fuel as [|fuel IH]; intros s Hfresh Hone Hm; [lia|].
  simpl. destruct (pending (pass s)) as [|f0 l0] eqn:Hpend; [eauto|].
  destruct Hm as [Hm|Hm]; [discriminate|].
  unfold should_stop. destruct (stop_signal E (clock s) || force_stop s); [eauto|].
  unfold wait_done. simpl.
  destruct (stop_signal E (S (S (clock s))) || force_stop s); [eauto|].
  set (done_set := filter (fun f => finished E (S (clock s)) f = true) (f0 :: l0)).
  set (s3 := set_clock (set_clock (set_clock s (S (clock s))) (S (S (clock s))))
               (S (S (S (clock s))))).
  pose proof (drain_progress E cfg handle on_error Hframe done_set s3) as Hdr.
  pose proof (drain_clock done_set s3) as Hclk.
  set (s4 := drain E cfg handle on_error done_set s3) in *.
  destruct Hdr as (Hq & Hn & Hp & Hd).
  { intros f Hf. change (pending (pass s3)) with (pending (pass s)) in Hf.
    rewrite Hpend in Hf. apply Hfresh. exact Hf. }
  change (queue (pass s3)) with (queue (pass s)) in Hq, Hd.
  change (next_future s3) with (next_future s) in Hn, Hp, Hd.
  change (pending (pass s3)) with (pending (pass s)) in Hp.
  rewrite Hpend in Hp.
  change (clock s3) with (S (S (S (clock s)))) in Hclk.
  apply IH.
  - intros f Hf. destruct (Hp f Hf) as [[Hin _]|Hnew]; [|lia].
    apply Hfresh in Hin. lia.
  - lia.
  - destruct (pending (pass s4)) as [|g l1] eqn:Hp'; [left; reflexivity|].
    right. destruct (le_lt_dec D (S (clock s))) as [Hlate|Hearly].
    + assert (Hall : done_set = f0 :: l0) by (apply filter_done; exact Hlate).
      destruct (Hp g) as [[Hin Hnot]|Hnew]; [left | |].
      * rewrite <- Hall in Hin. contradiction.
      * assert (Hlt : (next_future s < next_future s4)%nat) by lia.
        specialize (Hd Hlt). lia.
    + lia.
Qed.
End Deadline.

Lemma handle_result_clock (E : Env) (f : nat) (s : State) :
  clock (_handle_result E f s) = clock s.
Proof. unfold _handle_result. destruct (outcome E f); repeat case_match; reflexivity. Qed.

Lemma retry_handle_clock (E : Env) (f : nat) (s : State) :
  clock (retry_handle E f s) = clock s.
Proof. unfold retry_handle. destruct (outcome E f); repeat case_match; reflexivity. Qed.

Lemma first_pass_ends (E : Env) (cfg : Config) (D fuel : nat) (s : State) :
  done_by E D -> PendInv (num_workers cfg) s ->
  (D + length (queue (pass s)) + 2 <= fuel)%nat ->
  is_Some (first_pass E cfg fuel s).
Proof.
  intros Hd HI Hf. unfold first_pass.
  destruct (prefill_total E cfg (_handle_result E) first_pass_error (frame_first_pass E)
              (S (num_workers cfg)) s) as [s1 Hpre]; [lia|].
  rewrite Hpre. simpl.
  destruct (frame_first_pass E) as [Hh He].
  destruct (prefill_inv E cfg _ _ _
              (trivially_closed E cfg (_handle_result E) first_pass_error)
              (fun p s => proj1 (He p s)) (fun p s => proj1 (proj2 (He p s)))
              _ s s1 Hpre HI I) as [(_ & Hfresh & _) _].
  pose proof (prefill_queue E cfg (_handle_result E) first_pass_error
                (frame_first_pass E) _ s s1 Hpre) as Hq.
  destruct (sliding_window_ends E cfg _ _ (frame_first_pass E) (handle_result_clock E)
              (fun p s => eq_refl) D Hd fuel s1 Hfresh)
    as [s2 Hsl]; [lia | right; lia |].
  rewrite Hsl. simpl. eauto.
Qed.

Lemma retry_round_ends (E : Env) (cfg : Config) (D fuel : nat)
    (files : list string) (s : State) :
  done_by E D -> (D + length files + 2 <= fuel)%nat ->
  is_Some (retry_round E cfg fuel files s).
Proof.
  intros Hd Hf. unfold retry_round.
  set (s0 := set_rtally (set_pass s (fresh_pass files)) fresh_rtally).
  destruct (prefill_total E cfg (retry_handle E) retry_error (frame_retry E)
              (S (num_workers cfg)) s0) as [s1 Hpre]; [simpl; lia|].
  rewrite Hpre. simpl.
  destruct (frame_retry E) as [Hh He].
  destruct (prefill_inv E cfg _ _ _
              (trivially_closed E cfg (retry_handle E) retry_error)
              (fun p s => proj1 (He p s)) (fun p s => proj1 (proj2 (He p s)))
              _ s0 s1 Hpre (PendInv_fresh _ s files) I) as [(_ & Hfresh & _) _].
  pose proof (prefill_queue E cfg (retry_handle E) retry_error
                (frame_retry E) _ s0 s1 Hpre) as Hq.
  simpl in Hq.
  destruct (sliding_window_ends E cfg _ _ (frame_retry E) (retry_handle_clock E)
              (fun p s => eq_refl) D Hd fuel s1 Hfresh)
    as [s2 Hsl]; [lia | right; lia |].
  rewrite Hsl. simpl. eauto.
Qed.

(** With retries off, a run over a directory of [n] entries whose jobs
    are all done by clock [D] reaches its summary within [D + n + 2]
    turns, whatever the jobs yield. *)
Lemma run_without_retry_ends (E : Env) (cfg : Config) (D fuel : nat) :
  done_by E D -> auto_retry_enabled cfg = false ->
  (forall l, listdir E = Some l -> (D + length l + 2 <= fuel)%nat) ->
  is_Some (batch_process_files E cfg fuel).
Proof.
  intros Hp Hoff Hfuel. unfold batch_process_files.
  unfold should_stop at 1.
  destruct (stop_signal E (clock initial_state) || force_stop initial_state); [eauto|].
  destruct (listdir E) as [dir_list|]; [|eauto].
  specialize (Hfuel dir_list eq_refl).
  match goal with
  | |- context [enumerate E cfg dir_list [] ?s0] =>
      pose proof (enumerate_length E cfg dir_list [] s0) as Hlen;
      destruct (enumerate E cfg dir_list [] s0) as [[files|] s1]
  end; [|eauto].
  specialize (Hlen files eq_refl). simpl in Hlen.
  pose proof (keep_existing_length E files s1) as Hlen2.
  destruct (keep_existing E files s1) as [files2 s2]. simpl in Hlen2.
  destruct (Z.of_nat (length files2) =? 0)%Z; [eauto|].
  unfold should_stop. destruct (stop_signal E (clock s2) || force_stop s2); [eauto|].
  unfold run_files. destruct (num_workers cfg) eqn:HW; [eauto|].
  destruct (first_pass_ends E cfg D fuel
              (set_pass (set_clock s2 (S (clock s2))) (fresh_pass files2)) Hp)
    as [s3 H3].
  - apply PendInv_fresh_pass.
  - simpl. lia.
  - rewrite H3. simpl. unfold auto_retry. rewrite Hoff. simpl. eauto.
Qed.

Lemma is_retryable_below_five (status : string) (attempt : nat) :
  is_retryable status attempt = true -> (attempt < 5)%nat.
Proof.
  intros H. apply is_retryable_true in H as (_ & pol & Hpol & Hlt).
  assert (Hmax : (max_attempts pol <= 5)%nat); [|lia].
  unfold RETRYABLE_STATUSES in Hpol.
  apply elem_of_list_to_map_2 in Hpol.
  repeat (apply elem_of_cons in Hpol as [Hpol|Hpol];
          [inversion Hpol; subst; simpl; lia|]).
  inversion Hpol.
Qed.

Lemma find_failed_entry (p : string) (reg : list (string * string * nat)) :
  is_retryable (find_failed p reg).1 (find_failed p reg).2 = true ->
  (p, (find_failed p reg).1, (find_failed p reg).2) ∈ reg.
Proof.
  induction reg as [|[[fp st] att] reg IH]; simpl.
  - intros H. vm_compute in H. discriminate.
  - destruct (String.eqb_spec fp p) as [->|Hne]; simpl.
    + intros _. left.
    + intros H. right. apply IH, H.
Qed.

Lemma updated_entry (p status : string) (l : list (string * string * nat))
    (q st' : string) (a' : nat) :
  (q, st', a') ∈ map (fun e => if String.eqb e.1.1 p
                              then (e.1.1, status, (e.2 + 1)%nat) else e) l ->
  (q <> p /\ (q, st', a') ∈ l) \/
  (q = p /\ exists st a, (p, st, a) ∈ l /\ a' = (a + 1)%nat).
Proof.
  intros H. apply list_elem_of_fmap in H as ([[fp st] a] & Heq & Hin). simpl in Heq.
  destruct (String.eqb_spec fp p) as [->|Hne].
  - inversion Heq; subst. right. split; [reflexivity|]. eauto.
  - inversion Heq; subst. left. split; [exact Hne | exact Hin].
Qed.

Lemma next_retry_files_length (E : Env) (reg : list (string * string * nat))
    (cur : list string) :
  forall s, (length (next_retry_files E reg cur s).1 <= length cur)%nat.
Proof.
  induction cur as [|p cur IH]; intros s; simpl; [lia|].
  destruct (String.eqb p ""); [specialize (IH s); lia|].
  destruct (path_exists E (clock s) p).
  - destruct (find_failed p reg) as [st att]. destruct (is_retryable st att).
    + specialize (IH (set_clock s (S (clock s)))).
      destruct (next_retry_files E reg cur (set_clock s (S (clock s)))). simpl in *. lia.
    + specialize (IH (set_clock s (S (clock s)))). lia.
  - specialize (IH (set_clock s (S (clock s)))). lia.
Qed.

Lemma retryable_failed_length (E : Env) (reg : list (string * string * nat)) :
  forall s, (length (retryable_failed E reg s).1 <= length reg)%nat.
Proof.
  induction reg as [|[[fp st] att] reg IH]; intros s; simpl; [lia|].
  destruct (String.eqb fp ""); [specialize (IH s); lia|].
  destruct (path_exists E (clock s) fp && is_retryable st att).
  - specialize (IH (set_clock s (S (clock s)))).
    destruct (retryable_failed E reg (set_clock s (S (clock s)))). simpl in *. lia.
  - specialize (IH (set_clock s (S (clock s)))). lia.
Qed.

Section Advance.
Context (E : Env) (cfg : Config).
Hypothesis Harrive : results_arrive E.
Hypothesis Hkeys : api_keys cfg <> [].

Lemma adv_closed (k : nat) (files : list string) :
  Closed E cfg (retry_handle E) retry_error (AdvInv k files).
Proof.
  split.
  - intros s c H. exact H.
  - intros s p rest t (H1 & H2 & (R1 & R2 & R3) & H4) Hq _.
    split; [exact H1|]. split; [exact H2|]. split.
    + split; [exact R1|]. split; [exact R2|].
      intros x Hx. apply R3. rewrite Hq. right. exact Hx.
    + simpl. rewrite Hq in H4. simpl in H4. lia.
  - intros s p rest t (H1 & H2 & (R1 & R2 & R3) & H4) Hq _.
    split; [exact H1|]. split; [exact H2|]. split.
    + split; [exact R1|]. split; [exact R2|].
      intros x Hx. apply R3. rewrite Hq. right. exact Hx.
    + simpl. rewrite Hq in H4. simpl in H4. lia.
  - intros s p rest _ _ Hnil. contradiction.
  - intros s p rest (H1 & H2 & (R1 & R2 & R3) & H4) _ Hq _ _ _ n key_index.
    split; [exact H1|]. split; [exact H2|]. split.
    + split; [exact R1|]. split.
      * simpl. intros f x Hx. apply lookup_insert_Some in Hx as [[_ <-]|[_ Hx]].
        -- apply R3. rewrite Hq. left.
        -- apply (R2 f x Hx).
      * simpl. intros x Hx. apply R3. rewrite Hq. right. exact Hx.
    + simpl. rewrite Hq in H4. simpl in H4. lia.
  - intros s (H1 & H2 & (R1 & R2 & R3) & H4) Hq.
    split; [exact H1|]. split; [exact H2|]. split.
    + split; [exact R1|]. split; [exact R2|]. simpl. intros x Hx. inversion Hx.
    + simpl. rewrite Hq in H4. simpl in H4. lia.
  - intros s f (H1 & H2 & (R1 & R2 & R3) & H4) (Hnd & _ & Hpath & _) Hin.
    destruct (Hpath f Hin) as [p Hp].
    assert (Hpf : p ∈ files) by (apply (R2 f p Hp)).
    pose proof (length_discard f _ Hin Hnd) as Hlen.
    set (s0 := record_event (set_pending s (discard f (pending (pass s))))
                 (EvCollect f (default "" (future_to_path (pass s) !! f)) (outcome E f))).
    assert (Hs0 : default "" (future_to_path (pass s0) !! f) = p)
      by (simpl; rewrite Hp; reflexivity).
    pose proof (Harrive f) as Ha.
    unfold retry_handle. rewrite Hs0.
    destruct (outcome E f) as [status nf| | | |]; try contradiction.
    + destruct (str_in status processed_statuses).
      * split; [|split; [|split]].
        -- simpl. intros q st att Hq Hent. apply list_elem_of_filter in Hent as [_ Hent].
           apply (H1 q st att Hq Hent).
        -- simpl. intros q st att Hq Hent. apply list_elem_of_filter in Hent as [_ Hent].
           apply (H2 q st att Hq Hent).
        -- split; [exact R1|]. split; [exact R2 | exact R3].
        -- simpl. lia.
      * destruct (String.eqb status "stopped").
        -- split; [exact H1|]. split; [exact H2|]. split.
           ++ split; [exact R1|]. split; [exact R2 | exact R3].
           ++ simpl. lia.
        -- pose proof (update_failed_spec p status (failed_files s) 1) as Hup.
           simpl. change (failed_files (set_rtally s0 _)) with (failed_files s).
           destruct (update_failed p status (failed_files s) 1) as [u n]. simpl in Hup.
           subst u.
           assert (G1 : forall q st att, q ∈ files ->
                     (q, st, att) ∈ map (fun e => if String.eqb e.1.1 p
                                            then (e.1.1, status, (e.2 + 1)%nat) else e)
                                        (failed_files s) -> (k <= att)%nat).
           { intros q st att Hq Hent.
             apply updated_entry in Hent as [[_ Hent]|[-> (st0 & a & Hent & ->)]].
             - apply (H1 q st att Hq Hent).
             - specialize (H1 p st0 a Hpf Hent). lia. }
           assert (G2 : forall q st att, q ∈ current_retry_failed_files (rtally s) ->
                     (q, st, att) ∈ map (fun e => if String.eqb e.1.1 p
                                            then (e.1.1, status, (e.2 + 1)%nat) else e)
                                        (failed_files s) -> (S k <= att)%nat).
           { intros q st att Hq Hent.
             apply updated_entry in Hent as [[_ Hent]|[-> (st0 & a & Hent & ->)]].
             - apply (H2 q st att Hq Hent).
             - specialize (H1 p st0 a Hpf Hent). lia. }
           destruct (is_retryable status n).
           ++ split; [exact G1|]. split; [|split].
              ** simpl. intros q st att Hq Hent.
                 apply elem_of_app in Hq as [Hq|Hq]; [apply (G2 q st att Hq Hent)|].
                 apply list_elem_of_singleton in Hq. subst q.
                 apply updated_entry in Hent as [[Hne _]|[_ (st0 & a & Hent & ->)]];
                   [contradiction|].
                 specialize (H1 p st0 a Hpf Hent). lia.
              ** split; [|split; [exact R2 | exact R3]].
                 simpl. intros q Hq. apply elem_of_app in Hq as [Hq|Hq]; [apply R1, Hq|].
                 apply list_elem_of_singleton in Hq. subst q. exact Hpf.
              ** simpl. rewrite length_app. simpl. lia.
           ++ split; [exact G1|]. split; [exact G2|]. split.
              ** split; [exact R1|]. split; [exact R2 | exact R3].
              ** simpl. lia.
    + split; [exact H1|]. split; [exact H2|]. split.
      * split; [exact R1|]. split; [exact R2 | exact R3].
      * simpl. lia.
Qed.
End Advance.

Lemma first_reg_closed (E : Env) (cfg : Config) (n : nat) :
  Closed E cfg (_handle_result E) first_pass_error (FirstReg n).
Proof.
  split.
  - intros s c H. exact H.
  - intros s p rest t [H1 H2] Hq _. split; [exact H1|].
    simpl. rewrite Hq in H2. simpl in H2. lia.
  - intros s p rest t [H1 H2] Hq _. split; [exact H1|].
    simpl. rewrite Hq in H2. simpl in H2. lia.
  - intros s p rest [H1 H2] Hq _. split; [exact H1|].
    simpl. rewrite Hq in H2. simpl in H2. lia.
  - intros s p rest [H1 H2] _ Hq _ _ _ m key_index. split; [exact H1|].
    simpl. rewrite Hq in H2. simpl in H2. lia.
  - intros s [H1 H2] Hq. split; [exact H1|]. simpl. rewrite Hq in H2. simpl in H2. lia.
  - intros s f [H1 H2] (Hnd & _) Hin.
    pose proof (length_discard f _ Hin Hnd) as Hlen.
    unfold _handle_result.
    destruct (outcome E f); repeat case_match; simpl;
      (split; [simpl; intros e He; try (apply elem_of_app in He as [He|He];
                 [|apply list_elem_of_singleton in He; subst e; reflexivity]);
               apply H1, He
              | simpl; rewrite ?length_app; simpl; lia]).
Qed.

Section Ends.
Context (E : Env) (cfg : Config) (D : nat).
Hypothesis Hdone : done_by E D.
Hypothesis Harrive : results_arrive E.
Hypothesis Hkeys : api_keys cfg <> [].

(** One round: the candidates of the next round have seen one more
    attempt, and they are no more than those of this round. *)
Lemma retry_round_advances (k fuel : nat) (files files' : list string) (s s' : State) :
  retry_round E cfg fuel files s = Some (files', s') ->
  Cand k files (failed_files s) ->
  Cand (S k) files' (failed_files s') /\ (length files' <= length files)%nat.
Proof.
  unfold retry_round. intros Hrun Hc.
  set (s0 := set_rtally (set_pass s (fresh_pass files)) fresh_rtally) in *.
  destruct (prefill E cfg retry_error (S (num_workers cfg)) s0) as [s1|] eqn:Hpre;
    [|discriminate].
  simpl in Hrun.
  destruct (sliding_window E cfg (retry_handle E) retry_error fuel s1) as [s2|] eqn:Hsl;
    [|discriminate].
  simpl in Hrun.
  destruct (frame_retry E) as [Hh He].
  assert (H0 : AdvInv k files s0).
  { split; [|split; [|split]].
    - intros p st att Hp Hent. apply (proj2 (Hc p Hp) st att Hent).
    - simpl. intros p st att Hp. inversion Hp.
    - split; [|split]; simpl.
      + intros p Hp. inversion Hp.
      + intros f p Hp. rewrite lookup_empty in Hp. discriminate.
      + intros p Hp. exact Hp.
    - simpl. lia. }
  assert (H1 : PendInv (num_workers cfg) s1 /\ AdvInv k files s1).
  { eapply (prefill_inv E cfg (retry_handle E) retry_error _
              (adv_closed E cfg Harrive Hkeys k files));
      [apply He | apply He | exact Hpre | apply PendInv_fresh | exact H0]. }
  assert (H2 : PendInv (num_workers cfg) s2 /\ AdvInv k files s2).
  { eapply (sliding_window_inv E cfg (retry_handle E) retry_error _
              (adv_closed E cfg Harrive Hkeys k files));
      [apply Hh | apply Hh | apply He | apply He | exact Hsl | apply H1 | apply H1]. }
  destruct H2 as [_ (A1 & A2 & (R1 & _) & A4)].
  assert (Hfin : exists s5,
    failed_files s5 = failed_files s2 /\
    Some (next_retry_files E (failed_files s2)
            (current_retry_failed_files (rtally s2)) s5) = Some (files', s')).
  { unfold should_stop in Hrun. destruct (stop_signal E (clock s2) || force_stop s2).
    - unfold cancel_remaining in Hrun. simpl in Hrun.
      rewrite (proj2 (cancel_events_frame _ _)), (proj1 (cancel_events_frame _ _)) in Hrun.
      simpl in Hrun. refine (ex_intro _ _ (conj _ Hrun)).
      simpl. rewrite (proj2 (cancel_events_frame _ _)). reflexivity.
    - simpl in Hrun. refine (ex_intro _ _ (conj _ Hrun)). reflexivity. }
  destruct Hfin as (s5 & Hreg & Hnext).
  destruct (next_retry_files_clock E (failed_files s2)
              (current_retry_failed_files (rtally s2)) s5) as [c Hclk].
  pose proof (next_retry_files_sound E (failed_files s2)
                (current_retry_failed_files (rtally s2)) s5) as Hsound.
  pose proof (next_retry_files_length E (failed_files s2)
                (current_retry_failed_files (rtally s2)) s5) as Hlen.
  destruct (next_retry_files E (failed_files s2)
              (current_retry_failed_files (rtally s2)) s5) as [r s6].
  simpl in Hclk, Hsound, Hlen. inversion Hnext; subst r s6. subst s'.
  change (failed_files (set_clock s5 c)) with (failed_files s5). rewrite Hreg.
  split; [|lia].
  intros p Hp. destruct (Hsound p Hp) as (Hpc & _ & _ & Hr). split.
  - exists (find_failed p (failed_files s2)).1, (find_failed p (failed_files s2)).2.
    split; [apply find_failed_entry, Hr | apply (is_retryable_below_five _ _ Hr)].
  - intros st att Hent. apply (A2 p st att Hpc Hent).
Qed.

(** The retry loop ends: after four rounds no candidate has attempts
    left. *)
Lemma retry_loop_ends (n : nat) :
  forall k fuel files a s,
    Cand k files (failed_files s) -> (5 <= k + n)%nat ->
    (D + length files + 3 + n <= fuel)%nat ->
    is_Some (retry_loop E cfg fuel files a s).
Proof.
  induction n as [|n IH]; intros k fuel files a s Hc Hk Hf.
  - destruct fuel as [|fuel]; [lia|]. simpl.
    destruct files as [|p files]; [eauto|].
    destruct (Hc p) as [(st & att & Hent & Hlt) Hge]; [left|].
    specialize (Hge st att Hent). lia.
  - destruct fuel as [|fuel]; [lia|]. simpl.
    destruct files as [|p files]; [eauto|].
    unfold should_stop. destruct (stop_signal E (clock s) || force_stop s); [eauto|].
    destruct (retry_round_ends E cfg D fuel (p :: files) (set_clock s (S (clock s))) Hdone)
      as [[files1 s1] Hround]; [simpl in *; lia|].
    rewrite Hround. simpl.
    destruct (retry_round_advances k fuel _ _ _ _ Hround Hc) as [Hc1 Hlen].
    destruct ((retry_processed (rtally s1) =? 0)%Z && (length files1 =? 0)%nat); [eauto|].
    apply (IH (S k)); [exact Hc1 | lia | simpl in *; lia].
Qed.

Lemma auto_retry_ends (fuel n : nat) (s : State) :
  FirstReg n s -> (D + n + 8 <= fuel)%nat ->
  is_Some (auto_retry E cfg fuel s).
Proof.
  intros [Hone Hlen] Hf. unfold auto_retry.
  destruct (auto_retry_enabled cfg && (0 <? failed_count (tally s))%Z); [|eauto].
  unfold should_stop. destruct (stop_signal E (clock s) || force_stop s); [eauto|].
  change (failed_files (set_clock s (S (clock s)))) with (failed_files s).
  destruct (retryable_failed_clock E (failed_files s) (set_clock s (S (clock s))))
    as [c Hc].
  pose proof (retryable_failed_sound E (failed_files s) (set_clock s (S (clock s))))
    as Hsound.
  pose proof (retryable_failed_length E (failed_files s) (set_clock s (S (clock s))))
    as Hrl.
  destruct (retryable_failed E (failed_files s) (set_clock s (S (clock s)))) as [rf s2].
  simpl in Hc, Hsound, Hrl. subst s2.
  destruct (retry_loop_ends 4 1 fuel (map (fun e => e.1.1) rf) 1
              (set_clock (set_clock s (S (clock s))) c)) as [[[files' a'] s3] Hloop].
  - intros p Hp. apply list_elem_of_fmap in Hp as ([[q st] att] & -> & Hin). simpl.
    destruct (Hsound _ Hin) as (Hreg & _ & _ & Hr). simpl in Hr. split.
    + exists st, att. split; [exact Hreg | apply (is_retryable_below_five _ _ Hr)].
    + intros st' att' Hent. specialize (Hone _ Hent). simpl in Hone. lia.
  - lia.
  - rewrite length_map. lia.
  - rewrite Hloop. simpl. destruct files'; eauto.
Qed.
End Ends.

Lemma cancel_events_pass (l : list nat) :
  forall s, pass (foldl (fun s f => record_event s (EvCancel f)) s l) = pass s.
Proof. induction l as [|f l IH]; intros s; simpl; [reflexivity|]. rewrite IH. reflexivity. Qed.

Lemma cancel_stage_keeps (E : Env) (s : State) :
  failed_files (cancel_stage E s) = failed_files s /\
  pass (cancel_stage E s) = pass s.
Proof.
  unfold cancel_stage, should_stop.
  destruct (stop_signal E (clock s) || force_stop s); [|split; reflexivity].
  unfold cancel_remaining. simpl.
  match goal with |- context [(0 <? ?n)%Z] => destruct (0 <? n)%Z end; simpl;
    rewrite (proj2 (cancel_events_frame _ _)), cancel_events_pass; split; reflexivity.
Qed.

Lemma no_reg_closed (E : Env) (cfg : Config) :
  api_keys cfg = [] ->
  Closed E cfg (_handle_result E) first_pass_error NoReg.
Proof.
  intros Hnil. split.
  - intros s c H. exact H.
  - intros s p rest t H _ _. exact H.
  - intros s p rest t H _ _. exact H.
  - intros s p rest H _ _. exact H.
  - intros s p rest _ _ _ _ _ Hne. contradiction.
  - intros s H _. exact H.
  - intros s f [_ Hp] _ Hin. rewrite Hp in Hin. inversion Hin.
Qed.

(** When every job is done by clock [D] and every result can be
    retrieved, a run over a directory of [n] entries reaches its summary
    within [D + n + 8] turns, retries included. *)
Lemma run_ends_when_results_arrive (E : Env) (cfg : Config) (D fuel : nat) :
  done_by E D -> results_arrive E ->
  (forall l, listdir E = Some l -> (D + length l + 8 <= fuel)%nat) ->
  is_Some (batch_process_files E cfg fuel).
Proof.
  intros Hd Ha Hfuel. unfold batch_process_files.
  unfold should_stop at 1.
  destruct (stop_signal E (clock initial_state) || force_stop initial_state); [eauto|].
  destruct (listdir E) as [dir_list|]; [|eauto].
  specialize (Hfuel dir_list eq_refl).
  match goal with
  | |- context [enumerate E cfg dir_list [] ?s0] =>
      pose proof (enumerate_length E cfg dir_list [] s0) as Hlen;
      pose proof (enumerate_clock E cfg dir_list [] s0) as [c1 Hc1];
      destruct (enumerate E cfg dir_list [] s0) as [[files|] s1]
  end; [|eauto].
  specialize (Hlen files eq_refl). simpl in Hlen, Hc1. subst s1.
  match goal with
  | |- context [keep_existing E files ?s0] =>
      pose proof (keep_existing_length E files s0) as Hlen2;
      pose proof (keep_existing_clock E files s0) as [c2 Hc2];
      destruct (keep_existing E files s0) as [files2 s2]
  end.
  simpl in Hlen2, Hc2. subst s2.
  destruct (Z.of_nat (length files2) =? 0)%Z; [eauto|].
  unfold should_stop. match goal with |- context [if ?b then _ else _] => destruct b end;
    [eauto|].
  unfold run_files. destruct (num_workers cfg) eqn:HW; [eauto|].
  match goal with |- context [first_pass E cfg fuel ?s0] => set (sa := s0) end.
  assert (HIa : PendInv (num_workers cfg) sa) by (rewrite HW; apply PendInv_fresh_pass).
  destruct (first_pass_ends E cfg D fuel sa Hd) as [s3 H3];
    [rewrite HW; apply PendInv_fresh_pass | simpl; lia |].
  rewrite H3. simpl.
  assert (Hretry : is_Some (auto_retry E cfg fuel s3)).
  { unfold first_pass in H3. rewrite HW in H3.
    destruct (prefill E cfg first_pass_error (S (S n)) sa) as [sb|] eqn:Hpre;
      [|discriminate].
    simpl in H3.
    destruct (sliding_window E cfg (_handle_result E) first_pass_error fuel sb)
      as [sc|] eqn:Hsl; [|discriminate].
    simpl in H3. inversion H3; subst s3. clear H3.
    destruct (frame_first_pass E) as [Hh He].
    destruct (cancel_stage_keeps E sc) as [Hkf Hkp].
    destruct (decide (api_keys cfg = [])) as [Hnil|Hkeys].
    - assert (Hb : PendInv (num_workers cfg) sb /\ NoReg sb).
      { eapply (prefill_inv E cfg (_handle_result E) first_pass_error _
                  (no_reg_closed E cfg Hnil));
          [apply He | apply He | exact Hpre | exact HIa | split; reflexivity]. }
      assert (Hc : PendInv (num_workers cfg) sc /\ NoReg sc).
      { eapply (sliding_window_inv E cfg (_handle_result E) first_pass_error _
                  (no_reg_closed E cfg Hnil));
          [apply Hh | apply Hh | apply He | apply He | exact Hsl | apply Hb | apply Hb]. }
      destruct Hc as [_ [Hreg _]].
      unfold auto_retry.
      destruct (auto_retry_enabled cfg && _); [|eauto].
      unfold should_stop. match goal with |- context [if ?b then _ else _] => destruct b end;
        [eauto|].
      simpl. rewrite Hkf, Hreg. simpl.
      destruct fuel as [|fuel]; [lia|]. simpl. eauto.
    - assert (Hb : PendInv (num_workers cfg) sb /\ FirstReg (length files2) sb).
      { eapply (prefill_inv E cfg (_handle_result E) first_pass_error _
                  (first_reg_closed E cfg (length files2)));
          [apply He | apply He | exact Hpre | exact HIa |].
        split; [intros e He'; inversion He' | simpl; lia]. }
      assert (Hc : PendInv (num_workers cfg) sc /\ FirstReg (length files2) sc).
      { eapply (sliding_window_inv E cfg (_handle_result E) first_pass_error _
                  (first_reg_closed E cfg (length files2)));
          [apply Hh | apply Hh | apply He | apply He | exact Hsl | apply Hb | apply Hb]. }
      destruct Hc as [_ [Hone Hl]].
      apply (auto_retry_ends E cfg D Hd Ha Hkeys fuel (length files2)); [|lia].
      split.
      + simpl. rewrite Hkf. exact Hone.
      + simpl. rewrite Hkf, Hkp. exact Hl. }
  destruct Hretry as [s4 H4]. rewrite H4. simpl. eauto.
Qed.

(** ** What the run submits *)



















Lemma submitted_event (p : string) (s s' : State) (e : Event) :
  journal s' = e :: journal s -> Submitted p s -> Submitted p s'.
Proof.
  intros Hj (f & k & ks & H). exists f, k, ks. rewrite Hj. right. exact H.
Qed.

Lemma submitted_same (p : string) (s s' : State) :
  journal s' = journal s -> Submitted p s -> Submitted p s'.
Proof. intros Hj (f & k & ks & H). exists f, k, ks. rewrite Hj. exact H. Qed.

Lemma submitted_closed (E : Env) (cfg : Config) (p : string) :
  Closed E cfg (retry_handle E) retry_error (Submitted p).
Proof.
  split.
  - intros s c H. exact H.
  - intros s q rest t H _ _. eapply submitted_event; [|exact H]. reflexivity.
  - intros s q rest t H _ _. eapply submitted_event; [|exact H]. reflexivity.
  - intros s q rest H _ _. eapply submitted_event; [|exact H]. reflexivity.
  - intros s q rest H _ _ _ _ _ n key_index. eapply submitted_event; [|exact H]. reflexivity.
  - intros s H _. exact H.
  - intros s f H _ _. destruct (frame_retry E) as [Hh _].
    match goal with |- Submitted p (retry_handle E f ?s0) =>
      destruct (Hh f s0) as (_ & _ & Hj & _) end.
    eapply submitted_same; [exact Hj|]. eapply submitted_event; [|exact H]. reflexivity.
Qed.

Section Job.
Context (E : Env) (cfg : Config) (p : string).
Hypothesis Hquiet : never_cancelled E.
Hypothesis Hkeeps : forall t, path_exists E t p = true.
Hypothesis Hkeys : api_keys cfg <> [].

Lemma gets_job_closed (handle : nat -> State -> State) (on_error : string -> State -> State) :
  Frame handle on_error ->
  Closed E cfg handle on_error (GetsJob p).
Proof.
  intros [Hh He]. split.
  - intros s c H. exact H.
  - intros s q rest t (H1 & H2 & H3) Hq Hguard. split; [exact H1|]. split.
    + destruct H2 as [H2|H2]; [left; exact H2|].
      rewrite Hq in H2. apply elem_of_cons in H2 as [->|H2]; [|right; exact H2].
      destruct Hguard as [Hgone|Hsub]; [|left; exact Hsub].
      rewrite Hkeeps in Hgone. discriminate.
    + simpl. intros Hs. destruct (H3 Hs) as (f & k & ks & Hev).
      exists f, k, ks. right. exact Hev.
  - intros s q rest t (H1 & _) _ Hstop. rewrite Hquiet, H1 in Hstop. discriminate.
  - intros s q rest _ _ Hnil. contradiction.
  - intros s q rest (H1 & H2 & H3) _ Hq _ _ _ n key_index.
    split; [exact H1|]. simpl. split.
    + destruct H2 as [H2|H2]; [left; apply elem_of_union_r, H2|].
      rewrite Hq in H2. apply elem_of_cons in H2 as [->|H2]; [|right; exact H2].
      left. apply elem_of_union_l, elem_of_singleton. reflexivity.
    + intros Hin. apply elem_of_union in Hin as [Hin|Hin].
      * apply elem_of_singleton in Hin. subst q. eexists _, _, _. left.
      * destruct (H3 Hin) as (f & k & ks & Hev). exists f, k, ks. right. exact Hev.
  - intros s (H1 & H2 & H3) Hq. split; [exact H1|]. split; [|exact H3].
    destruct H2 as [H2|H2]; [left; exact H2|]. rewrite Hq in H2. inversion H2.
  - intros s f (H1 & H2 & H3) _ _.
    match goal with |- GetsJob p (handle f ?s0) =>
      destruct (Hh f s0) as (Hp & _ & Hj & _ & Hf) end.
    split; [rewrite Hf; exact H1|]. rewrite Hp. split; [exact H2|].
    intros Hs. destruct (H3 Hs) as (g & k & ks & Hev). exists g, k, ks.
    rewrite Hj. right. exact Hev.
Qed.

(** A first pass that is never cancelled submits every queued path that
    stays on disk. *)
Lemma first_pass_submits (fuel : nat) (files : list string) (s s' : State) :
  (1 <= num_workers cfg)%nat ->
  first_pass E cfg fuel (set_pass s (fresh_pass files)) = Some s' ->
  force_stop s = false -> p ∈ files ->
  Submitted p s' /\ force_stop s' = false.
Proof.
  unfold first_pass. intros HW Hrun Hfs Hin.
  set (s0 := set_pass s (fresh_pass files)) in *.
  destruct (prefill E cfg first_pass_error (S (num_workers cfg)) s0) as [s1|] eqn:Hpre;
    [|discriminate].
  simpl in Hrun.
  destruct (sliding_window E cfg (_handle_result E) first_pass_error fuel s1)
    as [s2|] eqn:Hsl; [|discriminate].
  simpl in Hrun. inversion Hrun; subst s'.
  destruct (frame_first_pass E) as [Hh He].
  assert (H0 : GetsJob p s0).
  { split; [exact Hfs|]. split; [right; exact Hin|].
    simpl. intros Habs. apply elem_of_empty in Habs. contradiction. }
  assert (H1 : PendInv (num_workers cfg) s1 /\ GetsJob p s1).
  { eapply (prefill_inv E cfg (_handle_result E) first_pass_error _
              (gets_job_closed _ _ (frame_first_pass E)));
      [apply He | apply He | exact Hpre | apply PendInv_fresh_pass | exact H0]. }
  assert (H2 : PendInv (num_workers cfg) s2 /\ GetsJob p s2).
  { eapply (sliding_window_inv E cfg (_handle_result E) first_pass_error _
              (gets_job_closed _ _ (frame_first_pass E)));
      [apply Hh | apply Hh | apply He | apply He | exact Hsl | apply H1 | apply H1]. }
  destruct H2 as [_ (Hf2 & Hsub2 & Hev2)].
  destruct (prefill_quiet E cfg (_handle_result E) first_pass_error (frame_first_pass E)
              Hquiet _ s0 s1 Hpre Hfs HW) as [Hsat1 Hfs1].
  destruct (sliding_window_quiet E cfg (_handle_result E) first_pass_error
              (frame_first_pass E) Hquiet _ s1 s2 Hsl Hsat1 Hfs1) as (_ & Hqueue & _).
  assert (Hs2 : Submitted p s2).
  { apply Hev2. rewrite Hqueue in Hsub2. destruct Hsub2 as [H|H]; [exact H | inversion H]. }
  unfold cancel_stage, should_stop. rewrite Hquiet, Hf2. simpl.
  split; [|exact Hf2]. eapply submitted_event; [|exact Hs2]. reflexivity.
Qed.
End Job.

Lemma enumerate_complete (E : Env) (cfg : Config) (filename : string) (l : list string) :
  never_cancelled E ->
  accepted cfg filename = true ->
  (forall t, path_isfile E t (path_join (input_dir cfg) filename) = true) ->
  forall acc s,
    force_stop s = false ->
    filename ∈ l \/ path_join (input_dir cfg) filename ∈ acc ->
    exists files, (enumerate E cfg l acc s).1 = Some files /\
                  path_join (input_dir cfg) filename ∈ files.
Proof.
  intros Hq Hacc Hfile. induction l as [|x l IH]; intros acc s Hfs Hin; simpl.
  - destruct Hin as [Hin|Hin]; [inversion Hin|]. exists acc. split; [reflexivity | exact Hin].
  - unfold should_stop. rewrite Hq, Hfs. simpl.
    fold (accepted cfg x). destruct (accepted cfg x) eqn:Hax.
    + unfold isfile_now. simpl.
      destruct (path_isfile E (S (clock s)) (path_join (input_dir cfg) x)) eqn:Hfx.
      * apply IH; [exact Hfs|]. destruct Hin as [Hin|Hin].
        -- apply elem_of_cons in Hin as [->|Hin]; [|left; exact Hin].
           right. apply elem_of_app. right. left.
        -- right. apply elem_of_app. left. exact Hin.
      * apply IH; [exact Hfs|]. destruct Hin as [Hin|Hin]; [|right; exact Hin].
        apply elem_of_cons in Hin as [->|Hin]; [|left; exact Hin].
        rewrite Hfile in Hfx. discriminate.
    + apply IH; [exact Hfs|]. destruct Hin as [Hin|Hin]; [|right; exact Hin].
      apply elem_of_cons in Hin as [->|Hin]; [|left; exact Hin].
      rewrite Hacc in Hax. discriminate.
Qed.

Lemma keep_existing_complete (E : Env) (p : string) (l : list string) :
  (forall t, path_exists E t p = true) ->
  forall s, p ∈ l -> p ∈ (keep_existing E l s).1.
Proof.
  intros Hex. induction l as [|x l IH]; intros s Hin; [inversion Hin|]. simpl.
  specialize (IH (set_clock s (S (clock s)))).
  destruct (keep_existing E l (set_clock s (S (clock s)))) as [r s2]. simpl in *.
  apply elem_of_cons in Hin as [->|Hin].
  - rewrite Hex. left.
  - destruct (path_exists E (clock s) x); [right|]; apply IH, Hin.
Qed.

(** In a run that is never cancelled, with a credential and a worker,
    every accepted entry of the input directory that stays a file on disk
    gets its job. *)
Lemma every_listed_file_gets_a_job (E : Env) (cfg : Config) (fuel : nat)
    (sm : Summary) (s' : State) (l : list string) (filename : string) :
  never_cancelled E -> api_keys cfg <> [] -> (1 <= num_workers cfg)%nat ->
  listdir E = Some l -> filename ∈ l -> accepted cfg filename = true ->
  (forall t, path_isfile E t (path_join (input_dir cfg) filename) = true) ->
  (forall t, path_exists E t (path_join (input_dir cfg) filename) = true) ->
  batch_process_files E cfg fuel = Some (sm, s') ->
  exists f k ks, EvSubmit f (path_join (input_dir cfg) filename) k ks ∈ journal s'.
Proof.
  intros Hq Hkeys HW Hl Hin Hacc Hfile Hex Hrun.
  set (p := path_join (input_dir cfg) filename) in *.
  unfold batch_process_files in Hrun.
  unfold should_stop in Hrun at 1. rewrite Hq in Hrun. simpl in Hrun. rewrite Hl in Hrun.
  match type of Hrun with
  | context [enumerate E cfg l [] ?s0] =>
      destruct (enumerate_complete E cfg filename l Hq Hacc Hfile [] s0 eq_refl
                  (or_introl Hin)) as (files & Hen & Hpf);
      destruct (enumerate_clock E cfg l [] s0) as [c1 Hc1];
      destruct (enumerate E cfg l [] s0) as [o s1]
  end.
  simpl in Hen, Hc1. subst o s1.
  match type of Hrun with
  | context [keep_existing E files ?s0] =>
      pose proof (keep_existing_complete E p files Hex s0 Hpf) as Hke;
      destruct (keep_existing_clock E files s0) as [c2 Hc2];
      destruct (keep_existing E files s0) as [files2 s2]
  end.
  simpl in Hke, Hc2. subst s2.
  destruct (Z.eqb_spec (Z.of_nat (length files2)) 0) as [Hz|_].
  { destruct files2; [inversion Hke | simpl in Hz; lia]. }
  rewrite Hq in Hrun. simpl in Hrun.
  unfold run_files in Hrun. destruct (num_workers cfg) eqn:HWn; [lia|].
  match type of Hrun with
  | context [first_pass E cfg fuel (set_pass ?s0 _)] => set (sa := s0) in *
  end.
  destruct (first_pass E cfg fuel (set_pass sa (fresh_pass files2))) as [s3|] eqn:H3;
    [|discriminate].
  simpl in Hrun.
  destruct (auto_retry E cfg fuel s3) as [s4|] eqn:H4; [|discriminate].
  simpl in Hrun. inversion Hrun; subst sm s'.
  destruct (first_pass_submits E cfg p Hq Hex Hkeys fuel files2 sa s3) as [Hs3 _];
    [lia | exact H3 | reflexivity | exact Hke |].
  apply (auto_retry_chain E cfg (Submitted p) (Submitted p) (submitted_closed E cfg p))
    with (fuel := fuel) (s := s3); [| | | | exact H4 | exact Hs3].
  - intros s c H. exact H.
  - intros s fs H. exact H.
  - intros s f H. eapply submitted_event; [|exact H]. reflexivity.
  - intros s H. eapply submitted_event; [|exact H]. reflexivity.
Qed.

Lemma find_failed_in (p st : string) (a : nat) (reg : list (string * string * nat)) :
  (p, st, a) ∈ reg -> (p, (find_failed p reg).1, (find_failed p reg).2) ∈ reg.
Proof.
  induction reg as [|[[fp st0] a0] reg IH]; intros Hin; [inversion Hin|]. simpl.
  destruct (String.eqb_spec fp p) as [->|Hne]; simpl; [left|].
  apply elem_of_cons in Hin as [Heq|Hin]; [inversion Heq; subst; contradiction|].
  right. apply IH, Hin.
Qed.

Lemma append_nonempty (x y : string) : y <> "" -> x +:+ y <> "".
Proof. intros Hy. destruct x; simpl; [exact Hy | discriminate]. Qed.

Lemma path_join_nonempty (a b : string) : b <> "" -> path_join a b <> "".
Proof.
  intros Hb. unfold path_join. destruct (startswith b "/"); [exact Hb|].
  destruct (String.eqb a "" || endswith a "/"); repeat apply append_nonempty; exact Hb.
Qed.

Section Lost.
Context (E : Env) (cfg : Config) (p : string).
Hypothesis Hquiet : never_cancelled E.
Hypothesis Hkeeps : forall t, path_exists E t p = true.
Hypothesis Hlost : results_lost E.
Hypothesis Hkeys : api_keys cfg <> [].

Lemma lost_closed : Closed E cfg (_handle_result E) first_pass_error (LostInv p).
Proof.
  split.
  - intros s c H. exact H.
  - intros s q rest t (H1 & H2 & H3 & H4 & H5) Hq Hguard.
    split; [exact H1|]. split; [exact H2|]. split; [exact H3|]. split; [|exact H5].
    destruct H4 as [H4|H4]; [left; exact H4|].
    rewrite Hq in H4. apply elem_of_cons in H4 as [->|H4]; [|right; exact H4].
    destruct Hguard as [Hgone|Hsub]; [|left; exact Hsub].
    rewrite Hkeeps in Hgone. discriminate.
  - intros s q rest t (H1 & _) _ Hstop. rewrite Hquiet, H1 in Hstop. discriminate.
  - intros s q rest _ _ Hnil. contradiction.
  - intros s q rest (H1 & H2 & H3 & H4 & H5) (_ & Hfresh & _) Hq _ _ _ n key_index.
    split; [exact H1|]. split; [exact H2|]. split; [exact H3|]. simpl. split.
    + destruct H4 as [H4|H4]; [left; apply elem_of_union_r, H4|].
      rewrite Hq in H4. apply elem_of_cons in H4 as [->|H4]; [|right; exact H4].
      left. apply elem_of_union_l, elem_of_singleton. reflexivity.
    + intros Hin. apply elem_of_union in Hin as [Hin|Hin].
      * apply elem_of_singleton in Hin. subst q. left. exists (next_future s).
        split; [left|]. apply lookup_insert_eq.
      * destruct (H5 Hin) as [(f & Hf & Hpath)|Hreg]; [|right; exact Hreg].
        left. exists f. split; [right; exact Hf|].
        rewrite lookup_insert_ne; [exact Hpath|].
        specialize (Hfresh f Hf). lia.
  - intros s (H1 & H2 & H3 & H4 & H5) Hq.
    split; [exact H1|]. split; [exact H2|]. split; [exact H3|]. split; [|exact H5].
    destruct H4 as [H4|H4]; [left; exact H4|]. rewrite Hq in H4. inversion H4.
  - intros s f (H1 & H2 & H3 & H4 & H5) _ Hin.
    assert (G : forall status,
      status = "failed_timeout" \/ status = "failed_exception" ->
      forall s1 : State,
        force_stop s1 = false -> pass s1 = pass (set_pending s (discard f (pending (pass s)))) ->
        failed_files s1 = (failed_files s ++
                             [(default "" (future_to_path (pass s) !! f), status, 1%nat)])%list ->
        (failed_count (tally s1) = failed_count (tally s) + 1)%Z ->
        LostInv p s1).
    { intros status Hst s1 Hf1 Hp1 Hr1 Hc1.
      split; [exact Hf1|]. split; [|split; [|split]].
      - rewrite Hr1. intros e He. apply elem_of_app in He as [He|He]; [apply H2, He|].
        apply list_elem_of_singleton in He. subst e. simpl. split; [exact Hst | reflexivity].
      - rewrite Hr1, Hc1, length_app. simpl. lia.
      - rewrite Hp1. exact H4.
      - rewrite Hp1, Hr1. simpl. intros Hs.
        destruct (H5 Hs) as [(g & Hg & Hpath)|[st Hreg]].
        + destruct (decide (g = f)) as [->|Hne].
          * right. exists status. rewrite Hpath. simpl. apply elem_of_app. right. left.
          * left. exists g. split; [|exact Hpath].
            apply list_elem_of_filter. split; assumption.
        + right. exists st. apply elem_of_app. left. exact Hreg. }
    unfold _handle_result. destruct (Hlost f) as [-> | ->].
    + apply (G "failed_timeout"); [left; reflexivity | exact H1 | | |]; reflexivity.
    + apply (G "failed_exception"); [right; reflexivity | exact H1 | | |]; reflexivity.
Qed.
End Lost.

(** When no result can be retrieved and retries are on, the run never
    reaches its summary: one accepted directory entry that stays on disk
    is enough to keep the retry loop going, whatever the fuel. *)
Lemma run_never_ends_when_results_are_lost (E : Env) (cfg : Config)
    (l : list string) (filename : string) (fuel : nat) :
  never_cancelled E -> results_lost E ->
  api_keys cfg <> [] -> (1 <= num_workers cfg)%nat -> auto_retry_enabled cfg = true ->
  listdir E = Some l -> filename ∈ l -> filename <> "" -> accepted cfg filename = true ->
  (forall t, path_isfile E t (path_join (input_dir cfg) filename) = true) ->
  (forall t, path_exists E t (path_join (input_dir cfg) filename) = true) ->
  batch_process_files E cfg fuel = None.
Proof.
  intros Hq Hlost Hkeys HW Hon Hl Hin Hne Hacc Hfile Hex.
  set (p := path_join (input_dir cfg) filename) in *.
  unfold batch_process_files.
  unfold should_stop at 1. rewrite Hq. simpl. rewrite Hl.
  match goal with
  | |- context [enumerate E cfg l [] ?s0] =>
      destruct (enumerate_complete E cfg filename l Hq Hacc Hfile [] s0 eq_refl
                  (or_introl Hin)) as (files & Hen & Hpf);
      destruct (enumerate_clock E cfg l [] s0) as [c1 Hc1];
      destruct (enumerate E cfg l [] s0) as [o s1]
  end.
  simpl in Hen, Hc1. subst o s1.
  match goal with
  | |- context [keep_existing E files ?s0] =>
      pose proof (keep_existing_complete E p files Hex s0 Hpf) as Hke;
      destruct (keep_existing_clock E files s0) as [c2 Hc2];
      destruct (keep_existing E files s0) as [files2 s2]
  end.
  simpl in Hke, Hc2. subst s2.
  destruct (Z.eqb_spec (Z.of_nat (length files2)) 0) as [Hz|_].
  { destruct files2; [inversion Hke | simpl in Hz; lia]. }
  rewrite Hq. simpl.
  unfold run_files. destruct (num_workers cfg) eqn:HWn; [lia|].
  match goal with
  | |- context [first_pass E cfg fuel ?s0] => set (s0' := s0)
  end.
  destruct (first_pass E cfg fuel s0') as [s3|] eqn:H3; [|reflexivity].
  simpl.
  assert (Hs3 : LostInv p s3 /\ queue (pass s3) = [] /\ pending (pass s3) = []).
  { unfold first_pass in H3. rewrite HWn in H3.
    destruct (prefill E cfg first_pass_error (S (S n)) s0') as [s1|] eqn:Hpre;
      [|discriminate].
    simpl in H3.
    destruct (sliding_window E cfg (_handle_result E) first_pass_error fuel s1)
      as [s2|] eqn:Hsl; [|discriminate].
    simpl in H3. inversion H3; subst s3. clear H3.
    destruct (frame_first_pass E) as [Hh He].
    assert (H0 : LostInv p s0').
    { split; [reflexivity|]. split; [intros e He'; inversion He'|].
      split; [simpl; lia|]. split; [right; exact Hke|].
      simpl. intros Habs. apply elem_of_empty in Habs. contradiction. }
    assert (HI0 : PendInv (num_workers cfg) s0')
      by (rewrite HWn; apply PendInv_fresh_pass).
    rewrite <- HWn in Hpre.
    assert (H1 : PendInv (num_workers cfg) s1 /\ LostInv p s1).
    { eapply (prefill_inv E cfg (_handle_result E) first_pass_error _
                (lost_closed E cfg p Hq Hex Hlost Hkeys));
        [apply He | apply He | exact Hpre | exact HI0 | exact H0]. }
    assert (H2 : PendInv (num_workers cfg) s2 /\ LostInv p s2).
    { eapply (sliding_window_inv E cfg (_handle_result E) first_pass_error _
                (lost_closed E cfg p Hq Hex Hlost Hkeys));
        [apply Hh | apply Hh | apply He | apply He | exact Hsl | apply H1 | apply H1]. }
    destruct H2 as [_ H2].
    destruct (prefill_quiet E cfg (_handle_result E) first_pass_error (frame_first_pass E)
                Hq _ s0' s1 Hpre eq_refl) as [Hsat1 Hfs1]; [lia|].
    destruct (sliding_window_quiet E cfg (_handle_result E) first_pass_error
                (frame_first_pass E) Hq _ s1 s2 Hsl Hsat1 Hfs1) as (Hpend & Hqueue & Hf2).
    unfold cancel_stage, should_stop. rewrite Hq, Hf2. simpl.
    split; [exact H2|]. split; assumption. }
  destruct Hs3 as ((Hf3 & Hreg3 & Hcnt3 & Hsub3 & Hent3) & Hqueue3 & Hpend3).
  assert (Hentry : exists st, (p, st, 1%nat) ∈ failed_files s3).
  { rewrite Hqueue3 in Hsub3. destruct Hsub3 as [Hs|Habs]; [|inversion Habs].
    destruct (Hent3 Hs) as [(f & Hf & _)|Hr]; [|exact Hr].
    rewrite Hpend3 in Hf. inversion Hf. }
  destruct Hentry as [st Hentry].
  assert (Hall : forall e, e ∈ failed_files s3 -> is_retryable e.1.2 e.2 = true).
  { intros e He. destruct (Hreg3 e He) as [[-> | ->] ->]; vm_compute; reflexivity. }
  assert (Hun : unretrievable E)
    by (intros f; destruct (Hlost f) as [H|H]; auto).
  assert (HW' : (1 <= num_workers cfg)%nat) by lia.
  assert (Hname : p <> "") by (apply path_join_nonempty, Hne).
  assert (Hretry : is_retryable (find_failed p (failed_files s3)).1
                     (find_failed p (failed_files s3)).2 = true)
    by (apply (Hall (p, _, _)); apply (find_failed_in p st 1), Hentry).
  assert (Hfailed : (0 < failed_count (tally s3))%Z)
    by (destruct (failed_files s3); [inversion Hentry | simpl in Hcnt3; lia]).
  rewrite (unretrievable_retry_never_ends E cfg p (failed_files s3) Hq Hex Hun Hkeys
             HW' Hname Hretry fuel s3 st 1 Hon Hfailed Hf3 eq_refl Hentry
             (Hall (p, st, 1%nat) Hentry)).
  reflexivity.
Qed.

(** ** The recommended worker count, and concrete runs *)

(** The recommended worker count is between 4 and 100 whatever the
    machine reports, it never decreases when the machine has more
    processors, and it is 100 exactly from 67 processors on. *)
Theorem recommended_workers_range (c d : nat) :
  (4 <= get_recommended_workers None <= 100)%nat /\
  (4 <= get_recommended_workers (Some c) <= 100)%nat /\
  (get_recommended_workers (Some (S c)) <= get_recommended_workers (Some (S c + d)))%nat /\
  (get_recommended_workers (Some (S c)) = 100%nat <-> (67 <= S c)%nat).
Proof.
  unfold get_recommended_workers.
  split; [simpl; lia|]. split; [|split].
  - destruct c as [|n]; [simpl; lia|].
    pose proof (Nat.Div0.div_le_mono (S n * 3) (S n * 3) 2). lia.
  - replace (S c + d)%nat with (S (c + d)) by lia.
    assert (H : (S c * 3 / 2 <= S (c + d) * 3 / 2)%nat)
      by (apply Nat.Div0.div_le_mono; lia).
    lia.
  - assert (H1 : (S c * 3 / 2 * 2 <= S c * 3)%nat)
      by (rewrite Nat.mul_comm; apply Nat.Div0.mul_div_le).
    assert (H2 : (S c * 3 < (S c * 3 / 2 + 1) * 2)%nat).
    { pose proof (Nat.div_mod_eq (S c * 3) 2).
      pose proof (Nat.mod_upper_bound (S c * 3) 2). lia. }
    lia.
Qed.

Lemma run_without_retry_ends_witness :
  is_Some (batch_process_files slow_env (demo_config 2 false) 37).
Proof.
  apply (run_without_retry_ends slow_env (demo_config 2 false) 30 37).
  - intros t f Ht. apply Nat.leb_le. exact Ht.
  - reflexivity.
  - intros l Hl. inversion Hl; subst. simpl. lia.
Defined.

Lemma run_ends_when_results_arrive_witness :
  is_Some (batch_process_files served_env (demo_config 2 true) 43).
Proof.
  apply (run_ends_when_results_arrive served_env (demo_config 2 true) 30 43).
  - intros t f Ht. apply Nat.leb_le. exact Ht.
  - intros f. destruct f as [|[|[|f]]]; exact I.
  - intros l Hl. inversion Hl; subst. simpl. lia.
Defined.

Lemma run_never_ends_when_results_are_lost_witness :
  batch_process_files lost_env (demo_config 2 true) 1000 = None.
Proof.
  apply (run_never_ends_when_results_are_lost lost_env (demo_config 2 true)
           ["a.jpg"; "b.jpg"; "c.png"; "notes.txt"; ".hidden.jpg"] "b.jpg" 1000).
  - intros t. reflexivity.
  - intros f. left. reflexivity.
  - discriminate.
  - simpl. lia.
  - reflexivity.
  - reflexivity.
  - apply list_elem_of_In. simpl. tauto.
  - discriminate.
  - vm_compute. reflexivity.
  - intros t. reflexivity.
  - intros t. reflexivity.
Defined.


Lemma every_listed_file_gets_a_job_witness :
  exists f k ks,
    EvSubmit f (path_join (input_dir (demo_config 2 true)) "c.png") k ks
    ∈ journal (state_of quiet_run).
Proof.
  apply (every_listed_file_gets_a_job
           (quiet_env nothing_gone demo_outcome all_finished) (demo_config 2 true) 20
           (summary_of quiet_run) (state_of quiet_run)
           ["a.jpg"; "b.jpg"; "c.png"; "notes.txt"; ".hidden.jpg"] "c.png").
  - intros t. reflexivity.
  - discriminate.
  - simpl. lia.
  - reflexivity.
  - apply list_elem_of_In. simpl. tauto.
  - vm_compute. reflexivity.
  - intros t. reflexivity.
  - intros t. reflexivity.
  - vm_compute. reflexivity.
Defined.

(** ** The EXIF writer *)

(** *** White space *)

Lemma lstrip_chars_idem (l : list ascii) : lstrip_chars (lstrip_chars l) = lstrip_chars l.
Proof.
  induction l as [|c l IH]; [reflexivity|]. simpl.
  destruct (ascii_isspace c) eqn:Hc; [exact IH|]. simpl. rewrite Hc. reflexivity.
Qed.




Lemma chars_str (l : list ascii) : chars (str l) = l.
Proof. apply list_ascii_of_string_of_list_ascii. Qed.

Lemma str_chars (s : string) : str (chars s) = s.
Proof. apply string_of_list_ascii_of_string. Qed.




Ltac in_list := apply list_elem_of_In; simpl; tauto.
Ltac not_in_list H := apply list_elem_of_In in H; simpl in H; intuition discriminate.

Section ExifWriter.
Import exif_writer.

(** *** The keywords *)






(** *** What a run of exiftool may change *)


Lemma exiftool_run_frame (X : ExifTool) (cmd : list string) (target : string)
    (w : ExifWorld) (q : string) :
  (q <> target -> xfs (exiftool_run X cmd target w) !! q = xfs w !! q) /\
  (is_Some (xfs (exiftool_run X cmd target w) !! q) <-> is_Some (xfs w !! q)).
Proof.
  unfold exiftool_run. simpl.
  destruct (xfs w !! target) as [[c|]|] eqn:Ht; try (split; [reflexivity | reflexivity]).
  split.
  - intros Hne. apply lookup_insert_ne. congruence.
  - destruct (decide (q = target)) as [->|Hne].
    + rewrite lookup_insert_eq, Ht. split; eauto.
    + rewrite lookup_insert_ne by congruence. reflexivity.
Qed.

Lemma run_command_frame (X : ExifTool) (cmd : list string) (target : string)
    (w : ExifWorld) (q : string) :
  (q <> target -> xfs (run_command X cmd target w).2 !! q = xfs w !! q) /\
  (is_Some (xfs (run_command X cmd target w).2 !! q) <-> is_Some (xfs w !! q)) /\
  (run_command X cmd target w).1 ∈
    [(false, "stopped"); (true, "exiftool_not_found"); (true, "exif_ok");
     (true, "exif_failed")].
Proof.
  unfold run_command.
  destruct (exif_stop X XC_write); [simpl; split; [|split]; [reflexivity..|in_list]|].
  destruct (spawn X cmd) as [polls rc| |].
  - destruct (poll_loop X polls 0); [|destruct (rc =? 0)%Z]; simpl;
      (split; [|split]; [apply exiftool_run_frame | apply exiftool_run_frame | in_list]).
  - simpl. split; [|split]; [reflexivity..|in_list].
  - simpl. split; [|split]; [apply exiftool_run_frame | apply exiftool_run_frame | in_list].
Qed.

Lemma os_path_exists_is_Some (f : FS) (p : string) :
  os_path_exists f p = true <-> is_Some (f !! p).
Proof. unfold os_path_exists. apply bool_decide_eq_true. Qed.

(** The contract of [write_exif_with_exiftool]: one of six
    (proceed, status) pairs, of which only [stopped] and [copy_failed]
    tell the caller not to proceed; when it tells to proceed the output
    file exists; a failed copy leaves everything as it was; and no file
    but the output is ever touched. *)
Theorem write_exif_contract (X : ExifTool) (image_path output_path : string)
    (m : Metadata) (w : ExifWorld) :
  let r := write_exif_with_exiftool X image_path output_path m w in
  r.1 ∈ [(false, "stopped"); (false, "copy_failed"); (true, "no_metadata");
         (true, "exiftool_not_found"); (true, "exif_ok"); (true, "exif_failed")] /\
  (r.1.1 = true -> os_path_exists (xfs r.2) output_path = true) /\
  (r.1 = (false, "copy_failed") -> r.2 = w /\ os_path_exists (xfs w) output_path = false) /\
  (forall q, q <> output_path -> xfs r.2 !! q = xfs w !! q).
Proof.
  unfold write_exif_with_exiftool.
  destruct (exif_stop X XC_entry).
  { simpl. split; [in_list|]. split; [discriminate|]. split; [discriminate | reflexivity]. }
  set (copied := if negb (os_path_exists (xfs w) output_path)
                 then shutil_copy2 (xfs w) image_path output_path else Some (xfs w)).
  assert (Hcopied : match copied with
                    | None => os_path_exists (xfs w) output_path = false
                    | Some f1 => is_Some (f1 !! output_path) /\
                                 forall q, q <> output_path -> f1 !! q = xfs w !! q
                    end).
  { unfold copied. destruct (os_path_exists (xfs w) output_path) eqn:Hex; simpl.
    - split; [apply os_path_exists_is_Some, Hex | reflexivity].
    - unfold shutil_copy2. destruct (xfs w !! image_path) as [[c|]|]; try reflexivity.
      split; [rewrite lookup_insert_eq; eauto|].
      intros q Hq. apply lookup_insert_ne. congruence. }
  destruct copied as [f1|].
  2:{ simpl. split; [in_list|]. split; [discriminate|]. split; [|reflexivity].
      intros _. split; [reflexivity | exact Hcopied]. }
  destruct Hcopied as [Hout Hframe].
  set (w1 := {| xfs := f1; exif_runs := exif_runs w |}).
  assert (Hstay : forall r : (bool * string) * ExifWorld,
            r.2 = w1 ->
            r.1 ∈ [(false, "stopped"); (true, "no_metadata"); (true, "exiftool_not_found")] ->
            r.1 ∈ [(false, "stopped"); (false, "copy_failed"); (true, "no_metadata");
                   (true, "exiftool_not_found"); (true, "exif_ok"); (true, "exif_failed")] /\
            (r.1.1 = true -> os_path_exists (xfs r.2) output_path = true) /\
            (r.1 = (false, "copy_failed") ->
             r.2 = w /\ os_path_exists (xfs w) output_path = false) /\
            (forall q, q <> output_path -> xfs r.2 !! q = xfs w !! q)).
  { intros r -> Hr. split; [apply list_elem_of_In in Hr; simpl in Hr; in_list|]. split; [|split].
    - intros _. apply os_path_exists_is_Some. exact Hout.
    - intros Habs. rewrite Habs in Hr. not_in_list Hr.
    - exact Hframe. }
  destruct (exif_stop X XC_copied); [apply Hstay; [reflexivity | in_list]|].
  destruct (String.eqb (title m) "" && String.eqb (description m) ""
            && bool_decide (cleaned_tags_of m = []));
    [apply Hstay; [reflexivity | in_list]|].
  destruct (negb (truthy (EXIFTOOL_PATH X))); [apply Hstay; [reflexivity | in_list]|].
  destruct (exif_stop X XC_clear); [apply Hstay; [reflexivity | in_list]|].
  set (w2 := exiftool_run X _ output_path w1).
  assert (H2 : is_Some (xfs w2 !! output_path) /\
               forall q, q <> output_path -> xfs w2 !! q = xfs w !! q).
  { split.
    - apply (exiftool_run_frame X _ output_path w1 output_path). exact Hout.
    - intros q Hq. unfold w2.
      rewrite (proj1 (exiftool_run_frame X _ output_path w1 q) Hq). apply Hframe, Hq. }
  destruct H2 as [Hout2 Hframe2].
  destruct (exif_stop X XC_cleared).
  { simpl. split; [in_list|]. split; [discriminate|]. split; [discriminate | exact Hframe2]. }
  match goal with |- context [run_command X ?cmd output_path w2] =>
    pose proof (run_command_frame X cmd output_path w2) as Hrun;
    destruct (run_command X cmd output_path w2) as [r w3]
  end.
  simpl in *. split; [|split; [|split]].
  - destruct (Hrun output_path) as (_ & _ & Hr). apply list_elem_of_In in Hr; simpl in Hr. in_list.
  - intros _. apply os_path_exists_is_Some.
    apply (proj1 (proj2 (Hrun output_path))). exact Hout2.
  - intros Habs. destruct (Hrun output_path) as (_ & _ & Hr). subst r. not_in_list Hr.
  - intros q Hq. rewrite (proj1 (Hrun q) Hq). apply Hframe2, Hq.
Qed.

(** With nothing to write (no title, no description, no keyword left) or
    without an exiftool path, exiftool is never started: the call is a
    plain copy of the image to the output when the output is missing, and
    changes nothing otherwise. *)
Theorem exiftool_is_not_started (X : ExifTool) (image_path output_path : string)
    (m : Metadata) (w : ExifWorld) :
  (title m = "" /\ description m = "" /\ cleaned_tags_of m = []) \/
  truthy (EXIFTOOL_PATH X) = false ->
  let r := write_exif_with_exiftool X image_path output_path m w in
  exif_runs r.2 = exif_runs w /\
  r.1 ∈ [(false, "stopped"); (false, "copy_failed"); (true, "no_metadata");
         (true, "exiftool_not_found")] /\
  (xfs r.2 = xfs w \/
   exists c, xfs w !! output_path = None /\ xfs w !! image_path = Some (FileNode c) /\
             xfs r.2 = <[output_path := FileNode c]> (xfs w)).
Proof.
  intros Hidle. unfold write_exif_with_exiftool.
  destruct (exif_stop X XC_entry).
  { simpl. split; [reflexivity|]. split; [in_list | left; reflexivity]. }
  set (copied := if negb (os_path_exists (xfs w) output_path)
                 then shutil_copy2 (xfs w) image_path output_path else Some (xfs w)).
  assert (Hcopied : match copied with
                    | None => True
                    | Some f1 =>
                        f1 = xfs w \/
                        exists c, xfs w !! output_path = None /\
                                  xfs w !! image_path = Some (FileNode c) /\
                                  f1 = <[output_path := FileNode c]> (xfs w)
                    end).
  { unfold copied. destruct (os_path_exists (xfs w) output_path) eqn:Hex; simpl.
    - left. reflexivity.
    - apply os_path_exists_false in Hex.
      unfold shutil_copy2. destruct (xfs w !! image_path) as [[c|]|] eqn:Him; try exact I.
      right. exists c. split; [exact Hex|]. split; reflexivity. }
  destruct copied as [f1|].
  2:{ simpl. split; [reflexivity|]. split; [in_list | left; reflexivity]. }
  destruct (exif_stop X XC_copied).
  { simpl. split; [reflexivity|]. split; [in_list | exact Hcopied]. }
  destruct Hidle as [(Ht & Hd & Hc)|Hno].
  - rewrite Ht, Hd, Hc. simpl.
    split; [reflexivity|]. split; [in_list | exact Hcopied].
  - destruct (String.eqb (title m) "" && String.eqb (description m) ""
              && bool_decide (cleaned_tags_of m = [])).
    + simpl. split; [reflexivity|]. split; [in_list | exact Hcopied].
    + rewrite Hno. simpl. split; [reflexivity|]. split; [in_list | exact Hcopied].
Qed.

(** [write_exif_to_video] never creates or removes a file and touches
    none but the output; it answers [output_missing] without doing
    anything when the output file is not there, and otherwise one of five
    (proceed, status) pairs. *)
Theorem write_exif_to_video_keeps_files (X : ExifTool) (input_path output_path : string)
    (m : Metadata) (w : ExifWorld) :
  let r := write_exif_to_video X input_path output_path m w in
  (forall q, is_Some (xfs r.2 !! q) <-> is_Some (xfs w !! q)) /\
  (forall q, q <> output_path -> xfs r.2 !! q = xfs w !! q) /\
  r.1 ∈ [(false, "stopped"); (false, "output_missing"); (true, "no_metadata");
         (true, "exiftool_not_found"); (true, "exif_ok"); (true, "exif_failed")] /\
  (os_path_exists (xfs w) output_path = false ->
   r = ((false, "stopped"), w) \/ r = ((false, "output_missing"), w)).
Proof.
  unfold write_exif_to_video.
  destruct (exif_stop X XC_entry).
  { simpl. split; [reflexivity|]. split; [reflexivity|]. split; [in_list|]. auto. }
  destruct (os_path_exists (xfs w) output_path) eqn:Hex; simpl.
  2:{ split; [reflexivity|]. split; [reflexivity|]. split; [in_list|]. auto. }
  destruct (String.eqb (title m) "" && String.eqb (description m) ""
            && bool_decide (cleaned_tags_of m = [])).
  { simpl. split; [reflexivity|]. split; [reflexivity|]. split; [in_list | discriminate]. }
  destruct (negb (truthy (EXIFTOOL_PATH X))).
  { simpl. split; [reflexivity|]. split; [reflexivity|]. split; [in_list | discriminate]. }
  match goal with |- context [run_command X ?cmd output_path w] =>
    pose proof (run_command_frame X cmd output_path w) as Hrun;
    destruct (run_command X cmd output_path w) as [r w3]
  end.
  simpl in *. split; [|split; [|split; [|discriminate]]].
  - intros q. apply (Hrun q).
  - intros q Hq. apply (Hrun q), Hq.
  - destruct (Hrun output_path) as (_ & _ & Hr). apply list_elem_of_In in Hr. simpl in Hr.
    in_list.
Qed.

Lemma exiftool_is_not_started_witness :
  let r := write_exif_with_exiftool no_exiftool "in/a.jpg" "out/a.jpg"
             sunset_metadata sunset_world in
  exif_runs r.2 = [] /\
  r.1 = (true, "exiftool_not_found") /\
  xfs r.2 !! "out/a.jpg" = Some (FileNode "JPEG").
Proof.
  pose proof (exiftool_is_not_started no_exiftool "in/a.jpg" "out/a.jpg"
                sunset_metadata sunset_world (or_intror eq_refl)) as (Hruns & _ & _).
  split; [exact Hruns|]. split; vm_compute; reflexivity.
Defined.

End ExifWriter.

(** ** The SVG converter *)

Section SvgConverter.
Import format_svg_processing.


(** The contract of [convert_svg_to_jpg]: success means a non-empty file
    at the output path and no message; a failure always comes with a
    message; no file but the output is touched, and nothing at all when
    the conversion is cancelled or the SVG cannot be read. *)
Theorem convert_svg_contract (X : SvgLib) (svg_path output_jpg_path : string) (f : FS) :
  let r := convert_svg_to_jpg X svg_path output_jpg_path f in
  (r.1.1 = true ->
   r.1.2 = None /\
   exists c, r.2 !! output_jpg_path = Some (FileNode c) /\ c <> "") /\
  (r.1.1 = false -> exists msg, r.1.2 = Some msg) /\
  (forall q, q <> output_jpg_path -> r.2 !! q = f !! q) /\
  (svg_stop X SC_entry = true \/ svg_stop X SC_parsed = true \/
   (forall d, svg2rlg X svg_path f <> Drawing d) -> r.1.1 = false /\ r.2 = f).
Proof.
  unfold convert_svg_to_jpg.
  destruct (svg_stop X SC_entry) eqn:H0.
  { simpl. split; [discriminate|]. split; [eauto|]. split; [reflexivity|]. auto. }
  destruct (svg2rlg X svg_path f) as [d| |e] eqn:Hp.
  2,3: simpl; split; [discriminate|]; split; [eauto|]; split; [reflexivity|]; auto.
  destruct (svg_stop X SC_parsed) eqn:H1.
  { simpl. split; [discriminate|]. split; [eauto|]. split; [reflexivity|]. auto. }
  assert (Hno : false = true \/ false = true \/
                (forall d0, Drawing d <> Drawing d0) -> False).
  { intros [H|[H|H]]; try discriminate. apply (H d). reflexivity. }
  destruct (drawToFile X d output_jpg_path f) as [c|left_behind e].
  - unfold os_path_getsize. rewrite lookup_insert_eq.
    destruct (os_path_exists (<[output_jpg_path := FileNode c]> f) output_jpg_path
              && (0 <? String.length c)%nat) eqn:Hok; simpl.
    + split; [|split; [discriminate|split]].
      * intros _. split; [reflexivity|]. exists c. split; [apply lookup_insert_eq|].
        apply andb_true_iff in Hok as [_ Hsz]. intros ->. discriminate Hsz.
      * intros q Hq. apply lookup_insert_ne. congruence.
      * intros H. destruct (Hno H).
    + split; [discriminate|]. split; [eauto|]. split.
      * intros q Hq. apply lookup_insert_ne. congruence.
      * intros H. destruct (Hno H).
  - simpl. split; [discriminate|]. split; [eauto|]. split.
    + intros q Hq. destruct left_behind; [apply lookup_insert_ne; congruence | reflexivity].
    + intros H. destruct (Hno H).
Qed.

End SvgConverter.

(** ** Paths: [rfind], [basename], [splitext], [os.path.join] *)

Lemma chars_app (a b : string) : chars (a +:+ b) = (chars a ++ chars b)%list.
Proof.
  unfold chars. induction a as [|c a IH]; [reflexivity|].
  simpl. f_equal. exact IH.
Qed.

Lemma str_app (a b : list ascii) : str (a ++ b)%list = str a +:+ str b.
Proof.
  unfold str. induction a as [|c a IH]; [reflexivity|].
  simpl. rewrite IH. reflexivity.
Qed.

Lemma chars_inj (a b : string) : chars a = chars b -> a = b.
Proof. intros H. rewrite <- (str_chars a), <- (str_chars b), H. reflexivity. Qed.

Lemma rfind_from_snoc (c x : ascii) (l : list ascii) (i found : Z) :
  rfind_from c (l ++ [x])%list i found =
  if Ascii.eqb x c then (i + Z.of_nat (length l))%Z else rfind_from c l i found.
Proof.
  revert i found. induction l as [|a l IH]; intros i found; simpl.
  - destruct (Ascii.eqb x c); [lia | reflexivity].
  - rewrite IH. destruct (Ascii.eqb x c); [lia | reflexivity].
Qed.

Lemma rfind_absent (c : ascii) (l : list ascii) : c ∉ l -> rfind c l = (-1)%Z.
Proof.
  unfold rfind. induction l as [|x l IH] using rev_ind; [reflexivity|].
  intros Hno. rewrite rfind_from_snoc.
  destruct (Ascii.eqb_spec x c) as [->|Hne].
  - exfalso. apply Hno. apply elem_of_app. right. left.
  - apply IH. intros Hin. apply Hno. apply elem_of_app. left. exact Hin.
Qed.

Lemma rfind_last (c : ascii) (a b : list ascii) :
  c ∉ b -> rfind c (a ++ c :: b)%list = Z.of_nat (length a).
Proof.
  unfold rfind. induction b as [|x b IH] using rev_ind; intros Hno.
  - change (a ++ [c])%list with (a ++ [c])%list. rewrite rfind_from_snoc.
    rewrite Ascii.eqb_refl. lia.
  - replace (a ++ c :: b ++ [x])%list with ((a ++ c :: b) ++ [x])%list
      by (rewrite <- app_assoc; reflexivity).
    rewrite rfind_from_snoc.
    destruct (Ascii.eqb_spec x c) as [->|Hne].
    + exfalso. apply Hno. apply elem_of_app. right. left.
    + apply IH. intros Hin. apply Hno. apply elem_of_app. left. exact Hin.
Qed.

(** A list is free of [c], or splits at the last [c]. *)
Lemma last_occurrence (c : ascii) (l : list ascii) :
  c ∉ l \/ exists a b, l = (a ++ c :: b)%list /\ c ∉ b.
Proof.
  induction l as [|x l IH] using rev_ind.
  - left. apply not_elem_of_nil.
  - destruct (Ascii.eqb_spec x c) as [->|Hne].
    + right. exists l, []. split; [reflexivity | apply not_elem_of_nil].
    + destruct IH as [Hno|(a & b & -> & Hno)].
      * left. intros Hin. apply elem_of_app in Hin as [Hin|Hin]; [exact (Hno Hin)|].
        apply list_elem_of_singleton in Hin. congruence.
      * right. exists a, (b ++ [x])%list. split; [rewrite <- app_assoc; reflexivity|].
        intros Hin. apply elem_of_app in Hin as [Hin|Hin]; [exact (Hno Hin)|].
        apply list_elem_of_singleton in Hin. congruence.
Qed.

Lemma drop_length_app (a b : list ascii) (k : Z) :
  k = Z.of_nat (length a) -> slice_from k (a ++ b)%list = b.
Proof.
  intros ->. unfold slice_from. rewrite Nat2Z.id. apply drop_app_length.
Qed.

Lemma take_length_app (a b : list ascii) (k : Z) :
  k = Z.of_nat (length a) -> slice_to k (a ++ b)%list = a.
Proof.
  intros ->. unfold slice_to. rewrite Nat2Z.id. apply take_app_length.
Qed.

(** [basename] holds no separator. *)
Lemma basename_no_sep (p : string) : "/"%char ∉ chars (basename p).
Proof.
  unfold basename. rewrite chars_str.
  destruct (last_occurrence "/"%char (chars p)) as [Hno|(a & b & Heq & Hno)].
  - rewrite (rfind_absent _ _ Hno). exact Hno.
  - rewrite Heq, (rfind_last _ a b Hno).
    replace (a ++ "/"%char :: b)%list with ((a ++ ["/"%char]) ++ b)%list
      by (rewrite <- app_assoc; reflexivity).
    rewrite drop_length_app; [exact Hno|].
    rewrite length_app. simpl. lia.
Qed.

Lemma basename_plain (n : string) : "/"%char ∉ chars n -> basename n = n.
Proof.
  intros Hno. unfold basename. rewrite (rfind_absent _ _ Hno). apply str_chars.
Qed.

Lemma basename_after_sep (d n : string) :
  "/"%char ∉ chars n -> basename (d +:+ "/" +:+ n) = n.
Proof.
  intros Hno. unfold basename. rewrite !chars_app. simpl.
  rewrite (rfind_last _ (chars d) (chars n) Hno).
  replace (chars d ++ "/"%char :: chars n)%list
    with ((chars d ++ ["/"%char]) ++ chars n)%list
    by (rewrite <- app_assoc; reflexivity).
  rewrite drop_length_app; [apply str_chars|].
  rewrite length_app. simpl. lia.
Qed.

Lemma starts_with_cons (c : ascii) (l : list ascii) :
  starts_with [c] l = true -> exists r, l = c :: r.
Proof.
  destruct l as [|x l]; simpl; [discriminate|].
  rewrite andb_true_r. intros H. apply Ascii.eqb_eq in H. subst. eauto.
Qed.

(** Round trip: the last component of [os.path.join(d, n)] is [n] when [n]
    is a plain name. *)
Lemma basename_path_join (d n : string) :
  "/"%char ∉ chars n -> basename (path_join d n) = n.
Proof.
  intros Hno. unfold path_join.
  destruct (startswith n "/") eqn:Hs.
  { apply basename_plain, Hno. }
  destruct (String.eqb_spec d "") as [->|Hd]; simpl.
  { apply basename_plain, Hno. }
  destruct (endswith d "/") eqn:He.
  - unfold endswith in He. change (rev (chars "/")) with ["/"%char] in He.
    apply starts_with_cons in He as [r Hr].
    assert (Hd' : chars d = (rev r ++ ["/"%char])%list).
    { rewrite <- (rev_involutive (chars d)), Hr. reflexivity. }
    assert (Heq : d = str (rev r) +:+ "/").
    { apply chars_inj. rewrite chars_app, chars_str. exact Hd'. }
    rewrite Heq.
    replace (str (rev r) +:+ "/" +:+ n) with (str (rev r) +:+ "/" +:+ n) by reflexivity.
    assert (Hassoc : (str (rev r) +:+ "/") +:+ n = str (rev r) +:+ "/" +:+ n).
    { apply chars_inj. rewrite !chars_app, <- app_assoc. reflexivity. }
    rewrite Hassoc. apply basename_after_sep, Hno.
  - apply basename_after_sep, Hno.
Qed.

(** Round trip: the two parts of [splitext] put together give the path. *)
Lemma splitext_concat (p : string) : (splitext p).1 +:+ (splitext p).2 = p.
Proof.
  unfold splitext.
  destruct (rfind "/"%char (chars p) <? rfind "."%char (chars p))%Z;
    [|apply chars_inj; rewrite chars_app; apply app_nil_r].
  destruct (existsb _ _); [|apply chars_inj; rewrite chars_app; apply app_nil_r].
  simpl. rewrite <- str_app. unfold slice_to, slice_from.
  rewrite take_drop. apply str_chars.
Qed.

(** The extension is empty or starts with the dot. *)
Lemma splitext_ext (p : string) :
  (splitext p).2 = "" \/ exists r, chars (splitext p).2 = "."%char :: r.
Proof.
  unfold splitext.
  destruct (Z.ltb_spec (rfind "/"%char (chars p)) (rfind "."%char (chars p)));
    [|left; reflexivity].
  destruct (existsb _ _); [|left; reflexivity].
  right. simpl. rewrite chars_str.
  destruct (last_occurrence "."%char (chars p)) as [Hno|(a & b & Heq & Hno)].
  - rewrite (rfind_absent _ _ Hno) in H.
    assert (-1 <= rfind "/"%char (chars p))%Z; [|lia].
    destruct (last_occurrence "/"%char (chars p)) as [H1|(a & b & H1 & H2)].
    + rewrite (rfind_absent _ _ H1). lia.
    + rewrite H1, (rfind_last _ a b H2). lia.
  - rewrite Heq, (rfind_last _ a b Hno).
    rewrite drop_length_app by reflexivity. eauto.
Qed.

Lemma splitext_no_sep (n : string) :
  "/"%char ∉ chars n -> "/"%char ∉ chars (splitext n).1.
Proof.
  intros Hno. unfold splitext.
  destruct (rfind "/"%char (chars n) <? rfind "."%char (chars n))%Z; [|exact Hno].
  destruct (existsb _ _); [|exact Hno].
  simpl. rewrite chars_str. intros Hin. apply Hno.
  unfold slice_to in Hin. apply (subseteq_take _ _ _ Hin).
Qed.

Lemma append_cancel (a x y : string) : a +:+ x = a +:+ y -> x = y.
Proof.
  intros H. apply chars_inj.
  assert (H' : chars (a +:+ x) = chars (a +:+ y)) by (rewrite H; reflexivity).
  rewrite !chars_app in H'. exact (app_inv_head _ _ _ H').
Qed.

(** A name made of the base of [n] and a suffix that neither is empty nor
    starts with a dot is not [n]. *)
Lemma base_suffix_differs (n suffix : string) (c : ascii) (r : list ascii) :
  chars suffix = c :: r -> c <> "."%char -> (splitext n).1 +:+ suffix <> n.
Proof.
  intros Hs Hc Heq.
  rewrite <- (splitext_concat n) in Heq at 2.
  apply append_cancel in Heq.
  destruct (splitext_ext n) as [He|[r' He]].
  - rewrite He in Heq. rewrite Heq in Hs. discriminate.
  - rewrite <- Heq, Hs in He. congruence.
Qed.

(** Nor is the base followed by a non-empty infix and the extension. *)
Lemma base_infix_differs (n infix : string) :
  infix <> "" -> (splitext n).1 +:+ infix +:+ (splitext n).2 <> n.
Proof.
  intros Hi Heq.
  rewrite <- (splitext_concat n) in Heq at 3.
  apply append_cancel in Heq.
  assert (Hlen : length (chars (infix +:+ (splitext n).2)) = length (chars (splitext n).2))
    by (rewrite Heq; reflexivity).
  rewrite chars_app, length_app in Hlen.
  destruct infix; [congruence|]. simpl in Hlen. lia.
Qed.

(** ** Image compression *)

Section Compression.
Import compression.

(** *** The compressed name *)

Lemma compressed_name_differs (p : string) : compressed_name p <> basename p.
Proof.
  unfold compressed_name.
  pose proof (base_suffix_differs (basename p) "_compressed.jpg" "_"%char
                (chars "compressed.jpg") eq_refl ltac:(discriminate)) as H1.
  pose proof (base_infix_differs (basename p) "_compressed" ltac:(discriminate)) as H2.
  destruct (splitext (basename p)) as [base ext]. simpl in H1, H2.
  destruct (String.eqb (lower ext) ".png"); [exact H1|].
  destruct (str_in (lower ext) [".jpg"; ".jpeg"]); [exact H2 | exact H1].
Qed.

Lemma no_sep_app (a b : string) :
  "/"%char ∉ chars a -> "/"%char ∉ chars b -> "/"%char ∉ chars (a +:+ b).
Proof.
  intros Ha Hb. rewrite chars_app. intros Hin.
  apply elem_of_app in Hin as [Hin|Hin]; [exact (Ha Hin) | exact (Hb Hin)].
Qed.

Lemma splitext_ext_no_sep (n : string) :
  "/"%char ∉ chars n -> "/"%char ∉ chars (splitext n).2.
Proof.
  intros Hno Hin. apply Hno.
  rewrite <- (splitext_concat n), chars_app. apply elem_of_app. right. exact Hin.
Qed.

Lemma compressed_name_no_sep (p : string) : "/"%char ∉ chars (compressed_name p).
Proof.
  unfold compressed_name.
  pose proof (splitext_no_sep _ (basename_no_sep p)) as Hb.
  pose proof (splitext_ext_no_sep _ (basename_no_sep p)) as He.
  destruct (splitext (basename p)) as [base ext]. simpl in Hb, He.
  assert (Hj : "/"%char ∉ chars "_compressed.jpg").
  { intros H. apply list_elem_of_In in H. simpl in H. intuition discriminate. }
  assert (Hc : "/"%char ∉ chars "_compressed").
  { intros H. apply list_elem_of_In in H. simpl in H. intuition discriminate. }
  destruct (String.eqb (lower ext) ".png"); [apply no_sep_app; assumption|].
  destruct (str_in (lower ext) [".jpg"; ".jpeg"]).
  - apply no_sep_app; [exact Hb|]. apply no_sep_app; assumption.
  - apply no_sep_app; assumption.
Qed.

Lemma compressed_path_basename (p : string) (t : option string) :
  basename (compressed_path p t) = compressed_name p.
Proof. apply basename_path_join, compressed_name_no_sep. Qed.

Lemma compressed_path_differs (p : string) (t : option string) : compressed_path p t <> p.
Proof.
  intros H. apply (compressed_name_differs p).
  rewrite <- (compressed_path_basename p t), H. reflexivity.
Qed.

(** *** The cache *)

Lemma cache_get_set (k : CacheKey) (v : string) (d : list (CacheKey * string)) :
  cache_get k (cache_set k v d) = Some v.
Proof.
  induction d as [|[k' v'] d IH]; simpl.
  - destruct (decide (k = k)); congruence.
  - destruct (decide (k = k')) as [->|Hne]; simpl.
    + destruct (decide (k' = k')); congruence.
    + destruct (decide (k = k')); [contradiction | exact IH].
Qed.

Lemma cache_get_elem (k : CacheKey) (v : string) (d : list (CacheKey * string)) :
  cache_get k d = Some v -> (k, v) ∈ d.
Proof.
  induction d as [|[k' v'] d IH]; simpl; [discriminate|].
  destruct (decide (k = k')) as [->|Hne].
  - intros [= ->]. left.
  - intros H. right. apply IH, H.
Qed.

Lemma cache_set_keys (k : CacheKey) (v : string) (d : list (CacheKey * string)) :
  (k ∈ d.*1 -> (cache_set k v d).*1 = d.*1) /\
  (k ∉ d.*1 -> (cache_set k v d).*1 = (d.*1 ++ [k])%list).
Proof.
  induction d as [|[k' v'] d [IH1 IH2]].
  - split; [intros H; destruct (not_elem_of_nil _ H) | reflexivity].
  - cbn [cache_set]. destruct (decide (k = k')) as [->|Hne].
    + split; [reflexivity|]. intros H. exfalso. apply H. left.
    + split; intros H.
      * change (k' :: (cache_set k v d).*1 = k' :: d.*1). f_equal. apply IH1.
        apply elem_of_cons in H as [H|H]; [contradiction | exact H].
      * change (k' :: (cache_set k v d).*1 = k' :: (d.*1 ++ [k])%list). f_equal. apply IH2.
        intros Hin. apply H. right. exact Hin.
Qed.

Lemma cache_set_elem (k : CacheKey) (v : string) (d : list (CacheKey * string))
    (k0 : CacheKey) (v0 : string) :
  (k0, v0) ∈ cache_set k v d -> (k0, v0) = (k, v) \/ (k0, v0) ∈ d.
Proof.
  induction d as [|[k' v'] d IH]; simpl.
  - intros H. apply list_elem_of_singleton in H. left. exact H.
  - destruct (decide (k = k')) as [->|Hne]; intros H;
      apply elem_of_cons in H as [H|H].
    + left. exact H.
    + right. right. exact H.
    + right. rewrite H. left.
    + destruct (IH H) as [Heq|Hin]; [left; exact Heq | right; right; exact Hin].
Qed.

Lemma evicted_spec (d : list (CacheKey * string)) :
  CacheOk d ->
  NoDup (evicted d).*1 /\
  (length (evicted d) < _COMPRESS_CACHE_MAX)%nat /\
  forall k v, (k, v) ∈ evicted d -> (k, v) ∈ d.
Proof.
  intros (Hnd & Hlen & _). unfold evicted.
  destruct (Nat.leb_spec _COMPRESS_CACHE_MAX (length d)) as [Hfull|Hroom].
  - destruct d as [|kv d]; simpl in *.
    + unfold _COMPRESS_CACHE_MAX in Hfull. lia.
    + split; [apply NoDup_cons in Hnd; tauto|]. split; [lia|].
      intros k v Hin. right. exact Hin.
  - split; [exact Hnd|]. split; [exact Hroom | tauto].
Qed.

(** Storing a result keeps the cache well formed. *)
Lemma cache_store_ok (k : CacheKey) (v : string) (d : list (CacheKey * string)) :
  CacheOk d -> basename v = compressed_name k.1.1 -> CacheOk (cache_set k v (evicted d)).
Proof.
  intros Hok Hv. pose proof Hok as (_ & _ & Hval).
  destruct (evicted_spec d Hok) as (Hnd & Hlen & Hsub).
  split; [|split].
  - destruct (cache_set_keys k v (evicted d)) as [H1 H2].
    destruct (decide (k ∈ (evicted d).*1)) as [Hk|Hk]; [rewrite (H1 Hk); exact Hnd|].
    rewrite (H2 Hk). apply NoDup_app. split; [exact Hnd|]. split.
    + intros x Hx Hx'. apply list_elem_of_singleton in Hx'. subst. exact (Hk Hx).
    + apply NoDup_singleton.
  - assert (Hl : (length (cache_set k v (evicted d)).*1 <= S (length (evicted d)))%nat).
    { destruct (cache_set_keys k v (evicted d)) as [H1 H2].
      destruct (decide (k ∈ (evicted d).*1)) as [Hk|Hk].
      - rewrite (H1 Hk), length_fmap. lia.
      - rewrite (H2 Hk), length_app, length_fmap. simpl. lia. }
    rewrite length_fmap in Hl. lia.
  - intros k0 v0 Hin. apply cache_set_elem in Hin as [[= -> ->]|Hin]; [exact Hv|].
    apply Hval, Hsub, Hin.
Qed.

(** *** What the steps may change *)

Lemma save_image_spec (X : Imaging) (prep : Prep) (img : Img) (path : string)
    (quality : Z) (f : FS) :
  (forall q, q <> path -> (save_image X prep img path quality f).2 !! q = f !! q) /\
  (is_Some (f !! path) -> is_Some ((save_image X prep img path quality f).2 !! path)).
Proof.
  unfold save_image. destruct (prepare X prep img) as [ready|]; [|simpl; tauto].
  destruct (img_save X ready path quality f) as [c|[c|]]; simpl; try tauto.
  - split; [intros q Hq; apply lookup_insert_ne; congruence|].
    intros _. rewrite lookup_insert_eq. eauto.
  - split; [intros q Hq; apply lookup_insert_ne; congruence|].
    intros _. rewrite lookup_insert_eq. eauto.
Qed.

Lemma save_again_spec (X : Imaging) (path : string) (quality : Z) (f : FS) :
  (forall q, q <> path -> save_again X path quality f !! q = f !! q) /\
  (is_Some (f !! path) -> is_Some (save_again X path quality f !! path)).
Proof.
  unfold save_again. destruct (Image_open X path f) as [img|]; [|tauto].
  apply save_image_spec.
Qed.

Lemma discard_frame (f : FS) (p q : string) : q <> p -> discard f p !! q = f !! q.
Proof.
  intros Hq. unfold discard, try_remove, os_remove.
  destruct (os_path_exists f p); [|reflexivity].
  destruct (f !! p) as [[c|]|]; try reflexivity.
  apply lookup_delete_ne. congruence.
Qed.

Lemma post_uncompressed (input_path target : string) (cache_key : option CacheKey)
    (w : CompressWorld) (f : FS) :
  (forall q, q <> target -> f !! q = cfs w !! q) ->
  BranchPost input_path target cache_key w (uncompressed input_path (with_cfs w f)).
Proof. intros H. split; [exact H|]. left. split; reflexivity. Qed.

Lemma post_same (input_path target : string) (cache_key : option CacheKey)
    (w : CompressWorld) :
  BranchPost input_path target cache_key w (uncompressed input_path w).
Proof. split; [reflexivity|]. left. split; reflexivity. Qed.

Lemma post_cache_and_return (input_path target : string) (cache_key : option CacheKey)
    (w : CompressWorld) (f : FS) :
  target <> input_path ->
  (forall q, q <> target -> f !! q = cfs w !! q) ->
  is_Some (f !! target) ->
  BranchPost input_path target cache_key w
    (_cache_and_return cache_key input_path target (with_cfs w f)).
Proof.
  intros Hne Hframe Hex. unfold _cache_and_return.
  rewrite (bool_decide_eq_true_2 _ Hne). split.
  - destruct cache_key; exact Hframe.
  - right. split; [reflexivity|]. split.
    + apply os_path_exists_is_Some. destruct cache_key; exact Hex.
    + destruct cache_key; reflexivity.
Qed.

Lemma post_shrink_and_return (X : Imaging) (input_path target : string)
    (cache_key : option CacheKey) (max_size_mb adaptive_quality : Z)
    (w : CompressWorld) (f : FS) :
  target <> input_path ->
  (forall q, q <> target -> f !! q = cfs w !! q) ->
  is_Some (f !! target) ->
  BranchPost input_path target cache_key w
    (shrink_and_return X cache_key input_path target max_size_mb adaptive_quality
       (with_cfs w f)).
Proof.
  intros Hne Hframe Hex. unfold shrink_and_return. simpl.
  destruct (os_path_getsize f target) as [size|]; [|apply post_uncompressed, Hframe].
  destruct (exceeds (size_mb size) max_size_mb && (15 <? adaptive_quality)%Z).
  - pose proof (save_again_spec X target (Z.max 10 (adaptive_quality - 10)) f) as [Hf He].
    apply (post_cache_and_return input_path target cache_key w _ Hne).
    + intros q Hq. rewrite (Hf q Hq). apply Hframe, Hq.
    + apply He, Hex.
  - apply (post_cache_and_return input_path target cache_key w f Hne Hframe Hex).
Qed.

Lemma post_png_branch (X : Imaging) (cache_key : option CacheKey)
    (input_path temp_folder base original_mode : string) (img : Img)
    (max_size_mb adaptive_quality : Z) (w : CompressWorld) :
  path_join temp_folder (base +:+ "_compressed.jpg") <> input_path ->
  BranchPost input_path (path_join temp_folder (base +:+ "_compressed.jpg")) cache_key w
    (png_branch X cache_key input_path temp_folder base original_mode img
       max_size_mb adaptive_quality w).
Proof.
  intros Hne. unfold png_branch.
  destruct (comp_stop X CC_before_png); [apply post_same|].
  match goal with |- context [save_image X ?prep img ?p ?q (cfs w)] =>
    pose proof (save_image_spec X prep img p q (cfs w)) as [Hf He];
    destruct (save_image X prep img p q (cfs w)) as [[|] f1]
  end; simpl in Hf, He; [|apply post_uncompressed, Hf].
  destruct (os_path_exists f1 _) eqn:Hex; [|apply post_uncompressed, Hf].
  destruct (comp_stop X CC_after_png).
  - apply post_uncompressed. intros q Hq. rewrite discard_frame by exact Hq. apply Hf, Hq.
  - apply (post_shrink_and_return X input_path _ cache_key _ _ w f1 Hne Hf).
    apply os_path_exists_is_Some, Hex.
Qed.

Lemma post_jpg_branch (X : Imaging) (cache_key : option CacheKey)
    (input_path temp_folder base ext : string) (img : Img)
    (max_size_mb adaptive_quality : Z) (w : CompressWorld) :
  path_join temp_folder (base +:+ "_compressed" +:+ ext) <> input_path ->
  BranchPost input_path (path_join temp_folder (base +:+ "_compressed" +:+ ext)) cache_key w
    (jpg_branch X cache_key input_path temp_folder base ext img
       max_size_mb adaptive_quality w).
Proof.
  intros Hne. unfold jpg_branch.
  destruct (comp_stop X CC_before_jpg); [apply post_same|].
  match goal with |- context [save_image X ?prep img ?p ?q (cfs w)] =>
    pose proof (save_image_spec X prep img p q (cfs w)) as [Hf He];
    destruct (save_image X prep img p q (cfs w)) as [[|] f1]
  end; simpl in Hf, He; [|apply post_uncompressed, Hf].
  destruct (comp_stop X CC_after_jpg).
  - apply post_uncompressed. intros q Hq. rewrite discard_frame by exact Hq. apply Hf, Hq.
  - destruct (os_path_exists f1 _) eqn:Hex; [|apply post_uncompressed, Hf].
    apply (post_shrink_and_return X input_path _ cache_key _ _ w f1 Hne Hf).
    apply os_path_exists_is_Some, Hex.
Qed.

Lemma post_other_branch (X : Imaging) (cache_key : option CacheKey)
    (input_path temp_folder base original_mode : string) (has_transparency : bool)
    (img : Img) (adaptive_quality : Z) (w : CompressWorld) :
  path_join temp_folder (base +:+ "_compressed.jpg") <> input_path ->
  BranchPost input_path (path_join temp_folder (base +:+ "_compressed.jpg")) cache_key w
    (other_branch X cache_key input_path temp_folder base original_mode has_transparency
       img adaptive_quality w).
Proof.
  intros Hne. unfold other_branch.
  match goal with |- context [save_image X ?prep img ?p ?q (cfs w)] =>
    pose proof (save_image_spec X prep img p q (cfs w)) as [Hf He];
    destruct (save_image X prep img p q (cfs w)) as [[|] f1]
  end; simpl in Hf, He; [|apply post_uncompressed, Hf].
  destruct (os_path_exists f1 _) eqn:Hex; [|apply post_uncompressed, Hf].
  apply (post_cache_and_return input_path _ cache_key w f1 Hne Hf).
  apply os_path_exists_is_Some, Hex.
Qed.

Lemma post_compress_opened (X : Imaging) (cache_key : option CacheKey)
    (input_path : string) (temp_folder : option string) (file_size_mb : PrimFloat.float)
    (max_size_mb quality max_dimension : Z) (img : Img) (w : CompressWorld) :
  BranchPost input_path (compressed_path input_path temp_folder) cache_key w
    (compress_opened X cache_key input_path (resolved_temp_folder input_path temp_folder)
       (splitext (basename input_path)).1 (splitext (basename input_path)).2
       file_size_mb max_size_mb quality max_dimension img w).
Proof.
  pose proof (compressed_path_differs input_path temp_folder) as Hne.
  unfold compressed_path, compressed_name in *. unfold compress_opened.
  destruct (splitext (basename input_path)) as [base ext]. cbn [fst snd].
  destruct (img_size img) as [original_width original_height].
  destruct (negb _ && negb _); [apply post_same|].
  destruct (comp_stop X CC_loaded); [apply post_same|].
  destruct (resize_stage X img max_dimension) as [img'|]; [|apply post_same].
  destruct (comp_stop X CC_resized); [apply post_same|].
  destruct (adaptive_quality_of quality file_size_mb) as [aq|]; [|apply post_same].
  destruct (String.eqb (lower ext) ".png"); [apply post_png_branch, Hne|].
  destruct (str_in (lower ext) [".jpg"; ".jpeg"]);
    [apply post_jpg_branch, Hne | apply post_other_branch, Hne].
Qed.

(** *** The whole function *)

(** What a call does: it changes no file but the compressed one, apart
    from creating the folder when that is missing; and it gives up, or
    answers from the cache without doing anything, or writes the
    compressed file and stores it under the key of the input. *)
Lemma compress_image_spec (X : Imaging) (input_path : string) (temp_folder : option string)
    (max_size_mb quality max_dimension : Z) (w : CompressWorld) :
  let r := compress_image X input_path temp_folder max_size_mb quality max_dimension w in
  (forall p, p <> compressed_path input_path temp_folder ->
     cfs r.2 !! p = cfs w !! p \/
     (p = resolved_temp_folder input_path temp_folder /\ cfs w !! p = None /\
      cfs r.2 !! p = Some DirNode)) /\
  ((r.1 = (input_path, false) /\ _COMPRESS_CACHE r.2 = _COMPRESS_CACHE w) \/
   (exists size mtime cached,
      os_path_getsize (cfs w) input_path = Some size /\
      getmtime X input_path (cfs w) = Some mtime /\
      cache_get (input_path, mtime, size) (_COMPRESS_CACHE w) = Some cached /\
      os_path_exists (cfs w) cached = true /\
      r = ((cached, true), w)) \/
   (exists size,
      os_path_getsize (cfs w) input_path = Some size /\
      r.1 = (compressed_path input_path temp_folder, true) /\
      os_path_exists (cfs r.2) (compressed_path input_path temp_folder) = true /\
      _COMPRESS_CACHE r.2 =
        match getmtime X input_path (cfs w) with
        | Some mtime =>
            cache_set (input_path, mtime, size) (compressed_path input_path temp_folder)
              (evicted (_COMPRESS_CACHE w))
        | None => _COMPRESS_CACHE w
        end)).
Proof.
  unfold compress_image.
  assert (Hidle : forall w0 : CompressWorld,
            cfs w0 = cfs w -> _COMPRESS_CACHE w0 = _COMPRESS_CACHE w ->
            let r := uncompressed input_path w0 in
            (forall p, p <> compressed_path input_path temp_folder ->
               cfs r.2 !! p = cfs w !! p \/
               (p = resolved_temp_folder input_path temp_folder /\ cfs w !! p = None /\
                cfs r.2 !! p = Some DirNode)) /\
            ((r.1 = (input_path, false) /\ _COMPRESS_CACHE r.2 = _COMPRESS_CACHE w) \/
             (exists size mtime cached,
                os_path_getsize (cfs w) input_path = Some size /\
                getmtime X input_path (cfs w) = Some mtime /\
                cache_get (input_path, mtime, size) (_COMPRESS_CACHE w) = Some cached /\
                os_path_exists (cfs w) cached = true /\
                r = ((cached, true), w)) \/
             (exists size,
                os_path_getsize (cfs w) input_path = Some size /\
                r.1 = (compressed_path input_path temp_folder, true) /\
                os_path_exists (cfs r.2) (compressed_path input_path temp_folder) = true /\
                _COMPRESS_CACHE r.2 =
                  match getmtime X input_path (cfs w) with
                  | Some mtime =>
                      cache_set (input_path, mtime, size)
                        (compressed_path input_path temp_folder)
                        (evicted (_COMPRESS_CACHE w))
                  | None => _COMPRESS_CACHE w
                  end))).
  { intros w0 Hf Hc. simpl. split; [intros p _; left; rewrite Hf; reflexivity|].
    left. split; [reflexivity | exact Hc]. }
  destruct (comp_stop X CC_entry); [apply Hidle; reflexivity|].
  destruct (os_path_getsize (cfs w) input_path) as [size|] eqn:Hsize;
    [|apply Hidle; reflexivity].
  pose proof (post_compress_opened X
                (match getmtime X input_path (cfs w) with
                 | Some mtime => Some (input_path, mtime, size)
                 | None => None
                 end) input_path temp_folder (size_mb size)
                max_size_mb quality max_dimension) as Hopened.
  destruct (splitext (basename input_path)) as [base ext]. cbn [fst snd] in Hopened.
  set (cached := match match getmtime X input_path (cfs w) with
                       | Some mtime => Some (input_path, mtime, size)
                       | None => None
                       end with
                 | Some k =>
                     match cache_get k (_COMPRESS_CACHE w) with
                     | Some cached_path =>
                         if os_path_exists (cfs w) cached_path then Some cached_path else None
                     | None => None
                     end
                 | None => None
                 end).
  destruct cached as [cached_path|] eqn:Hcached.
  { simpl. split; [intros p _; left; reflexivity|]. right. left.
    subst cached. destruct (getmtime X input_path (cfs w)) as [mtime|]; [|discriminate].
    destruct (cache_get (input_path, mtime, size) (_COMPRESS_CACHE w)) as [c|] eqn:Hget;
      [|discriminate].
    destruct (os_path_exists (cfs w) c) eqn:Hex; [|discriminate].
    injection Hcached as <-. exists size, mtime, c. auto. }
  clear Hcached cached.
  fold (resolved_temp_folder input_path temp_folder).
  set (T := resolved_temp_folder input_path temp_folder) in *.
  set (made := if negb (os_path_exists (cfs w) T) then os_makedirs (cfs w) T
               else Some (cfs w)).
  assert (Hmade : match made with
                  | Some f1 => forall p, f1 !! p = cfs w !! p \/
                                 (p = T /\ cfs w !! p = None /\ f1 !! p = Some DirNode)
                  | None => True
                  end).
  { unfold made. destruct (os_path_exists (cfs w) T) eqn:Hex; simpl; [left; reflexivity|].
    apply os_path_exists_false in Hex. unfold os_makedirs. rewrite Hex.
    intros p. destruct (decide (p = T)) as [->|Hp].
    - right. rewrite lookup_insert_eq. auto.
    - left. apply lookup_insert_ne. congruence. }
  destruct made as [f1|]; [|apply Hidle; reflexivity].
  assert (Hgive : forall r : (string * bool) * CompressWorld,
            BranchPost input_path (compressed_path input_path temp_folder)
              (match getmtime X input_path (cfs w) with
               | Some mtime => Some (input_path, mtime, size)
               | None => None
               end) (with_cfs w f1) r ->
            (forall p, p <> compressed_path input_path temp_folder ->
               cfs r.2 !! p = cfs w !! p \/
               (p = T /\ cfs w !! p = None /\ cfs r.2 !! p = Some DirNode)) /\
            ((r.1 = (input_path, false) /\ _COMPRESS_CACHE r.2 = _COMPRESS_CACHE w) \/
             (exists size0 mtime cached,
                Some size = Some size0 /\
                getmtime X input_path (cfs w) = Some mtime /\
                cache_get (input_path, mtime, size0) (_COMPRESS_CACHE w) = Some cached /\
                os_path_exists (cfs w) cached = true /\
                r = ((cached, true), w)) \/
             (exists size0,
                Some size = Some size0 /\
                r.1 = (compressed_path input_path temp_folder, true) /\
                os_path_exists (cfs r.2) (compressed_path input_path temp_folder) = true /\
                _COMPRESS_CACHE r.2 =
                  match getmtime X input_path (cfs w) with
                  | Some mtime =>
                      cache_set (input_path, mtime, size0)
                        (compressed_path input_path temp_folder)
                        (evicted (_COMPRESS_CACHE w))
                  | None => _COMPRESS_CACHE w
                  end))).
  { intros r [Hframe Hout]. split.
    - intros p Hp. rewrite (Hframe p Hp). simpl. apply Hmade.
    - destruct Hout as [[Hr Hc]|(Hr & Hex & Hc)].
      + left. split; [exact Hr | exact Hc].
      + right. right. exists size. split; [reflexivity|]. split; [exact Hr|].
        split; [exact Hex|]. rewrite Hc. simpl.
        destruct (getmtime X input_path (cfs w)); reflexivity. }
  destruct (comp_stop X CC_folder); [apply Hgive, post_same|].
  destruct (Image_open X input_path f1) as [img|]; [|apply Hgive, post_same].
  apply Hgive, Hopened.
Qed.

(** The size asked of the resize, computed as Python computes it: the
    long side is [max_dimension] or, by rounding, one pixel less. *)
Lemma new_size_examples :
  new_size 1024 3000 2000 = Some (1024, 682)%Z /\
  new_size 1024 4000 3000 = Some (1024, 768)%Z /\
  new_size 1024 1122 1 = Some (1023, 1)%Z /\
  new_size 1024 1024 0 = None.
Proof. repeat split; vm_compute; reflexivity. Qed.


Lemma compress_image_hit (X : Imaging) (input_path : string)
    (temp_folder : option string) (max_size_mb quality max_dimension : Z)
    (w : CompressWorld) (size : nat) (mtime : Z) (cached : string) :
  comp_stop X CC_entry = false ->
  os_path_getsize (cfs w) input_path = Some size ->
  getmtime X input_path (cfs w) = Some mtime ->
  cache_get (input_path, mtime, size) (_COMPRESS_CACHE w) = Some cached ->
  os_path_exists (cfs w) cached = true ->
  compress_image X input_path temp_folder max_size_mb quality max_dimension w
  = ((cached, true), w).
Proof.
  intros Hstop Hsize Hmtime Hget Hex. unfold compress_image.
  rewrite Hstop, Hsize. destruct (splitext (basename input_path)) as [base ext].
  rewrite Hmtime, Hget, Hex. reflexivity.
Qed.

Lemma getsize_is_Some (f : FS) (p : string) (size : nat) :
  os_path_getsize f p = Some size -> is_Some (f !! p).
Proof.
  unfold os_path_getsize. destruct (f !! p) as [n|]; [eauto | discriminate].
Qed.

Lemma CacheOk_nil : CacheOk [].
Proof.
  split; [constructor|]. split; [unfold _COMPRESS_CACHE_MAX; simpl; lia|].
  intros k v H. destruct (not_elem_of_nil _ H).
Qed.

(** The answer of [compress_image]: a pair whose flag is false exactly
    when the path is the input; with a true flag the path is an existing
    file that bears the compressed name of the input, hence another file
    than the input. The cache is assumed to be one the module built. *)
Theorem compress_image_result (X : Imaging) (input_path : string)
    (temp_folder : option string) (max_size_mb quality max_dimension : Z)
    (w : CompressWorld) :
  CacheOk (_COMPRESS_CACHE w) ->
  let r := compress_image X input_path temp_folder max_size_mb quality max_dimension w in
  (r.1.2 = false -> r.1.1 = input_path) /\
  (r.1.2 = true ->
   r.1.1 <> input_path /\
   basename r.1.1 = compressed_name input_path /\
   os_path_exists (cfs r.2) r.1.1 = true).
Proof.
  intros (_ & _ & Hval).
  pose proof (compress_image_spec X input_path temp_folder max_size_mb quality
                max_dimension w) as [_ Hout].
  simpl in *.
  destruct (compress_image X input_path temp_folder max_size_mb quality max_dimension w)
    as [[path flag] w'].
  simpl in *.
  assert (Hdiff : basename path = compressed_name input_path -> path <> input_path).
  { intros Hb ->. exact (compressed_name_differs _ (eq_sym Hb)). }
  destruct Hout as [[[= -> ->] _]|[(size & mtime & cached & _ & _ & Hget & Hex & [= -> -> ->])
                                  |(size & _ & [= -> ->] & Hex & _)]].
  - split; [reflexivity | discriminate].
  - split; [discriminate|]. intros _.
    pose proof (Hval _ _ (cache_get_elem _ _ _ Hget)) as Hb. simpl in Hb.
    split; [exact (Hdiff Hb)|]. split; [exact Hb | exact Hex].
  - split; [discriminate|]. intros _.
    split; [apply compressed_path_differs|].
    split; [apply compressed_path_basename | exact Hex].
Qed.

Lemma compress_image_result_witness :
  let r := compress_image plain_imaging "out/temp_compressed/a_converted.jpg"
             (Some "out/temp_compressed") MAX_IMAGE_SIZE_MB COMPRESSION_QUALITY
             MAX_IMAGE_DIMENSION converted_world in
  r.1 = ("out/temp_compressed/a_converted_compressed.jpg", true) /\
  r.1.1 <> "out/temp_compressed/a_converted.jpg" /\
  basename r.1.1 = compressed_name "out/temp_compressed/a_converted.jpg" /\
  os_path_exists (cfs r.2) r.1.1 = true.
Proof.
  assert (Hflag : (compress_image plain_imaging "out/temp_compressed/a_converted.jpg"
                     (Some "out/temp_compressed") MAX_IMAGE_SIZE_MB COMPRESSION_QUALITY
                     MAX_IMAGE_DIMENSION converted_world).1
                  = ("out/temp_compressed/a_converted_compressed.jpg", true))
    by (vm_compute; reflexivity).
  split; [exact Hflag|].
  apply (compress_image_result plain_imaging "out/temp_compressed/a_converted.jpg"
           (Some "out/temp_compressed") MAX_IMAGE_SIZE_MB COMPRESSION_QUALITY
           MAX_IMAGE_DIMENSION converted_world CacheOk_nil).
  rewrite Hflag. reflexivity.
Defined.

(** The cache stays as the module builds it: at most
    [_COMPRESS_CACHE_MAX] entries, no key twice, and under every key a
    file with the compressed name of the key's path. *)
Theorem compress_cache_ok (X : Imaging) (input_path : string)
    (temp_folder : option string) (max_size_mb quality max_dimension : Z)
    (w : CompressWorld) :
  CacheOk (_COMPRESS_CACHE w) ->
  CacheOk (_COMPRESS_CACHE
             (compress_image X input_path temp_folder max_size_mb quality
                max_dimension w).2).
Proof.
  intros Hok.
  pose proof (compress_image_spec X input_path temp_folder max_size_mb quality
                max_dimension w) as [_ Hout].
  simpl in Hout.
  destruct Hout as [[_ ->]|[(size & mtime & cached & _ & _ & _ & _ & ->)
                           |(size & _ & _ & _ & ->)]]; try exact Hok.
  destruct (getmtime X input_path (cfs w)) as [mtime|]; [|exact Hok].
  apply cache_store_ok; [exact Hok|]. apply compressed_path_basename.
Qed.

Lemma compress_cache_ok_witness :
  CacheOk (_COMPRESS_CACHE
             (compress_image plain_imaging "out/temp_compressed/a_converted.jpg"
                (Some "out/temp_compressed") MAX_IMAGE_SIZE_MB COMPRESSION_QUALITY
                MAX_IMAGE_DIMENSION converted_world).2) /\
  length (_COMPRESS_CACHE
            (compress_image plain_imaging "out/temp_compressed/a_converted.jpg"
               (Some "out/temp_compressed") MAX_IMAGE_SIZE_MB COMPRESSION_QUALITY
               MAX_IMAGE_DIMENSION converted_world).2) = 1%nat.
Proof.
  split; [|vm_compute; reflexivity].
  apply (compress_cache_ok plain_imaging "out/temp_compressed/a_converted.jpg"
           (Some "out/temp_compressed") MAX_IMAGE_SIZE_MB COMPRESSION_QUALITY
           MAX_IMAGE_DIMENSION converted_world CacheOk_nil).
Defined.


(** A second call on a file that has not changed answers from the cache:
    once a call has returned a compressed file, a later call on the same
    input with the same time stamp returns that file again and does
    nothing, whatever folder and limits it is given, as long as it is not
    cancelled on entry. *)
Theorem compress_image_cached (X : Imaging) (input_path : string)
    (temp_folder temp_folder' : option string)
    (max_size_mb quality max_dimension max_size_mb' quality' max_dimension' : Z)
    (w : CompressWorld) (mtime : Z) :
  comp_stop X CC_entry = false ->
  getmtime X input_path (cfs w) = Some mtime ->
  let r := compress_image X input_path temp_folder max_size_mb quality max_dimension w in
  r.1.2 = true ->
  getmtime X input_path (cfs r.2) = Some mtime ->
  compress_image X input_path temp_folder' max_size_mb' quality' max_dimension' r.2
  = (r.1, r.2).
Proof.
  intros Hstop Hmtime.
  pose proof (compress_image_spec X input_path temp_folder max_size_mb quality
                max_dimension w) as [Hframe Hout].
  simpl in *. intros Hflag Hmtime'.
  destruct Hout as [[Hr _]|[(size & mtime0 & cached & Hsize & Hm0 & Hget & Hex & Hr)
                           |(size & Hsize & Hr & Hex & Hc)]].
  - rewrite Hr in Hflag. discriminate.
  - rewrite Hr. simpl. rewrite Hm0 in Hmtime. injection Hmtime as ->.
    apply (compress_image_hit X input_path temp_folder' _ _ _ w size mtime cached);
      assumption.
  - assert (Hin : cfs (compress_image X input_path temp_folder max_size_mb quality
                         max_dimension w).2 !! input_path = cfs w !! input_path).
    { destruct (Hframe input_path) as [H|(_ & H & _)]; [|exact H|].
      - intros H. exact (compressed_path_differs _ _ (eq_sym H)).
      - apply getsize_is_Some in Hsize as [n Hn]. congruence. }
    rewrite Hmtime in Hc.
    rewrite (compress_image_hit X input_path temp_folder' _ _ _ _ size mtime
               (compressed_path input_path temp_folder) Hstop).
    + rewrite Hr. reflexivity.
    + unfold os_path_getsize in *. rewrite Hin. exact Hsize.
    + exact Hmtime'.
    + rewrite Hc. apply cache_get_set.
    + exact Hex.
Qed.

Lemma compress_image_cached_witness :
  let r := compress_image plain_imaging "out/temp_compressed/a_converted.jpg"
             (Some "out/temp_compressed") MAX_IMAGE_SIZE_MB COMPRESSION_QUALITY
             MAX_IMAGE_DIMENSION converted_world in
  r.1 = ("out/temp_compressed/a_converted_compressed.jpg", true) /\
  compress_image plain_imaging "out/temp_compressed/a_converted.jpg" None 1 50 300 r.2
  = (r.1, r.2).
Proof.
  assert (Hflag : (compress_image plain_imaging "out/temp_compressed/a_converted.jpg"
                     (Some "out/temp_compressed") MAX_IMAGE_SIZE_MB COMPRESSION_QUALITY
                     MAX_IMAGE_DIMENSION converted_world).1
                  = ("out/temp_compressed/a_converted_compressed.jpg", true))
    by (vm_compute; reflexivity).
  split; [exact Hflag|].
  apply (compress_image_cached plain_imaging "out/temp_compressed/a_converted.jpg"
           (Some "out/temp_compressed") None MAX_IMAGE_SIZE_MB COMPRESSION_QUALITY
           MAX_IMAGE_DIMENSION 1 50 300 converted_world 1700000000 eq_refl eq_refl).
  - rewrite Hflag. reflexivity.
  - reflexivity.
Defined.

End Compression.

(** ** The vector processor with the collaborators of this repository *)

Lemma no_sep_literal (s : string) :
  forallb (fun c => negb (Ascii.eqb c "/"%char)) (chars s) = true -> "/"%char ∉ chars s.
Proof.
  intros H Hin. rewrite forallb_forall in H.
  apply list_elem_of_In in Hin. specialize (H _ Hin).
  rewrite Ascii.eqb_refl in H. discriminate.
Qed.

Lemma rfind_bounds (c : ascii) (l : list ascii) : (-1 <= rfind c l)%Z.
Proof.
  destruct (last_occurrence c l) as [H|(a & b & -> & H)].
  - rewrite (rfind_absent _ _ H). lia.
  - rewrite (rfind_last _ a b H). lia.
Qed.

(** [splitext] of the name of the converted picture. *)
Lemma splitext_converted (b : string) :
  "/"%char ∉ chars b ->
  splitext (b +:+ "_converted.jpg") = (b +:+ "_converted", ".jpg").
Proof.
  intros Hb. unfold splitext.
  assert (Hl : chars (b +:+ "_converted.jpg")
               = ((chars b ++ chars "_converted") ++ "."%char :: chars "jpg")%list).
  { rewrite chars_app, <- app_assoc. reflexivity. }
  rewrite Hl.
  assert (Hdot : rfind "."%char ((chars b ++ chars "_converted") ++ "."%char :: chars "jpg")
                 = Z.of_nat (length (chars b ++ chars "_converted")%list)).
  { apply rfind_last. intros H. apply list_elem_of_In in H. simpl in H.
    intuition discriminate. }
  assert (Hsep : rfind "/"%char ((chars b ++ chars "_converted") ++ "."%char :: chars "jpg")
                 = (-1)%Z).
  { apply rfind_absent. rewrite <- Hl. apply no_sep_app; [exact Hb|].
    apply no_sep_literal. reflexivity. }
  rewrite Hdot, Hsep.
  destruct (Z.ltb_spec (-1) (Z.of_nat (length (chars b ++ chars "_converted")%list)));
    [|lia].
  rewrite (take_length_app (chars b ++ chars "_converted") ("."%char :: chars "jpg"))
    by reflexivity.
  rewrite (drop_length_app (chars b ++ chars "_converted") ("."%char :: chars "jpg"))
    by reflexivity.
  change (slice_from (-1 + 1) (chars b ++ chars "_converted"))
    with (chars b ++ chars "_converted")%list.
  rewrite existsb_app. replace (existsb _ (chars "_converted")) with true by reflexivity.
  rewrite orb_true_r. rewrite str_app, str_chars. reflexivity.
Qed.

Lemma converted_name_no_sep (filename : string) :
  "/"%char ∉ chars filename -> "/"%char ∉ chars (converted_name filename).
Proof.
  intros H. apply no_sep_app; [apply splitext_no_sep, H|].
  apply no_sep_literal. reflexivity.
Qed.

Lemma converted_name_differs (filename : string) : converted_name filename <> filename.
Proof.
  apply (base_suffix_differs filename "_converted.jpg" "_"%char (chars "converted.jpg"));
    [reflexivity | discriminate].
Qed.

Lemma append_assoc (a b c : string) : (a +:+ b) +:+ c = a +:+ b +:+ c.
Proof. apply chars_inj. rewrite !chars_app, <- app_assoc. reflexivity. Qed.

Lemma converted_compressed_name_differs (filename : string) :
  converted_compressed_name filename <> filename.
Proof.
  unfold converted_compressed_name. rewrite append_assoc.
  apply (base_suffix_differs filename ("_converted" +:+ "_compressed" +:+ ".jpg")
           "_"%char (chars "converted_compressed.jpg"));
    [reflexivity | discriminate].
Qed.

(** The compressed name of the converted picture. *)
Lemma compressed_name_converted (folder filename : string) :
  "/"%char ∉ chars filename ->
  compressed_name (path_join folder (converted_name filename))
  = converted_compressed_name filename.
Proof.
  intros H. unfold compressed_name.
  rewrite (basename_path_join _ _ (converted_name_no_sep _ H)).
  unfold converted_name. rewrite (splitext_converted _ (splitext_no_sep _ H)).
  reflexivity.
Qed.

Lemma converted_names_differ (filename : string) :
  converted_compressed_name filename <> converted_name filename.
Proof.
  unfold converted_compressed_name, converted_name. rewrite append_assoc. intros H.
  apply append_cancel in H. discriminate.
Qed.

(** *** What the collaborators contribute *)

Lemma convert_svg_cases (XS : format_svg_processing.SvgLib)
    (svg_path output_jpg_path : string) (f : FS) :
  let r := format_svg_processing.convert_svg_to_jpg XS svg_path output_jpg_path f in
  (forall q, q <> output_jpg_path -> r.2 !! q = f !! q) /\
  (r.1.1 = true -> exists c, r.2 !! output_jpg_path = Some (FileNode c)) /\
  (r.2 !! output_jpg_path = f !! output_jpg_path \/
   exists c, r.2 !! output_jpg_path = Some (FileNode c)).
Proof.
  unfold format_svg_processing.convert_svg_to_jpg.
  destruct (format_svg_processing.svg_stop XS format_svg_processing.SC_entry);
    [simpl; split; [reflexivity|]; split; [discriminate | left; reflexivity]|].
  destruct (format_svg_processing.svg2rlg XS svg_path f) as [d| |e];
    try (simpl; split; [reflexivity|]; split; [discriminate | left; reflexivity]).
  destruct (format_svg_processing.svg_stop XS format_svg_processing.SC_parsed);
    [simpl; split; [reflexivity|]; split; [discriminate | left; reflexivity]|].
  destruct (format_svg_processing.drawToFile XS d output_jpg_path f) as [c|[c|] e].
  - destruct (os_path_exists _ _ && _); simpl;
      (split; [intros q Hq; apply lookup_insert_ne; congruence|]);
      (split; [intros _; exists c; apply lookup_insert_eq
              | right; exists c; apply lookup_insert_eq]).
  - simpl. split; [intros q Hq; apply lookup_insert_ne; congruence|].
    split; [discriminate|]. right. exists c. apply lookup_insert_eq.
  - simpl. split; [reflexivity|]. split; [discriminate | left; reflexivity].
Qed.

Lemma write_exif_on_existing (XE : exif_writer.ExifTool) (image_path output_path : string)
    (m : Metadata) (f : FS) :
  is_Some (f !! output_path) ->
  let r := exif_writer.write_exif_with_exiftool XE image_path output_path m
             {| exif_writer.xfs := f; exif_writer.exif_runs := [] |} in
  r.1 ∈ [(false, "stopped"); (true, "no_metadata"); (true, "exiftool_not_found");
         (true, "exif_ok"); (true, "exif_failed")] /\
  (forall q, q <> output_path -> exif_writer.xfs r.2 !! q = f !! q) /\
  is_Some (exif_writer.xfs r.2 !! output_path).
Proof.
  intros Hout. unfold exif_writer.write_exif_with_exiftool. simpl.
  rewrite (proj2 (os_path_exists_is_Some f output_path) Hout). simpl.
  destruct (exif_writer.exif_stop XE exif_writer.XC_entry);
    [simpl; split; [in_list|]; split; [reflexivity | exact Hout]|].
  destruct (exif_writer.exif_stop XE exif_writer.XC_copied);
    [simpl; split; [in_list|]; split; [reflexivity | exact Hout]|].
  destruct (String.eqb (title m) "" && String.eqb (description m) ""
            && bool_decide (exif_writer.cleaned_tags_of m = []));
    [simpl; split; [in_list|]; split; [reflexivity | exact Hout]|].
  destruct (negb (truthy (exif_writer.EXIFTOOL_PATH XE)));
    [simpl; split; [in_list|]; split; [reflexivity | exact Hout]|].
  destruct (exif_writer.exif_stop XE exif_writer.XC_clear);
    [simpl; split; [in_list|]; split; [reflexivity | exact Hout]|].
  set (w1 := {| exif_writer.xfs := f; exif_writer.exif_runs := [] |}).
  set (w2 := exif_writer.exiftool_run XE _ output_path w1).
  assert (H2 : is_Some (exif_writer.xfs w2 !! output_path) /\
               forall q, q <> output_path -> exif_writer.xfs w2 !! q = f !! q).
  { split.
    - apply (exiftool_run_frame XE _ output_path w1 output_path). exact Hout.
    - intros q Hq. unfold w2.
      rewrite (proj1 (exiftool_run_frame XE _ output_path w1 q) Hq). reflexivity. }
  destruct H2 as [Hout2 Hframe2].
  destruct (exif_writer.exif_stop XE exif_writer.XC_cleared);
    [simpl; split; [in_list|]; split; [exact Hframe2 | exact Hout2]|].
  match goal with |- context [exif_writer.run_command XE ?cmd output_path w2] =>
    pose proof (run_command_frame XE cmd output_path w2) as Hrun;
    destruct (exif_writer.run_command XE cmd output_path w2) as [r w3]
  end.
  simpl in *. split; [|split].
  - destruct (Hrun output_path) as (_ & _ & Hr). apply list_elem_of_In in Hr; simpl in Hr.
    in_list.
  - intros q Hq. rewrite (proj1 (Hrun q) Hq). apply Hframe2, Hq.
  - apply (proj1 (proj2 (Hrun output_path))). exact Hout2.
Qed.

Lemma compress_image_flagged (X : compression.Imaging) (input_path : string)
    (temp_folder : option string) (max_size_mb quality max_dimension : Z)
    (w : compression.CompressWorld) :
  CacheOk (compression._COMPRESS_CACHE w) ->
  let r := compression.compress_image X input_path temp_folder max_size_mb quality
             max_dimension w in
  r.1.2 = true ->
  basename r.1.1 = compressed_name input_path /\
  is_Some (compression.cfs r.2 !! r.1.1).
Proof.
  intros (_ & _ & Hval).
  pose proof (compress_image_spec X input_path temp_folder max_size_mb quality
                max_dimension w) as [_ Hout].
  simpl in *.
  destruct (compression.compress_image X input_path temp_folder max_size_mb quality
              max_dimension w) as [[path flag] w'].
  simpl in *. intros ->.
  destruct Hout as [[[= _ ?] _]|[(size & mtime & cached & _ & _ & Hget & Hex & [= -> ->])
                               |(size & _ & [= ->] & Hex & _)]].
  - pose proof (Hval _ _ (cache_get_elem _ _ _ Hget)) as Hb. simpl in Hb.
    split; [exact Hb | apply os_path_exists_is_Some, Hex].
  - split; [apply compressed_path_basename | apply os_path_exists_is_Some, Hex].
Qed.

Lemma compress_image_existing (X : compression.Imaging) (input_path : string)
    (temp_folder : option string) (max_size_mb quality max_dimension : Z)
    (w : compression.CompressWorld) (p : string) :
  is_Some (compression.cfs w !! p) -> basename p <> compressed_name input_path ->
  compression.cfs (compression.compress_image X input_path temp_folder max_size_mb quality
                     max_dimension w).2 !! p = compression.cfs w !! p.
Proof.
  intros [n Hn] Hb.
  pose proof (compress_image_spec X input_path temp_folder max_size_mb quality
                max_dimension w) as [Hframe _].
  simpl in Hframe.
  destruct (Hframe p) as [H|(_ & H & _)]; [|exact H | congruence].
  intros ->. apply Hb, compressed_path_basename.
Qed.

Lemma try_remove_frame (f : FS) (p q : string) : q <> p -> try_remove f p !! q = f !! q.
Proof.
  intros Hq. unfold try_remove, os_remove.
  destruct (f !! p) as [[c|]|]; try reflexivity.
  apply lookup_delete_ne. congruence.
Qed.

Lemma try_remove_file (f : FS) (p : string) (c : string) :
  f !! p = Some (FileNode c) -> try_remove f p !! p = None.
Proof.
  intros H. unfold try_remove, os_remove. rewrite H. apply lookup_delete_eq.
Qed.

Lemma differs_by_basename (p q : string) : basename p <> basename q -> p <> q.
Proof. intros H ->. apply H. reflexivity. Qed.

(** *** The conversion block *)

Section Real.
Variable C : Collab.
Variable XS : format_svg_processing.SvgLib.
Variable XI : compression.Imaging.
Variable d : list (compression.CacheKey * string).
Variable XE : exif_writer.ExifTool.
Hypothesis cache_ok : CacheOk d.

(** What the conversion block leaves: the journals as they were, every
    existing file that bears neither temporary name as it was, and a
    picture for the AI (the converted one, or its compressed version
    after the converted one has been removed) unless the block leaves the
    function. *)
Lemma vector_convert_real (sg : Signals) (st : Settings)
    (input_path filename ext_lower chosen_temp_folder : string) (w : World) :
  "/"%char ∉ chars filename -> ext_lower <> ".eps" -> ext_lower <> ".ai" ->
  let T := path_join chosen_temp_folder (converted_name filename) in
  let r := vector_convert (with_real C XS XI d XE) sg st input_path filename ext_lower
             chosen_temp_folder w in
  ai_calls r.2 = ai_calls w /\ csv_rows r.2 = csv_rows w /\
  (forall q, is_Some (fs w !! q) -> basename q <> converted_name filename ->
     basename q <> converted_compressed_name filename -> fs r.2 !! q = fs w !! q) /\
  match r.1 with
  | Return res =>
      (res = Ok ("stopped", None, None) \/ res = Ok ("failed_conversion", None, None)) /\
      (fs w !! T = None -> fs r.2 !! T = None)
  | Continue None => ext_lower <> ".svg" /\ r.2 = w
  | Continue (Some t) =>
      ext_lower = ".svg" /\
      ((t = T /\ exists c, fs r.2 !! T = Some (FileNode c)) \/
       (basename t = converted_compressed_name filename /\ is_Some (fs r.2 !! t) /\
        fs r.2 !! T = None))
  end.
Proof.
  intros Hname Heps Hai T. unfold vector_convert.
  rewrite (proj2 (String.eqb_neq _ _) Heps), (proj2 (String.eqb_neq _ _) Hai).
  cbn [orb negb].
  destruct (String.eqb_spec ext_lower ".svg") as [Hsvg|Hsvg]; cbn [negb].
  2:{ simpl. repeat split; auto. }
  fold (converted_name filename). fold T.
  destruct (_check_stop sg CP_vector_convert).
  { simpl. repeat split; auto. }
  cbn [with_real convert_svg_to_jpg compress_image].
  pose proof (convert_svg_cases XS input_path T (fs w)) as (Hsf & Hsok & Hst).
  destruct (format_svg_processing.convert_svg_to_jpg XS input_path T (fs w))
    as [[ok msg] f1].
  cbn [fst snd] in *.
  assert (HbT : basename T = converted_name filename)
    by (apply basename_path_join, converted_name_no_sep, Hname).
  assert (HcT : compressed_name T = converted_compressed_name filename)
    by (apply compressed_name_converted, Hname).
  assert (Hq1 : forall q, basename q <> converted_name filename -> f1 !! q = fs w !! q).
  { intros q Hq. apply Hsf. intros ->. exact (Hq HbT). }
  destruct ok; cbn [negb].
  - destruct (Hsok eq_refl) as [c Hc].
    rewrite (proj2 (os_path_exists_is_Some f1 T)) by (rewrite Hc; eauto).
    pose proof (compress_image_flagged XI T (Some chosen_temp_folder)
                  compression.MAX_IMAGE_SIZE_MB compression.COMPRESSION_QUALITY
                  compression.MAX_IMAGE_DIMENSION
                  {| compression.cfs := f1; compression._COMPRESS_CACHE := d |} cache_ok)
      as Hflag.
    pose proof (compress_image_existing XI T (Some chosen_temp_folder)
                  compression.MAX_IMAGE_SIZE_MB compression.COMPRESSION_QUALITY
                  compression.MAX_IMAGE_DIMENSION
                  {| compression.cfs := f1; compression._COMPRESS_CACHE := d |})
      as Hkeep.
    destruct (compression.compress_image XI T (Some chosen_temp_folder)
                compression.MAX_IMAGE_SIZE_MB compression.COMPRESSION_QUALITY
                compression.MAX_IMAGE_DIMENSION
                {| compression.cfs := f1; compression._COMPRESS_CACHE := d |})
      as [[path flag] w2].
    cbn [fst snd compression.cfs] in *.
    rewrite HcT in Hflag, Hkeep.
    assert (HT2 : compression.cfs w2 !! T = Some (FileNode c)).
    { rewrite Hkeep; [exact Hc | rewrite Hc; eauto|].
      rewrite HbT. intros H. exact (converted_names_differ _ (eq_sym H)). }
    assert (Hq2 : forall q, is_Some (fs w !! q) -> basename q <> converted_name filename ->
              basename q <> converted_compressed_name filename ->
              compression.cfs w2 !! q = fs w !! q).
    { intros q Hex Ha Hb. rewrite Hkeep; [apply Hq1, Ha | rewrite (Hq1 q Ha); exact Hex
                                         | exact Hb]. }
    destruct (flag && truthy (Some path) && os_path_exists (compression.cfs w2) path)
      eqn:Hall.
    + apply andb_true_iff in Hall as [Hall Hex].
      apply andb_true_iff in Hall as [-> _].
      destruct (Hflag eq_refl) as [Hbp _].
      unfold os_remove. rewrite HT2. simpl.
      split; [reflexivity|]. split; [reflexivity|]. split.
      * intros q Hex' Ha Hb. rewrite lookup_delete_ne; [apply Hq2; assumption|].
        intros <-. exact (Ha HbT).
      * split; [exact Hsvg|]. right. split; [exact Hbp|]. split.
        -- rewrite lookup_delete_ne; [apply os_path_exists_is_Some, Hex|].
           apply differs_by_basename. rewrite HbT, Hbp.
           intros H. exact (converted_names_differ _ (eq_sym H)).
        -- apply lookup_delete_eq.
    + simpl. split; [reflexivity|]. split; [reflexivity|]. split; [exact Hq2|].
      split; [exact Hsvg|]. left. split; [reflexivity|]. eauto.
  - set (f2 := if os_path_exists f1 T then try_remove f1 T else f1).
    assert (Hf2 : forall q, q <> T -> f2 !! q = f1 !! q).
    { intros q Hq. unfold f2. destruct (os_path_exists f1 T); [|reflexivity].
      apply try_remove_frame, Hq. }
    simpl. split; [reflexivity|]. split; [reflexivity|]. split.
    + intros q _ Ha _. rewrite Hf2; [apply Hq1, Ha|]. intros ->. exact (Ha HbT).
    + split; [right; reflexivity|]. intros HT. unfold f2.
      destruct Hst as [Hsame|[c Hc]].
      * rewrite HT in Hsame.
        destruct (os_path_exists f1 T) eqn:Hex; [|exact Hsame].
        apply os_path_exists_true in Hex as [n Hn]. congruence.
      * rewrite (proj2 (os_path_exists_is_Some f1 T)) by (rewrite Hc; eauto).
        apply (try_remove_file _ _ c Hc).
Qed.

(** *** The output block *)

(** What the final block answers and changes: a failed copy changes
    nothing; otherwise the output file is there, and nothing else has
    changed. *)
Lemma vector_output_real (st : Settings) (input_path initial_output_path : string)
    (metadata : Metadata) (w : World) :
  let r := vector_output (with_real C XS XI d XE) st input_path initial_output_path
             metadata w in
  ai_calls r.2 = ai_calls w /\ csv_rows r.2 = csv_rows w /\
  (forall q, q <> initial_output_path -> fs r.2 !! q = fs w !! q) /\
  exists status m output,
    r.1 = Ok (status, Some m, output) /\
    ((status = "failed_copy" /\ output = None /\ r.2 = w) \/
     (status ∈ ["processed_no_exif"; "failed_stopped"; "processed_exif";
                "processed_exif_failed"] /\
      output = Some initial_output_path /\
      is_Some (fs r.2 !! initial_output_path))).
Proof.
  unfold vector_output, shutil_copy2.
  destruct (fs w !! input_path) as [[c|]|].
  2,3: simpl; repeat split; eauto 10.
  assert (Hout : is_Some ((<[initial_output_path := FileNode c]> (fs w))
                            !! initial_output_path))
    by (rewrite lookup_insert_eq; eauto).
  assert (Hframe : forall q, q <> initial_output_path ->
            (<[initial_output_path := FileNode c]> (fs w)) !! q = fs w !! q)
    by (intros q Hq; apply lookup_insert_ne; congruence).
  destruct (embedding_enabled st); cbn [negb].
  2:{ simpl. split; [reflexivity|]. split; [reflexivity|]. split; [exact Hframe|].
      eexists _, _, _. split; [reflexivity|]. right. split; [in_list | auto]. }
  cbn [with_real write_exif_with_exiftool].
  pose proof (write_exif_on_existing XE input_path initial_output_path
                (set_keyword_count metadata (keyword_count st)) _ Hout)
    as (Hst & Hxf & Hxo).
  destruct (exif_writer.write_exif_with_exiftool XE input_path initial_output_path
              (set_keyword_count metadata (keyword_count st)) _) as [[proceed status] w2].
  cbn [fst snd] in *.
  assert (Hf2 : forall q, q <> initial_output_path -> exif_writer.xfs w2 !! q = fs w !! q)
    by (intros q Hq; rewrite (Hxf q Hq); apply Hframe, Hq).
  apply list_elem_of_In in Hst. simpl in Hst.
  destruct Hst as [[= <- <-]|[[= <- <-]|[[= <- <-]|[[= <- <-]|[[= <- <-]|[]]]]]]; simpl;
    (split; [reflexivity|]; split; [reflexivity|]; split; [exact Hf2|];
     eexists _, _, _; split; [reflexivity|]; right; split; [in_list | auto]).
Qed.

Lemma os_makedirs_existing (f f' : FS) (p q : string) :
  os_makedirs f p = Some f' -> is_Some (f !! q) -> f' !! q = f !! q.
Proof.
  unfold os_makedirs. destruct (f !! p) as [[c|]|] eqn:Hp; intros [= <-] Hq;
    [reflexivity|].
  apply lookup_insert_ne. intros ->. rewrite Hp in Hq. destruct Hq. discriminate.
Qed.

Lemma os_makedirs_frame (f f' : FS) (p q : string) :
  os_makedirs f p = Some f' -> q <> p -> f' !! q = f !! q.
Proof.
  unfold os_makedirs. destruct (f !! p) as [[c|]|] eqn:Hp; intros [= <-] Hq;
    [reflexivity|].
  apply lookup_insert_ne. congruence.
Qed.

(** The removal of the temporary picture after the metadata call. *)
Lemma after_api_frame (w2 : World) (temp_raster_path : option string) (q : string) :
  (forall t, temp_raster_path = Some t -> q <> t) ->
  fs (match temp_raster_path with
      | Some t =>
          if truthy temp_raster_path && os_path_exists (fs w2) t
          then with_fs w2 (try_remove (fs w2) t) else w2
      | None => w2
      end) !! q = fs w2 !! q.
Proof.
  intros H. destruct temp_raster_path as [t|]; [|reflexivity].
  destruct (truthy (Some t) && os_path_exists (fs w2) t); [|reflexivity].
  simpl. apply try_remove_frame, H. reflexivity.
Qed.

(** *** The whole vector processor *)

Lemma temp_folder_is_no_picture (b : string) : b +:+ "_converted.jpg" <> "temp_compressed".
Proof.
  intros H. apply (f_equal chars) in H. rewrite chars_app in H.
  apply (f_equal (@rev ascii)) in H. rewrite rev_app_distr in H.
  simpl in H. discriminate.
Qed.

Lemma converted_name_nonempty (filename : string) : converted_name filename <> "".
Proof. apply append_nonempty. discriminate. Qed.

Lemma converted_compressed_name_nonempty (filename : string) :
  converted_compressed_name filename <> "".
Proof. apply append_nonempty. discriminate. Qed.

Lemma basename_empty : basename "" = "".
Proof. reflexivity. Qed.

(** The three facts the statements below rest on: which files a vector
    job leaves alone, what becomes of the converted picture, and what the
    AI is shown. *)
Lemma process_vector_file_real (sg : Signals) (st : Settings)
    (input_path output_dir key : string) (w : World) :
  lower (splitext (basename input_path)).2 <> ".eps" ->
  lower (splitext (basename input_path)).2 <> ".ai" ->
  let filename := basename input_path in
  let T := path_join (path_join output_dir "temp_compressed") (converted_name filename) in
  let r := process_vector_file (with_real C XS XI d XE) sg st input_path output_dir key w in
  (forall q, is_Some (fs w !! q) -> q <> path_join output_dir filename ->
     basename q <> converted_name filename ->
     basename q <> converted_compressed_name filename -> fs r.2 !! q = fs w !! q) /\
  (fs w !! T = None -> r.1 <> Raise -> fs r.2 !! T = None) /\
  (ai_calls r.2 = ai_calls w \/
   exists p, ai_calls r.2 = (ai_calls w ++ [p])%list /\
     ((lower (splitext filename).2 <> ".svg" /\ p = input_path) \/
      (lower (splitext filename).2 = ".svg" /\
       (basename p = converted_name filename \/
        basename p = converted_compressed_name filename)))).
Proof.
  intros Heps Hai filename T. unfold process_vector_file. fold filename.
  destruct (_check_stop sg CP_vector_entry); [simpl; auto|].
  destruct (os_path_exists (fs w) (path_join output_dir filename)) eqn:Hskip;
    [simpl; auto|].
  destruct (os_makedirs (fs w) (path_join output_dir "temp_compressed")) as [f0|] eqn:Hmk;
    [|simpl; split; [auto|]; split; [intros _ H; destruct (H eq_refl) | auto]].
  assert (Hname : "/"%char ∉ chars filename) by apply basename_no_sep.
  assert (HbT : basename T = converted_name filename)
    by (apply basename_path_join, converted_name_no_sep, Hname).
  assert (Hbout : basename (path_join output_dir filename) = filename)
    by (apply basename_path_join, Hname).
  assert (HTout : T <> path_join output_dir filename).
  { apply differs_by_basename. rewrite HbT, Hbout. apply converted_name_differs. }
  assert (HTchosen : T <> path_join output_dir "temp_compressed").
  { apply differs_by_basename. rewrite HbT.
    rewrite basename_path_join by (apply no_sep_literal; reflexivity).
    apply temp_folder_is_no_picture. }
  pose proof (vector_convert_real sg st input_path filename
                (lower (splitext filename).2) (path_join output_dir "temp_compressed")
                (with_fs w f0) Hname Heps Hai) as (Hai1 & Hcsv1 & Hfr1 & Hflow).
  fold T in Hflow.
  destruct (vector_convert (with_real C XS XI d XE) sg st input_path filename
              (lower (splitext filename).2) (path_join output_dir "temp_compressed")
              (with_fs w f0)) as [flow w1].
  cbn [fst snd] in *. simpl in Hai1, Hfr1, Hflow.
  assert (Hfr0 : forall q, is_Some (fs w !! q) -> basename q <> converted_name filename ->
            basename q <> converted_compressed_name filename -> fs w1 !! q = fs w !! q).
  { intros q Hq Ha Hb. pose proof (os_makedirs_existing _ _ _ q Hmk Hq) as H0.
    rewrite Hfr1; [exact H0 | rewrite H0; exact Hq | exact Ha | exact Hb]. }
  assert (HT0 : fs w !! T = None -> f0 !! T = None).
  { intros H. rewrite (os_makedirs_frame _ _ _ T Hmk HTchosen). exact H. }
  destruct flow as [res|temp_raster_path].
  { destruct Hflow as [Hres HT1]. split; [intros q Hq _; apply Hfr0, Hq|].
    split; [intros H _; apply HT1, HT0, H | left; exact Hai1]. }
  set (api_path := if truthy temp_raster_path
                   then default input_path temp_raster_path else input_path).
  (* what is known of the picture before and after the call *)
  assert (Hpic : (forall t q, temp_raster_path = Some t -> is_Some (fs w !! q) ->
                    basename q <> converted_name filename ->
                    basename q <> converted_compressed_name filename -> q <> t) /\
                 (fs w !! T = None ->
                  fs (match temp_raster_path with
                      | Some t =>
                          if truthy temp_raster_path
                             && os_path_exists (fs (log_ai_call w1 api_path)) t
                          then with_fs (log_ai_call w1 api_path)
                                 (try_remove (fs (log_ai_call w1 api_path)) t)
                          else log_ai_call w1 api_path
                      | None => log_ai_call w1 api_path
                      end) !! T = None) /\
                 ((lower (splitext filename).2 <> ".svg" /\ api_path = input_path) \/
                  (lower (splitext filename).2 = ".svg" /\
                   (basename api_path = converted_name filename \/
                    basename api_path = converted_compressed_name filename)))).
  { destruct temp_raster_path as [t|].
    - destruct Hflow as [Hsvg [[-> [c Hc]]|(Hbt & Hext & HTn)]].
      + assert (Htruthy : truthy (Some T) = true).
        { simpl. apply negb_true_iff, String.eqb_neq.
          apply path_join_nonempty, converted_name_nonempty. }
        split; [|split].
        * intros t q [= <-] _ Ha _ ->. exact (Ha HbT).
        * intros _. rewrite Htruthy. simpl.
          rewrite (proj2 (os_path_exists_is_Some (fs w1) T)) by (rewrite Hc; eauto).
          simpl. apply (try_remove_file _ _ c Hc).
        * right. split; [exact Hsvg|]. left. unfold api_path. rewrite Htruthy. exact HbT.
      + assert (Htruthy : truthy (Some t) = true).
        { simpl. apply negb_true_iff, String.eqb_neq. intros ->.
          rewrite basename_empty in Hbt.
          exact (converted_compressed_name_nonempty _ (eq_sym Hbt)). }
        assert (HtT : T <> t).
        { apply differs_by_basename. rewrite HbT, Hbt.
          intros H. exact (converted_names_differ _ (eq_sym H)). }
        split; [|split].
        * intros t' q [= <-] _ _ Hb ->. exact (Hb Hbt).
        * intros _. rewrite Htruthy. simpl.
          destruct (os_path_exists (fs w1) t); [|exact HTn].
          simpl. rewrite try_remove_frame by exact HtT. exact HTn.
        * right. split; [exact Hsvg|]. right. unfold api_path. rewrite Htruthy. exact Hbt.
    - destruct Hflow as [Hsvg ->]. split; [|split].
      + intros t q [=].
      + intros H. simpl. apply HT0, H.
      + left. split; [exact Hsvg | reflexivity]. }
  destruct Hpic as (Hqt & HTapi & Hshown).
  assert (Hcall : ai_calls (log_ai_call w1 api_path) = (ai_calls w ++ [api_path])%list)
    by (simpl; rewrite Hai1; reflexivity).
  destruct (get_metadata (with_real C XS XI d XE) (provider_name st) api_path key
              (fs (log_ai_call w1 api_path))) as [metadata_result|].
  2:{ split; [intros q Hq _; apply Hfr0, Hq|].
      split; [intros _ H; destruct (H eq_refl) | right; eauto]. }
  set (w3 := match temp_raster_path with
             | Some t =>
                 if truthy temp_raster_path && os_path_exists (fs (log_ai_call w1 api_path)) t
                 then with_fs (log_ai_call w1 api_path)
                        (try_remove (fs (log_ai_call w1 api_path)) t)
                 else log_ai_call w1 api_path
             | None => log_ai_call w1 api_path
             end) in *.
  assert (Hfr3 : forall q, is_Some (fs w !! q) -> basename q <> converted_name filename ->
            basename q <> converted_compressed_name filename -> fs w3 !! q = fs w !! q).
  { intros q Hq Ha Hb. unfold w3. rewrite after_api_frame.
    - apply Hfr0; assumption.
    - intros t Ht. exact (Hqt t q Ht Hq Ha Hb). }
  assert (Hai3 : ai_calls w3 = (ai_calls w ++ [api_path])%list).
  { unfold w3. destruct temp_raster_path as [t|]; [|exact Hcall].
    destruct (truthy (Some t) && os_path_exists (fs (log_ai_call w1 api_path)) t);
      exact Hcall. }
  assert (Hdone : forall res : Res Triple,
            (forall q, is_Some (fs w !! q) -> q <> path_join output_dir filename ->
               basename q <> converted_name filename ->
               basename q <> converted_compressed_name filename ->
               fs (res, w3).2 !! q = fs w !! q) /\
            (fs w !! T = None -> (res, w3).1 <> Raise -> fs (res, w3).2 !! T = None) /\
            (ai_calls (res, w3).2 = ai_calls w \/
             exists p, ai_calls (res, w3).2 = (ai_calls w ++ [p])%list /\
               ((lower (splitext filename).2 <> ".svg" /\ p = input_path) \/
                (lower (splitext filename).2 = ".svg" /\
                 (basename p = converted_name filename \/
                  basename p = converted_compressed_name filename))))).
  { intros res. split; [intros q Hq _; apply Hfr3, Hq|].
    split; [intros H _; apply HTapi, H | right; eauto]. }
  destruct metadata_result as [|msg|metadata|]; try apply Hdone.
  destruct (_check_stop sg CP_vector_after_api); [apply Hdone|].
  pose proof (vector_output_real st input_path (path_join output_dir filename) metadata w3)
    as (Hai4 & _ & Hfr4 & _).
  destruct (vector_output (with_real C XS XI d XE) st input_path
              (path_join output_dir filename) metadata w3) as [res w4].
  cbn [fst snd] in *.
  split; [|split].
  - intros q Hq Hout Ha Hb. rewrite (Hfr4 q Hout). apply Hfr3; assumption.
  - intros H _. rewrite (Hfr4 T HTout). apply HTapi, H.
  - right. exists api_path. rewrite Hai4. split; [exact Hai3 | exact Hshown].
Qed.

Lemma process_vector_file_early (sg : Signals) (st : Settings)
    (input_path output_dir key : string) (w : World) :
  os_path_exists (fs w) (path_join output_dir (basename input_path)) = true ->
  (process_vector_file (with_real C XS XI d XE) sg st input_path output_dir key w).2 = w.
Proof.
  intros H. unfold process_vector_file. rewrite H.
  destruct (_check_stop sg CP_vector_entry); reflexivity.
Qed.

(** A vector job never changes its input, whatever becomes of the job,
    nor any other existing file, except the output and files that bear
    one of the two temporary names. The EPS and AI formats, whose
    converter is not among the files at hand, are left out. *)
Theorem vector_job_keeps_files (sg : Signals) (st : Settings)
    (input_path output_dir key : string) (w : World) :
  lower (splitext (basename input_path)).2 <> ".eps" ->
  lower (splitext (basename input_path)).2 <> ".ai" ->
  let r := process_vector_file (with_real C XS XI d XE) sg st input_path output_dir key w in
  (is_Some (fs w !! input_path) -> fs r.2 !! input_path = fs w !! input_path) /\
  (forall q, is_Some (fs w !! q) ->
     q <> path_join output_dir (basename input_path) ->
     basename q <> converted_name (basename input_path) ->
     basename q <> converted_compressed_name (basename input_path) ->
     fs r.2 !! q = fs w !! q).
Proof.
  intros Heps Hai.
  pose proof (process_vector_file_real sg st input_path output_dir key w Heps Hai)
    as (Hframe & _ & _).
  simpl in *. split; [|exact Hframe].
  intros Hin.
  destruct (decide (input_path = path_join output_dir (basename input_path))) as [Heq|Hne].
  - rewrite process_vector_file_early; [reflexivity|].
    apply os_path_exists_is_Some. rewrite <- Heq. exact Hin.
  - apply Hframe; [exact Hin | exact Hne | |].
    + intros H. exact (converted_name_differs _ (eq_sym H)).
    + intros H. exact (converted_compressed_name_differs _ (eq_sym H)).
Qed.

Lemma vector_convert_returns (C0 : Collab) (sg : Signals) (st : Settings)
    (input_path filename ext_lower chosen_temp_folder : string) (w : World) :
  match (vector_convert C0 sg st input_path filename ext_lower chosen_temp_folder w).1 with
  | Return res =>
      res = Raise \/ res = Ok ("stopped", None, None) \/
      res = Ok ("failed_conversion", None, None)
  | Continue _ => True
  end.
Proof.
  unfold vector_convert.
  destruct (String.eqb ext_lower ".eps" || String.eqb ext_lower ".ai"
            || String.eqb ext_lower ".svg"); cbn [negb]; [|exact I].
  destruct (_check_stop sg CP_vector_convert); [simpl; auto|].
  destruct (if String.eqb ext_lower ".eps" || String.eqb ext_lower ".ai"
            then convert_eps_to_jpg C0 input_path _ (ghostscript_path st) (fs w)
            else convert_svg_to_jpg C0 input_path _ (fs w)) as [[[ok msg]|] f1];
    [|simpl; auto].
  destruct ok; cbn [negb]; [|simpl; auto].
  destruct (os_path_exists f1 _); [|exact I].
  destruct (compress_image C0 _ chosen_temp_folder f1) as [[[[cp|] flag]|] f2];
    try exact I.
  destruct (flag && truthy (Some cp) && os_path_exists f2 cp); [|exact I].
  destruct (os_remove f2 _); exact I.
Qed.

(** A vector job that returns ends in one of nine ways. It never answers
    [failed_unknown], [processed_unknown_exif_status] or
    [failed_copy_failed]; a cancellation seen by the EXIF writer gives
    [failed_stopped]. Whenever an output path is returned the file is
    there, and a processed status comes with metadata. *)
Theorem vector_job_outcome (sg : Signals) (st : Settings)
    (input_path output_dir key : string) (w : World) :
  let initial_output_path := path_join output_dir (basename input_path) in
  let r := process_vector_file (with_real C XS XI d XE) sg st input_path output_dir key w in
  match r.1 with
  | Raise => True
  | Ok (status, metadata, output) =>
      (status, output) ∈ vector_outcomes initial_output_path /\
      (output = Some initial_output_path ->
       os_path_exists (fs r.2) initial_output_path = true) /\
      (status ∈ processed_statuses -> is_Some metadata)
  end.
Proof.
  unfold process_vector_file, vector_outcomes.
  destruct (_check_stop sg CP_vector_entry).
  { simpl. split; [in_list|]. split; [discriminate|]. intros H. not_in_list H. }
  destruct (os_path_exists (fs w) (path_join output_dir (basename input_path))) eqn:Hskip.
  { simpl. split; [in_list|]. split; [auto|]. intros H. not_in_list H. }
  destruct (os_makedirs (fs w) (path_join output_dir "temp_compressed")) as [f0|];
    [|exact I].
  pose proof (vector_convert_returns (with_real C XS XI d XE) sg st input_path
                (basename input_path) (lower (splitext (basename input_path)).2)
                (path_join output_dir "temp_compressed") (with_fs w f0)) as Hret.
  destruct (vector_convert (with_real C XS XI d XE) sg st input_path
              (basename input_path) (lower (splitext (basename input_path)).2)
              (path_join output_dir "temp_compressed") (with_fs w f0)) as [flow w1].
  cbn [fst snd] in *.
  destruct flow as [res|temp_raster_path].
  { destruct Hret as [->|[->| ->]]; [exact I| |];
      (simpl; split; [in_list|]; split; [discriminate|]; intros H; not_in_list H). }
  match goal with |- context [get_metadata ?c ?a ?b ?k ?f] =>
    destruct (get_metadata c a b k f) as [metadata_result|]; [|exact I] end.
  destruct metadata_result as [|msg|metadata|];
    try (simpl; split; [in_list|]; split; [discriminate|]; intros H; not_in_list H).
  destruct (_check_stop sg CP_vector_after_api);
    [simpl; split; [in_list|]; split; [discriminate|]; intros H; not_in_list H|].
  match goal with |- context [vector_output ?c ?s ?i ?o ?m ?w0] =>
    pose proof (vector_output_real s i o m w0) as (_ & _ & _ & status & m' & output & Hr & Hcase);
    destruct (vector_output c s i o m w0) as [res w4]
  end.
  cbn [fst snd] in *. subst res.
  destruct Hcase as [(-> & -> & _)|(Hst & -> & Hex)].
  - split; [in_list|]. split; [discriminate|]. intros _. eauto.
  - split; [|split; [intros _; apply os_path_exists_is_Some, Hex | intros _; eauto]].
    apply list_elem_of_In in Hst. simpl in Hst.
    destruct Hst as [<-|[<-|[<-|[<-|[]]]]]; in_list.
Qed.


(** A vector job calls the AI at most once. For an SVG the call never
    shows the SVG itself but the converted picture or its compressed
    version; any other input is shown as it is. *)
Theorem vector_job_ai_call (sg : Signals) (st : Settings)
    (input_path output_dir key : string) (w : World) :
  lower (splitext (basename input_path)).2 <> ".eps" ->
  lower (splitext (basename input_path)).2 <> ".ai" ->
  let r := process_vector_file (with_real C XS XI d XE) sg st input_path output_dir key w in
  ai_calls r.2 = ai_calls w \/
  exists p, ai_calls r.2 = (ai_calls w ++ [p])%list /\
    if String.eqb (lower (splitext (basename input_path)).2) ".svg"
    then p <> input_path /\
         (basename p = converted_name (basename input_path) \/
          basename p = converted_compressed_name (basename input_path))
    else p = input_path.
Proof.
  intros Heps Hai.
  pose proof (process_vector_file_real sg st input_path output_dir key w Heps Hai)
    as (_ & _ & [Hnone|(p & Hp & Hshown)]); [left; exact Hnone|].
  right. exists p. split; [exact Hp|].
  destruct (String.eqb_spec (lower (splitext (basename input_path)).2) ".svg")
    as [Hsvg|Hsvg]; destruct Hshown as [[Hn Heq]|[Hy Hb]]; try contradiction.
  - split; [|exact Hb]. intros ->.
    destruct Hb as [Hb|Hb];
      [exact (converted_name_differs _ (eq_sym Hb))
      |exact (converted_compressed_name_differs _ (eq_sym Hb))].
  - exact Heq.
Qed.

End Real.

Lemma vector_job_keeps_files_witness :
  let r := process_vector_file real_collab never_stopped demo_settings
             "in/tiny.svg" "out" "k0" demo_world in
  r.1 = Ok ("processed_exif",
            Some {| title := " Sunset "; description := "D"; tags := ["a"; "b"];
                    keyword_count_of := Some "49" |},
            Some "out/tiny.svg") /\
  fs r.2 !! "in/tiny.svg" = Some (FileNode "<svg/>") /\
  fs r.2 !! "out/Sunset.svg" = Some (FileNode "old").
Proof.
  unfold real_collab. cbv zeta.
  split; [vm_compute; reflexivity|].
  pose proof (vector_job_keeps_files demo_collab plain_svglib plain_imaging []
                plain_exiftool CacheOk_nil never_stopped demo_settings
                "in/tiny.svg" "out" "k0" demo_world
                ltac:(vm_compute; discriminate) ltac:(vm_compute; discriminate))
    as [Hin Hothers].
  cbv zeta in Hin, Hothers. split.
  - rewrite Hin; [vm_compute; reflexivity|]. vm_compute. eauto.
  - rewrite Hothers; [vm_compute; reflexivity | vm_compute; eauto | discriminate
                     | vm_compute; discriminate | vm_compute; discriminate].
Defined.


Lemma vector_job_ai_call_witness :
  let r := process_vector_file real_collab never_stopped demo_settings
             "in/tiny.svg" "out" "k0" demo_world in
  ai_calls r.2 = ["out/temp_compressed/tiny_converted_compressed.jpg"] /\
  (ai_calls r.2 = [] \/
   exists p, ai_calls r.2 = [p] /\ p <> "in/tiny.svg" /\
     (basename p = "tiny_converted.jpg" \/ basename p = "tiny_converted_compressed.jpg")).
Proof.
  unfold real_collab. cbv zeta.
  split; [vm_compute; reflexivity|].
  exact (vector_job_ai_call demo_collab plain_svglib plain_imaging []
           plain_exiftool CacheOk_nil never_stopped demo_settings
           "in/tiny.svg" "out" "k0" demo_world
           ltac:(vm_compute; discriminate) ltac:(vm_compute; discriminate)).
Defined.


(** ** A whole job on an SVG file *)


Lemma str_in_elem (x : string) (l : list string) : str_in x l = true <-> x ∈ l.
Proof.
  unfold str_in. rewrite existsb_exists. split.
  - intros (y & Hin & Heq). apply String.eqb_eq in Heq. subst. apply list_elem_of_In, Hin.
  - intros Hin. exists x. split; [apply list_elem_of_In, Hin | apply String.eqb_refl].
Qed.



Section SingleFile.
Variable C : Collab.
Variable XS : format_svg_processing.SvgLib.
Variable XI : compression.Imaging.
Variable d : list (compression.CacheKey * string).
Variable XE : exif_writer.ExifTool.
Hypothesis cache_ok : CacheOk d.





End SingleFile.



(** ** Temporary folders *)




















(** ** The CSV row of a vector job *)

Lemma vector_convert_journals (C : Collab) (sg : Signals) (st : Settings)
    (input_path filename ext_lower chosen_temp_folder : string) (w : World) :
  let r := vector_convert C sg st input_path filename ext_lower chosen_temp_folder w in
  ai_calls r.2 = ai_calls w /\ csv_rows r.2 = csv_rows w.
Proof.
  unfold vector_convert.
  destruct (String.eqb ext_lower ".eps" || String.eqb ext_lower ".ai"
            || String.eqb ext_lower ".svg"); cbn [negb]; [|auto].
  destruct (_check_stop sg CP_vector_convert); [auto|].
  destruct (if String.eqb ext_lower ".eps" || String.eqb ext_lower ".ai"
            then convert_eps_to_jpg C input_path _ (ghostscript_path st) (fs w)
            else convert_svg_to_jpg C input_path _ (fs w)) as [[[ok msg]|] f1];
    [|auto].
  destruct ok; cbn [negb]; [|auto].
  destruct (os_path_exists f1 _); [|auto].
  destruct (compress_image C _ chosen_temp_folder f1) as [[[[cp|] flag]|] f2]; auto.
  destruct (flag && truthy (Some cp) && os_path_exists f2 cp); [|auto].
  destruct (os_remove f2 _); auto.
Qed.

(** [process_vector_file] exports nothing by itself. *)
Lemma process_vector_file_csv_rows (C : Collab) (sg : Signals) (st : Settings)
    (input_path output_dir key : string) (w : World) :
  csv_rows (process_vector_file C sg st input_path output_dir key w).2 = csv_rows w.
Proof.
  unfold process_vector_file.
  destruct (_check_stop sg CP_vector_entry); [reflexivity|].
  destruct (os_path_exists (fs w) _); [reflexivity|].
  destruct (os_makedirs (fs w) _) as [f0|]; [|reflexivity].
  pose proof (vector_convert_journals C sg st input_path (basename input_path)
                (lower (splitext (basename input_path)).2)
                (path_join output_dir "temp_compressed") (with_fs w f0)) as [_ Hcsv].
  destruct (vector_convert C sg st input_path (basename input_path)
              (lower (splitext (basename input_path)).2)
              (path_join output_dir "temp_compressed") (with_fs w f0)) as [flow w1].
  cbn [fst snd] in *. simpl in Hcsv.
  destruct flow as [res|temp_raster_path]; [exact Hcsv|].
  match goal with |- context [get_metadata ?c ?a ?b ?k ?f] =>
    destruct (get_metadata c a b k f) as [metadata_result|]; [|exact Hcsv] end.
  assert (Htail : forall w3 : World, csv_rows w3 = csv_rows w ->
            csv_rows (match metadata_result with
                      | MetaStopped => (Ok ("stopped", None, None), w3)
                      | MetaError _ => (Ok ("failed_api", None, None), w3)
                      | MetaDict metadata =>
                          if _check_stop sg CP_vector_after_api
                          then (Ok ("stopped", Some metadata, None), w3)
                          else vector_output C st input_path
                                 (path_join output_dir (basename input_path)) metadata w3
                      | MetaInvalid => (Ok ("failed_api", None, None), w3)
                      end).2 = csv_rows w).
  { intros w3 H3.
    destruct metadata_result as [|msg|metadata|]; try exact H3.
    destruct (_check_stop sg CP_vector_after_api); [exact H3|].
    unfold vector_output.
    destruct (shutil_copy2 (fs w3) input_path _) as [f1|]; [|exact H3].
    destruct (negb (embedding_enabled st)); [exact H3|].
    destruct (write_exif_with_exiftool C input_path _ _ f1) as [[[proceed status]|] f2];
      [|exact H3].
    destruct (negb proceed); [exact H3|].
    repeat (match goal with |- context [if ?b then _ else _] => destruct b end);
      exact H3. }
  apply Htail.
  destruct temp_raster_path as [t|]; [|exact Hcsv].
  destruct (truthy (Some t) && os_path_exists _ t); exact Hcsv.
Qed.

(** A job on a vector file exports at most one CSV row, and only after a
    processed status: the row names the file the record gives as output,
    carries the description and the keywords of the record's metadata,
    and a keyword limit of at least 1. (A job cancelled at its very end
    answers [stopped] after the export.) *)
Theorem csv_row_of_vector_job (C : Collab) (sg : Signals) (st : Settings)
    (input_path output_dir : string) (api_keys_list : list string) (w : World) :
  str_in (lower (splitext input_path).2) (SUPPORTED_VIDEO_EXTENSIONS C) = false ->
  str_in (lower (splitext input_path).2) [".eps"; ".ai"; ".svg"] = true ->
  let r := process_single_file C sg st input_path output_dir api_keys_list w in
  csv_rows r.2 = csv_rows w \/
  exists row,
    csv_rows r.2 = (csv_rows w ++ [row])%list /\
    (1 <= csv_max_keywords row)%Z /\
    csv_is_video row = false /\
    (job_status r.1 = "stopped" \/
     exists status o m nf,
       r.1 = Full status input_path (Some o) (Some m) (basename input_path) nf /\
       status ∈ processed_statuses /\
       csv_filename row = basename o /\
       csv_description row = description m /\
       csv_tags row = tags m).
Proof.
  intros Hvid Hvec.
  unfold process_single_file, process_single_file_body.
  destruct (_should_stop sg CP_entry); [left; reflexivity|].
  destruct (_should_stop sg CP_try); [left; reflexivity|].
  rewrite Hvid, Hvec. cbv iota.
  set (placed := if auto_foldering_enabled st
                 then
                   if negb (os_path_exists (fs w) (path_join output_dir "Vectors"))
                   then
                     match os_makedirs (fs w) (path_join output_dir "Vectors") with
                     | Some f' => (path_join output_dir "Vectors", f')
                     | None => (output_dir, fs w)
                     end
                   else (path_join output_dir "Vectors", fs w)
                 else (output_dir, fs w)).
  destruct placed as [target f1].
  destruct (negb (os_path_exists f1 input_path)); [left; reflexivity|].
  destruct api_keys_list as [|k ks]; [left; reflexivity|].
  destruct (negb (truthy (select_api_key C (provider_name st) (k :: ks))));
    [left; reflexivity|].
  destruct (_should_stop sg CP_before_dispatch); [left; reflexivity|].
  pose proof (process_vector_file_csv_rows C sg st input_path target
                (default "" (select_api_key C (provider_name st) (k :: ks)))
                (with_fs w f1)) as Hrows.
  destruct (process_vector_file C sg st input_path target
              (default "" (select_api_key C (provider_name st) (k :: ks)))
              (with_fs w f1)) as [[[[status pm] iop]|] w2]; cbn [fst snd] in *;
    simpl in Hrows.
  2:{ destruct (_should_stop sg CP_final); left; exact Hrows. }
  destruct (_should_stop sg CP_after_dispatch); [left; exact Hrows|].
  destruct (str_in status processed_statuses) eqn:Hst.
  2:{ destruct (_should_stop sg CP_final); left; exact Hrows. }
  unfold finish_processed.
  destruct (rename_stage C st pm (basename input_path) target iop (fs w2))
    as [[[fo nf]|] f3].
  2:{ destruct (_should_stop sg CP_final); left; exact Hrows. }
  match goal with |- context [csv_stage C st false pm ?orig target fo nf ?w0] =>
    set (w5 := w0);
    assert (Hw5 : csv_rows w5 = csv_rows w) by exact Hrows;
    clearbody w5
  end.
  unfold csv_stage.
  destruct pm as [m|].
  2:{ destruct (_should_stop sg CP_final); left; exact Hw5. }
  destruct fo as [o|]; cbn [truthy] in *.
  2:{ destruct (_should_stop sg CP_final); left; exact Hw5. }
  destruct (negb (String.eqb o "")).
  2:{ destruct (_should_stop sg CP_final); left; exact Hw5. }
  destruct (if negb (os_path_exists (fs w5) (path_join target "metadata_csv"))
            then os_makedirs (fs w5) (path_join target "metadata_csv")
            else Some (fs w5)) as [f4|].
  2:{ destruct (_should_stop sg CP_final); left; exact Hw5. }
  match goal with |- context [write_to_platform_csvs C ?row f4] =>
    set (the_row := row) in *;
    destruct (write_to_platform_csvs C the_row f4) as [[[]|] f5]
  end.
  2:{ destruct (_should_stop sg CP_final); left; exact Hw5. }
  assert (Hkw : (1 <= csv_max_keywords the_row)%Z).
  { unfold the_row. cbn [csv_max_keywords].
    destruct (int_of_str (keyword_count st)) as [n|]; [|lia].
    destruct (Z.ltb_spec n 1); lia. }
  right. exists the_row.
  destruct (_should_stop sg CP_final); cbn [fst snd].
  - split; [simpl; rewrite Hw5; reflexivity|]. split; [exact Hkw|].
    split; [reflexivity|]. left. reflexivity.
  - split; [simpl; rewrite Hw5; reflexivity|]. split; [exact Hkw|].
    split; [reflexivity|]. right. exists status, o, m, nf.
    split; [reflexivity|]. split; [apply str_in_elem, Hst|].
    split; [reflexivity|]. split; reflexivity.
Qed.

Lemma csv_row_of_vector_job_witness :
  let r := process_single_file demo_collab never_stopped demo_settings
             "in/tiny.svg" "out" ["k0"] demo_world in
  exists row,
    csv_rows r.2 = [row] /\
    csv_filename row = "Sunset (1).svg" /\
    (1 <= csv_max_keywords row)%Z.
Proof.
  cbv zeta.
  destruct (csv_row_of_vector_job demo_collab never_stopped demo_settings
              "in/tiny.svg" "out" ["k0"] demo_world eq_refl eq_refl)
    as [Hnone|(row & Hrows & Hkw & _ & _)].
  - vm_compute in Hnone. discriminate.
  - exists row. split; [exact Hrows|]. split; [|exact Hkw].
    vm_compute in Hrows. injection Hrows as <-. reflexivity.
Defined.
